(** * screenshot-webp: a shallow embedding of the native streaming core

    The development follows the C++ sources under [src/native]:
    - [memory_pool.cc]              the buffer pool ([ScreenshotMemoryPool]);
    - [webp_encoder.cc]             the placeholder encoder and the tile composer;
    - [simd_converter.cc]           the pixel converters and their vector paths;
    - [zero_copy_optimizer.cc]      the reference-counted [ZeroCopyBuffer];
    - [ultra_streaming_pipeline.cc] tiling, admission control and the composer.

    Machine integers are integers of [Z] with the wrap-around of their C++
    type written out; byte buffers are lists of [Z]. *)

From Stdlib Require Import ZArith Lia List String Ascii Bool QArith.
From stdpp Require Import base list gmap strings pretty.
Import ListNotations.
Local Open Scope Z_scope.

(** ** Machine integers and bytes *)

Module Machine.

Definition UINT32_MAX : Z := 2 ^ 32 - 1.
Definition SIZE_MAX : Z := 2 ^ 64 - 1.

(** [uint32_t] and [size_t]/[uint64_t] arithmetic is modulo the type's width. *)
Definition wrap32 (z : Z) : Z := z mod 2 ^ 32.
Definition wrap64 (z : Z) : Z := z mod 2 ^ 64.

(** [std::atomic<int32_t>] wraps in two's complement. *)
Definition wrap_int32 (z : Z) : Z := (z + 2 ^ 31) mod 2 ^ 32 - 2 ^ 31.

Definition is_uint32 (z : Z) : Prop := 0 <= z <= UINT32_MAX.
Definition is_size_t (z : Z) : Prop := 0 <= z <= SIZE_MAX.

(** The bytes of a C string literal. *)
Definition bytes_of_string (s : string) : list Z :=
  map (fun c => Z.of_N (N_of_ascii c)) (list_ascii_of_string s).

(** [push_back(v & 0xFF); push_back((v >> 8) & 0xFF); ...] *)
Definition le_bytes24 (v : Z) : list Z :=
  [Z.land v 255; Z.land (Z.shiftr v 8) 255; Z.land (Z.shiftr v 16) 255].

Definition le_bytes32 (v : Z) : list Z :=
  [Z.land v 255; Z.land (Z.shiftr v 8) 255; Z.land (Z.shiftr v 16) 255;
   Z.land (Z.shiftr v 24) 255].

(** The value a little-endian byte string denotes. *)
Fixpoint le_value (bs : list Z) : Z :=
  match bs with
  | [] => 0
  | b :: rest => b + 256 * le_value rest
  end.

(** [len] bytes of [buf] from offset [off] (fewer when the buffer ends). *)
Definition sub_bytes (off len : nat) (buf : list Z) : list Z :=
  firstn len (skipn off buf).

(** [std::memcpy(buf + off, src, |src|)] on a buffer that holds the range. *)
Fixpoint store_bytes (buf : list Z) (off : nat) (src : list Z) : list Z :=
  match src with
  | [] => buf
  | b :: rest => store_bytes (<[off := b]> buf) (S off) rest
  end.

Definition zlength {A} (l : list A) : Z := Z.of_nat (length l).

Lemma wrap32_range z : 0 <= wrap32 z <= UINT32_MAX.
Proof. unfold wrap32, UINT32_MAX. pose proof (Z.mod_pos_bound z (2 ^ 32)). lia. Qed.

Lemma wrap64_range z : 0 <= wrap64 z <= SIZE_MAX.
Proof. unfold wrap64, SIZE_MAX. pose proof (Z.mod_pos_bound z (2 ^ 64)). lia. Qed.

Lemma wrap32_small z : 0 <= z <= UINT32_MAX -> wrap32 z = z.
Proof. unfold wrap32, UINT32_MAX. intros H. apply Z.mod_small. lia. Qed.

Lemma wrap64_small z : 0 <= z <= SIZE_MAX -> wrap64 z = z.
Proof. unfold wrap64, SIZE_MAX. intros H. apply Z.mod_small. lia. Qed.

Lemma land_255 v : Z.land v 255 = v mod 256.
Proof. change 255 with (Z.ones 8). rewrite Z.land_ones by lia. reflexivity. Qed.

Lemma le_value_bytes24 v : 0 <= v < 2 ^ 24 -> le_value (le_bytes24 v) = v.
Proof.
  intros Hv. unfold le_bytes24, le_value.
  rewrite !land_255, !Z.shiftr_div_pow2 by lia.
  change (2 ^ 8) with 256. change (2 ^ 16) with 65536.
  change (2 ^ 24) with 16777216 in Hv.
  Z.div_mod_to_equations. lia.
Qed.

Lemma le_value_bytes32 v : 0 <= v < 2 ^ 32 -> le_value (le_bytes32 v) = v.
Proof.
  intros Hv. unfold le_bytes32, le_value.
  rewrite !land_255, !Z.shiftr_div_pow2 by lia.
  change (2 ^ 8) with 256. change (2 ^ 16) with 65536.
  change (2 ^ 24) with 16777216. change (2 ^ 32) with 4294967296 in Hv.
  Z.div_mod_to_equations. lia.
Qed.

Lemma length_store_bytes src : forall buf off,
  length (store_bytes buf off src) = length buf.
Proof.
  induction src as [|b rest IH]; intros buf off; simpl; [reflexivity|].
  rewrite IH. apply length_insert.
Qed.

(** Overwriting a range that lies inside the buffer replaces exactly it. *)
Lemma store_bytes_inside src : forall pre post old,
  length old = length src ->
  store_bytes (pre ++ old ++ post) (length pre) src = pre ++ src ++ post.
Proof.
  induction src as [|b rest IH]; intros pre post old Hlen.
  - destruct old; [reflexivity|discriminate].
  - destruct old as [|o old']; [discriminate|]. simpl in Hlen.
    cbn [store_bytes].
    replace (<[length pre:=b]> (pre ++ (o :: old') ++ post))
      with ((pre ++ [b]) ++ old' ++ post).
    + replace (S (length pre)) with (length (pre ++ [b]))
        by (rewrite length_app; simpl; lia).
      rewrite IH by lia. rewrite <- app_assoc. reflexivity.
    + rewrite insert_app_r_alt by lia.
      replace (length pre - length pre)%nat with 0%nat by lia.
      rewrite <- app_assoc. reflexivity.
Qed.

End Machine.
Import Machine.

(** ** common/screenshot_common.h: shared records *)

(** [struct WebPEncodeParams]; the [float] fields are kept as rationals. *)
Record WebPEncodeParams := {
  quality : Q;
  method : Z;
  target_size : Z;
  target_psnr : Q;
  segments : Z;
  sns_strength : Z;
  filter_strength : Z;
  filter_sharpness : Z;
  filter_type : Z;
  autofilter : Z;
  alpha_compression : Z;
  alpha_filtering : Z;
  alpha_quality : Z;
  pass : Z;
  show_compressed : Z;
  preprocessing : Z;
  partitions : Z;
  partition_limit : Z;
  emulate_jpeg_size : Z;
  thread_level : Z;
  low_memory : Z;
  near_lossless : Z;
  exact : Z;
  use_delta_palette : Z;
  use_sharp_yuv : Z;
  enable_multithreading : bool;
  max_threads : Z;
  enable_streaming : bool;
  stream_buffer_size : Z
}.

(** The member initialisers of [WebPEncodeParams]. *)
Definition default_params : WebPEncodeParams := {|
  quality := 80 # 1; method := 4; target_size := 0; target_psnr := 0 # 1;
  segments := 4; sns_strength := 50; filter_strength := 60;
  filter_sharpness := 0; filter_type := 1; autofilter := 0;
  alpha_compression := 1; alpha_filtering := 1; alpha_quality := 100;
  pass := 1; show_compressed := 0; preprocessing := 0; partitions := 0;
  partition_limit := 0; emulate_jpeg_size := 0; thread_level := 0;
  low_memory := 0; near_lossless := 100; exact := 0; use_delta_palette := 0;
  use_sharp_yuv := 0; enable_multithreading := true; max_threads := 0;
  enable_streaming := true; stream_buffer_size := 64 * 1024
|}.

(** [struct ScreenshotResult]: [data] is the pixel buffer, [None] for a null
    pointer. *)
Module Screenshot.

Record ScreenshotResult := {
  data : option (list Z);
  width : Z;
  height : Z;
  stride : Z;
  bytes_per_pixel : Z;
  data_size : Z;
  success : bool;
  error_message : string;
  format : string;
  implementation : string
}.

End Screenshot.

(** ** webp_encoder.cc *)

Module WebPEncoder.

(** The encoder object: its only member is [last_error_]. *)
Record t := { last_error_ : string }.

(** The loop [for (i = 0; i < imageDataSize && result.size() < 1000000; ++i)
    result.push_back(i % 256)], with [n] the iterations left before
    [i] reaches [imageDataSize]. *)
Fixpoint push_placeholder (n : nat) (i : Z) (result : list Z) : list Z :=
  match n with
  | O => result
  | S n' =>
      if zlength result <? 1000000
      then push_placeholder n' (i + 1) (result ++ [i mod 256])
      else result
  end.

(** [WebPEncoder::EncodeInternal]: the returned vector and the encoder after
    the call. *)
Definition EncodeInternal (enc : t) (pixels : option (list Z))
    (w h stride_ : Z) (has_alpha : bool) (params : WebPEncodeParams)
    : list Z * t :=
  let enc := {| last_error_ := "" |} in
  match pixels with
  | None => ([], {| last_error_ := "Input data is null" |})
  | Some _ =>
      if (w =? 0) || (h =? 0)
      then ([], {| last_error_ := "Invalid dimensions" |})
      else
        let result := bytes_of_string "RIFF" in
        let fileSize := wrap32 (w * h + 100) in
        let result := result ++ le_bytes32 fileSize in
        let result := result ++ bytes_of_string "WEBP" in
        let result := result ++ bytes_of_string "VP8 " in
        let imageDataSize := wrap32 (w * h) / 10 in
        let result := result ++ le_bytes32 imageDataSize in
        let result := push_placeholder (Z.to_nat imageDataSize) 0 result in
        (result, enc)
  end.

Definition EncodeRGBA (enc : t) (rgba_data : option (list Z))
    (w h stride_ : Z) (params : WebPEncodeParams) : list Z * t :=
  EncodeInternal enc rgba_data w h stride_ true params.

Definition EncodeRGB (enc : t) (rgb_data : option (list Z))
    (w h stride_ : Z) (params : WebPEncodeParams) : list Z * t :=
  EncodeInternal enc rgb_data w h stride_ false params.

(** Modelled from the spec: [struct TileInfo] is only forward-declared in
    [screenshot_common.h]; the composer reads nothing of a tile but its
    [encoded_data], the tile's compressed payload. *)
Record TileInfo := { encoded_data : list Z }.

(** [totalSize += tile.encoded_data.size()] over the tiles, in [uint32_t]. *)
Definition sum_tile_sizes (tiles : list TileInfo) : Z :=
  fold_left (fun acc tile => wrap32 (acc + zlength (encoded_data tile))) tiles 0.

(** [WebPEncoder::CombineEncodedTiles]. *)
Definition CombineEncodedTiles (tiles : list TileInfo)
    (total_width total_height : Z) (has_alpha : bool) : list Z :=
  let combined := bytes_of_string "RIFF" in
  let totalSize := wrap32 (sum_tile_sizes tiles + 100) in
  let combined := combined ++ le_bytes32 totalSize in
  let combined := combined ++ bytes_of_string "WEBP" in
  let combined := combined ++ bytes_of_string "VP8X" in
  let vp8x_size := 10 in
  let combined := combined ++ le_bytes32 vp8x_size in
  let flags := if has_alpha then 16 else 0 in
  let combined := combined ++ [flags; 0; 0; 0] in
  let combined := combined ++ le_bytes24 (wrap32 (total_width - 1)) in
  let combined := combined ++ le_bytes24 (wrap32 (total_height - 1)) in
  fold_left (fun acc tile => acc ++ encoded_data tile) tiles combined.

Lemma push_placeholder_prefix n : forall i result,
  exists tail, push_placeholder n i result = result ++ tail.
Proof.
  induction n as [|n IH]; intros i result; simpl.
  - exists []. symmetry. apply app_nil_r.
  - destruct (zlength result <? 1000000).
    + destruct (IH (i + 1) (result ++ [i mod 256])) as [tail ->].
      exists ((i mod 256) :: tail). rewrite <- app_assoc. reflexivity.
    + exists []. symmetry. apply app_nil_r.
Qed.

Lemma fold_left_app_tiles tiles : forall acc,
  fold_left (fun acc tile => acc ++ encoded_data tile) tiles acc
  = acc ++ concat (map encoded_data tiles).
Proof.
  induction tiles as [|tile rest IH]; intros acc; simpl.
  - symmetry. apply app_nil_r.
  - rewrite IH, <- app_assoc. reflexivity.
Qed.

(** The header the placeholder encoder writes for a [w]x[h] image. *)
Definition placeholder_header (w h : Z) : list Z :=
  bytes_of_string "RIFF" ++ le_bytes32 (wrap32 (w * h + 100))
  ++ bytes_of_string "WEBP" ++ bytes_of_string "VP8 "
  ++ le_bytes32 (wrap32 (w * h) / 10).

(** C9: with a non-null pixel buffer, what [EncodeRGBA] (through
    [EncodeInternal]) returns is the same for any two calls on the same
    width and height, whatever the pixels, the stride, the alpha flag, the
    parameters and the encoder's earlier state; for non-zero dimensions it
    is the header computed from the width and the height, followed by the
    placeholder bytes. *)
Theorem EncodeRGBA_depends_on_dimensions_only
    (enc1 enc2 : t) (d1 d2 : list Z) (w h s1 s2 : Z) (a1 a2 : bool)
    (p1 p2 : WebPEncodeParams) :
  EncodeRGBA enc1 (Some d1) w h s1 p1 = EncodeRGBA enc2 (Some d2) w h s2 p2 /\
  EncodeInternal enc1 (Some d1) w h s1 a1 p1
  = EncodeInternal enc2 (Some d2) w h s2 a2 p2 /\
  (w <> 0 -> h <> 0 ->
   exists tail,
     fst (EncodeRGBA enc1 (Some d1) w h s1 p1) = placeholder_header w h ++ tail).
Proof.
  split; [reflexivity|]. split; [reflexivity|].
  intros Hw Hh. unfold EncodeRGBA, EncodeInternal.
  apply Z.eqb_neq in Hw, Hh. rewrite Hw, Hh. cbn [orb fst].
  destruct (push_placeholder_prefix
              (Z.to_nat (wrap32 (w * h) / 10)) 0
              ((((bytes_of_string "RIFF" ++ le_bytes32 (wrap32 (w * h + 100)))
                 ++ bytes_of_string "WEBP") ++ bytes_of_string "VP8 ")
               ++ le_bytes32 (wrap32 (w * h) / 10))) as [tail ->].
  exists tail. unfold placeholder_header. rewrite <- !app_assoc. reflexivity.
Qed.

(** A 4x5 image of any content encodes to the same 22 bytes. *)
Example EncodeRGBA_4x5 :
  fst (EncodeRGBA {| last_error_ := "" |} (Some (repeat 7 80)) 4 5 16 default_params)
  = [82; 73; 70; 70; 120; 0; 0; 0; 87; 69; 66; 80; 86; 80; 56; 32; 2; 0; 0; 0; 0; 1].
Proof. vm_compute. reflexivity. Qed.
(** *** Failures, and the size of what the placeholder encoder returns *)

(** [output.empty()]. *)
Definition is_empty (v : list Z) : bool :=
  match v with [] => true | _ => false end.

(** [WebPEncoder::EncodeMultiThreaded] as [webp_encoder.cc] defines it: the
    flag it returns, the vector it leaves in [output], and the encoder. *)
Definition EncodeMultiThreaded (enc : t) (pixels : option (list Z))
    (w h stride_ : Z) (has_alpha : bool) (params : WebPEncodeParams)
    : bool * list Z * t :=
  let r := EncodeInternal enc pixels w h stride_ has_alpha params in
  (negb (is_empty (fst r)), fst r, snd r).

Definition GetLastError (enc : t) : string := last_error_ enc.

(** The placeholder bytes [i % 256], [(i + 1) % 256], ... *)
Definition placeholder_bytes (i : Z) (n : nat) : list Z :=
  map (fun k => (i + Z.of_nat k) mod 256) (seq 0 n).

Lemma placeholder_bytes_S i n :
  placeholder_bytes i (S n) = (i mod 256) :: placeholder_bytes (i + 1) n.
Proof.
  unfold placeholder_bytes. cbn [seq map]. rewrite Z.add_0_r. f_equal.
  rewrite <- seq_shift, map_map. apply map_ext. intros k. f_equal. lia.
Qed.

(** The loop stops at [imageDataSize] iterations or at a million bytes,
    whichever comes first. *)
Lemma push_placeholder_closed n : forall i result,
  push_placeholder n i result
  = result ++ placeholder_bytes i
                (Nat.min n (Z.to_nat (1000000 - zlength result))).
Proof.
  induction n as [|n IH]; intros i result.
  - simpl. symmetry. apply app_nil_r.
  - cbn [push_placeholder].
    destruct (zlength result <? 1000000) eqn:E;
      [apply Z.ltb_lt in E|apply Z.ltb_ge in E].
    + rewrite IH.
      assert (Hlen : zlength (result ++ [i mod 256]) = zlength result + 1).
      { unfold zlength. rewrite length_app. simpl. lia. }
      rewrite Hlen.
      replace (Nat.min (S n) (Z.to_nat (1000000 - zlength result)))
        with (S (Nat.min n (Z.to_nat (1000000 - (zlength result + 1))))) by lia.
      rewrite placeholder_bytes_S, <- app_assoc. reflexivity.
    + replace (Z.to_nat (1000000 - zlength result)) with 0%nat by lia.
      rewrite Nat.min_0_r. symmetry. apply app_nil_r.
Qed.

Lemma EncodeInternal_some enc d w h stride_ has_alpha params :
  w <> 0 -> h <> 0 ->
  EncodeInternal enc (Some d) w h stride_ has_alpha params
  = (placeholder_header w h
     ++ placeholder_bytes 0 (Z.to_nat (Z.min (wrap32 (w * h) / 10) 999980)),
     {| last_error_ := "" |}).
Proof.
  intros Hw Hh. unfold EncodeInternal.
  apply Z.eqb_neq in Hw, Hh. rewrite Hw, Hh. cbn [orb].
  rewrite push_placeholder_closed. f_equal.
  unfold placeholder_header. rewrite <- !app_assoc. do 5 f_equal.
  assert (Hlen : zlength (bytes_of_string "RIFF" ++ le_bytes32 (wrap32 (w * h + 100))
                          ++ bytes_of_string "WEBP" ++ bytes_of_string "VP8 "
                          ++ le_bytes32 (wrap32 (w * h) / 10)) = 20) by reflexivity.
  rewrite Hlen.
  pose proof (wrap32_range (w * h)) as Hr.
  assert (0 <= wrap32 (w * h) / 10) by (apply Z.div_pos; lia).
  f_equal. lia.
Qed.

(** Failure reporting of [EncodeInternal]: the vector is empty exactly when
    the data pointer is null or a dimension is zero; the null pointer is
    reported first; a successful call clears [last_error_], so that
    [GetLastError] is empty exactly when the call produced bytes; and
    [EncodeMultiThreaded] returns [true] in exactly those cases. *)
Theorem EncodeInternal_reports_failures (enc : t) (pixels : option (list Z))
    (w h stride_ : Z) (has_alpha : bool) (params : WebPEncodeParams) :
  let r := EncodeInternal enc pixels w h stride_ has_alpha params in
  (fst r = [] <-> pixels = None \/ w = 0 \/ h = 0) /\
  (GetLastError (snd r) = ""%string <-> fst r <> []) /\
  (pixels = None -> GetLastError (snd r) = "Input data is null"%string) /\
  (pixels <> None -> w = 0 \/ h = 0 ->
   GetLastError (snd r) = "Invalid dimensions"%string) /\
  (fst (fst (EncodeMultiThreaded enc pixels w h stride_ has_alpha params)) = true
   <-> pixels <> None /\ w <> 0 /\ h <> 0).
Proof.
  cbv zeta. unfold EncodeMultiThreaded, GetLastError. cbn [fst snd].
  destruct pixels as [d|].
  - destruct (Z.eq_dec w 0) as [Hw|Hw]; [|destruct (Z.eq_dec h 0) as [Hh|Hh]].
    + subst w. cbn [EncodeInternal Z.eqb orb fst snd last_error_ is_empty negb].
      repeat split; intros; try discriminate; intuition congruence.
    + subst h. unfold EncodeInternal. rewrite Z.eqb_refl, orb_true_r.
      cbn [fst snd last_error_ is_empty negb].
      repeat split; intros; try discriminate; intuition congruence.
    + rewrite EncodeInternal_some by assumption. cbn [fst snd last_error_].
      unfold placeholder_header. cbn [bytes_of_string list_ascii_of_string map app
        is_empty negb].
      repeat split; intros; try discriminate; intuition congruence.
  - cbn [EncodeInternal fst snd last_error_ is_empty negb].
    repeat split; intros; try discriminate; intuition congruence.
Qed.

(** What the placeholder encoder returns for a non-null buffer and non-zero
    dimensions: the 20 header bytes and then [min (w * h / 10) 999980]
    bytes [0, 1, ..., 255, 0, ...]. The vector never exceeds a million
    bytes, whereas the two size fields of the header are computed from the
    dimensions alone. *)
Theorem EncodeInternal_output (enc : t) (d : list Z) (w h stride_ : Z)
    (has_alpha : bool) (params : WebPEncodeParams) :
  w <> 0 -> h <> 0 ->
  let out := fst (EncodeInternal enc (Some d) w h stride_ has_alpha params) in
  let imageDataSize := wrap32 (w * h) / 10 in
  out = placeholder_header w h
        ++ placeholder_bytes 0 (Z.to_nat (Z.min imageDataSize 999980)) /\
  zlength out = 20 + Z.min imageDataSize 999980 /\
  zlength out <= 1000000 /\
  le_value (sub_bytes 4 4 out) = wrap32 (w * h + 100) /\
  le_value (sub_bytes 16 4 out) = imageDataSize /\
  (forall k, 0 <= k < Z.min imageDataSize 999980 ->
     out !! Z.to_nat (20 + k) = Some (k mod 256)).
Proof.
  intros Hw Hh. cbv zeta. rewrite EncodeInternal_some by assumption. cbn [fst].
  pose proof (wrap32_range (w * h)) as Hr.
  pose proof (wrap32_range (w * h + 100)) as Hr'.
  assert (Hids : 0 <= wrap32 (w * h) / 10 < 2 ^ 32).
  { split; [apply Z.div_pos; lia|].
    apply Z.div_lt_upper_bound; unfold UINT32_MAX in *; lia. }
  assert (Hhead : length (placeholder_header w h) = 20%nat) by reflexivity.
  split; [reflexivity|]. split; [|split; [|split; [|split]]].
  - unfold zlength, placeholder_bytes.
    rewrite length_app, length_map, length_seq, Hhead. lia.
  - unfold zlength, placeholder_bytes.
    rewrite length_app, length_map, length_seq, Hhead. lia.
  - change (sub_bytes 4 4 (placeholder_header w h ++ ?t))
      with (le_bytes32 (wrap32 (w * h + 100))).
    apply le_value_bytes32. unfold UINT32_MAX in *. lia.
  - change (sub_bytes 16 4 (placeholder_header w h ++ ?t))
      with (firstn 4 (le_bytes32 (wrap32 (w * h) / 10) ++ t)).
    change (firstn 4 (le_bytes32 ?v ++ ?t)) with (le_bytes32 v).
    apply le_value_bytes32. lia.
  - intros k Hk.
    rewrite lookup_app_r by (rewrite Hhead; lia).
    rewrite Hhead. unfold placeholder_bytes.
    rewrite list_lookup_fmap, lookup_seq_lt by lia.
    cbn [fmap option_fmap option_map]. do 2 f_equal. lia.
Qed.

Lemma EncodeInternal_output_witness :
  let out := fst (EncodeInternal {| last_error_ := "stale" |} (Some [1; 2; 3])
                    40 50 160 true default_params) in
  zlength out = 220 /\ le_value (sub_bytes 16 4 out) = 200 /\
  out !! 21%nat = Some 1.
Proof.
  cbv zeta.
  destruct (EncodeInternal_output {| last_error_ := "stale" |} [1; 2; 3]
              40 50 160 true default_params) as (_ & Hlen & _ & _ & Hsize & Hbyte);
    [lia..|].
  split; [exact Hlen|]. split; [exact Hsize|].
  apply (Hbyte 1). vm_compute. split; [discriminate|reflexivity].
Defined.

End WebPEncoder.

(** ** memory_pool.cc *)

Module MemoryPool.

Definition MAX_POOL_SIZE : Z := 10.
Definition BUFFER_TIMEOUT_MS : Z := 60000.

(** [struct BufferInfo]: [buffer] names the allocation the [unique_ptr] owns. *)
Record BufferInfo := {
  buffer : nat;
  size : Z;
  last_used_time : Z
}.

Record PoolStats := {
  available_buffers : Z;
  total_buffers_created : Z;
  total_memory_allocated : Z;
  peak_memory_usage : Z;
  memory_reuse_count : Z
}.

(** The pool object: the vector [available_buffers_] and [stats_]. *)
Record ScreenshotMemoryPool := {
  available_buffers_ : list BufferInfo;
  stats_ : PoolStats
}.

(** What [GetBuffer] hands out: a buffer taken from the pool, or a fresh
    allocation of the requested size. *)
Inductive Allocation :=
| Pooled (b : nat)
| Fresh (bytes : Z).

(** The constructor. *)
Definition new_pool : ScreenshotMemoryPool := {|
  available_buffers_ := [];
  stats_ := {| available_buffers := 0; total_buffers_created := 0;
               total_memory_allocated := 0; peak_memory_usage := 0;
               memory_reuse_count := 0 |}
|}.

Definition set_available (n : Z) (s : PoolStats) : PoolStats :=
  {| available_buffers := n;
     total_buffers_created := total_buffers_created s;
     total_memory_allocated := total_memory_allocated s;
     peak_memory_usage := peak_memory_usage s;
     memory_reuse_count := memory_reuse_count s |}.

(** The predicate of [std::remove_if] in [CleanupExpiredBuffers]. *)
Definition expired (current_time : Z) (buf_info : BufferInfo) : bool :=
  BUFFER_TIMEOUT_MS <? wrap64 (current_time - last_used_time buf_info).

(** [CleanupExpiredBuffers], with [current_time] the steady clock's reading. *)
Definition CleanupExpiredBuffers (current_time : Z) (p : ScreenshotMemoryPool)
    : ScreenshotMemoryPool :=
  let bufs :=
    List.filter (fun b => negb (expired current_time b)) (available_buffers_ p) in
  {| available_buffers_ := bufs;
     stats_ := set_available (zlength bufs) (stats_ p) |}.

(** The loop of [FindBestFitBuffer] from index [i] on; the perfect fit breaks
    out of it. *)
Fixpoint find_loop (bufs : list BufferInfo) (i required_size : Z)
    (best_fit_index best_fit_size : Z) : Z :=
  match bufs with
  | [] => best_fit_index
  | buf_info :: rest =>
      if required_size <=? size buf_info then
        if size buf_info <? best_fit_size then
          if size buf_info =? required_size
          then i
          else find_loop rest (i + 1) required_size i (size buf_info)
        else find_loop rest (i + 1) required_size best_fit_index best_fit_size
      else find_loop rest (i + 1) required_size best_fit_index best_fit_size
  end.

(** [FindBestFitBuffer]: an index into the vector, or [SIZE_MAX]. *)
Definition FindBestFitBuffer (bufs : list BufferInfo) (required_size : Z) : Z :=
  find_loop bufs 0 required_size SIZE_MAX SIZE_MAX.

(** [current_memory += buf_info.size] over the pooled buffers. *)
Definition add_pooled_sizes (current_memory : Z) (bufs : list BufferInfo) : Z :=
  fold_left (fun acc b => wrap64 (acc + size b)) bufs current_memory.

(** [GetBuffer(size)]. [heap_ok] tells whether [std::make_unique] finds the
    memory; when it does not, [std::bad_alloc] leaves the pool as the purge
    left it and no buffer is returned. *)
Definition GetBuffer (sz current_time : Z) (heap_ok : bool)
    (p : ScreenshotMemoryPool) : option Allocation * ScreenshotMemoryPool :=
  let p := CleanupExpiredBuffers current_time p in
  let best_fit_index := FindBestFitBuffer (available_buffers_ p) sz in
  if negb (best_fit_index =? SIZE_MAX) then
    match available_buffers_ p !! Z.to_nat best_fit_index with
    | Some buf_info =>
        let bufs := delete (Z.to_nat best_fit_index) (available_buffers_ p) in
        let s := set_available (zlength bufs) (stats_ p) in
        (Some (Pooled (buffer buf_info)),
         {| available_buffers_ := bufs;
            stats_ :=
              {| available_buffers := available_buffers s;
                 total_buffers_created := total_buffers_created s;
                 total_memory_allocated := total_memory_allocated s;
                 peak_memory_usage := peak_memory_usage s;
                 memory_reuse_count := wrap64 (memory_reuse_count s + 1) |} |})
    | None => (None, p)
    end
  else if heap_ok then
    let s := stats_ p in
    let created := wrap64 (total_buffers_created s + 1) in
    let allocated := wrap64 (total_memory_allocated s + sz) in
    let current_memory := add_pooled_sizes allocated (available_buffers_ p) in
    (Some (Fresh sz),
     {| available_buffers_ := available_buffers_ p;
        stats_ :=
          {| available_buffers := available_buffers s;
             total_buffers_created := created;
             total_memory_allocated := allocated;
             peak_memory_usage :=
               if peak_memory_usage s <? current_memory
               then current_memory else peak_memory_usage s;
             memory_reuse_count := memory_reuse_count s |} |})
  else (None, p).

(** [std::min_element] with the comparator on [last_used_time]: the loop
    keeps the first smallest element. *)
Fixpoint min_element_loop (rest : list BufferInfo) (i smallest_i : nat)
    (smallest : BufferInfo) : nat :=
  match rest with
  | [] => smallest_i
  | b :: rest' =>
      if last_used_time b <? last_used_time smallest
      then min_element_loop rest' (S i) i b
      else min_element_loop rest' (S i) smallest_i smallest
  end.

(** [None] is [end()], the answer for an empty range. *)
Definition min_element (bufs : list BufferInfo) : option nat :=
  match bufs with
  | [] => None
  | b :: rest => Some (min_element_loop rest 1 0 b)
  end.

(** [ReturnBuffer(buffer, size)]; [None] is a null [unique_ptr]. *)
Definition ReturnBuffer (buf : option nat) (sz current_time : Z)
    (p : ScreenshotMemoryPool) : ScreenshotMemoryPool :=
  match buf with
  | None => p
  | Some b =>
      let bufs := available_buffers_ p in
      let bufs :=
        if MAX_POOL_SIZE <=? zlength bufs then
          match min_element bufs with
          | Some oldest_it => delete oldest_it bufs
          | None => bufs
          end
        else bufs in
      let buf_info := {| buffer := b; size := sz;
                         last_used_time := current_time |} in
      let bufs := bufs ++ [buf_info] in
      {| available_buffers_ := bufs;
         stats_ := set_available (zlength bufs) (stats_ p) |}
  end.

Definition Clear (p : ScreenshotMemoryPool) : ScreenshotMemoryPool :=
  {| available_buffers_ := []; stats_ := set_available 0 (stats_ p) |}.

Definition GetStats (p : ScreenshotMemoryPool) : PoolStats := stats_ p.

(** The calls a client can make, each with the clock reading it observes. *)
Inductive PoolOp :=
| OpGetBuffer (sz current_time : Z) (heap_ok : bool)
| OpReturnBuffer (buf : option nat) (sz current_time : Z)
| OpClear.

Definition run_op (p : ScreenshotMemoryPool) (op : PoolOp) : ScreenshotMemoryPool :=
  match op with
  | OpGetBuffer sz t ok => snd (GetBuffer sz t ok p)
  | OpReturnBuffer b sz t => ReturnBuffer b sz t p
  | OpClear => Clear p
  end.

Definition run_ops (ops : list PoolOp) (p : ScreenshotMemoryPool)
    : ScreenshotMemoryPool :=
  fold_left run_op ops p.

(** *** The search for the best fit *)

(** [b], at index [k] of [bufs], is the first smallest buffer that holds
    [x] bytes. *)
Definition best_fit (bufs : list BufferInfo) (x : Z) (k : nat) (b : BufferInfo)
    : Prop :=
  bufs !! k = Some b /\ x <= size b /\ size b < SIZE_MAX /\
  (forall j b', bufs !! j = Some b' -> x <= size b' -> size b <= size b') /\
  (forall j b', (j < k)%nat -> bufs !! j = Some b' -> x <= size b' ->
                size b < size b').

(** The loop's state after the prefix [pre]: nothing usable yet, or the best
    fit of the prefix, which is no perfect fit. *)
Definition search_state (pre : list BufferInfo) (x bi bs : Z) : Prop :=
  (bi = SIZE_MAX /\ bs = SIZE_MAX /\
   forall b, In b pre -> x <= size b -> SIZE_MAX <= size b)
  \/ (exists k b, bi = Z.of_nat k /\ bs = size b /\ best_fit pre x k b /\
                  size b <> x).

Definition search_result (bufs : list BufferInfo) (x r : Z) : Prop :=
  (r = SIZE_MAX /\ forall b, In b bufs -> x <= size b -> SIZE_MAX <= size b)
  \/ (exists k b, r = Z.of_nat k /\ best_fit bufs x k b).

Lemma lookup_snoc_inv {A} (l : list A) (a b : A) j :
  (l ++ [a]) !! j = Some b ->
  (l !! j = Some b /\ (j < length l)%nat) \/ (j = length l /\ b = a).
Proof.
  intros H. destruct (decide (j < length l)%nat) as [Hlt|Hge].
  - left. rewrite lookup_app_l in H by assumption. auto.
  - right. rewrite lookup_app_r in H by lia.
    destruct (j - length l)%nat as [|m] eqn:E; simpl in H.
    + split; [lia|congruence].
    + destruct m; discriminate.
Qed.

Lemma find_loop_spec rest : forall pre x bi bs,
  search_state pre x bi bs ->
  search_result (pre ++ rest) x (find_loop rest (zlength pre) x bi bs).
Proof.
  induction rest as [|b rest IH]; intros pre x bi bs Hst.
  - rewrite app_nil_r. simpl. destruct Hst as [(-> & _ & Hno)|(k & b0 & -> & _ & Hb & _)].
    + left. auto.
    + right. eauto.
  - assert (Hnext : zlength pre + 1 = zlength (pre ++ [b])).
    { unfold zlength. rewrite length_app. simpl. lia. }
    assert (Happ : pre ++ b :: rest = (pre ++ [b]) ++ rest).
    { rewrite <- app_assoc. reflexivity. }
    cbn [find_loop].
    destruct (x <=? size b) eqn:Hfit; [apply Z.leb_le in Hfit|apply Z.leb_gt in Hfit].
    + destruct (size b <? bs) eqn:Hlt; [apply Z.ltb_lt in Hlt|apply Z.ltb_ge in Hlt].
      * (* a better fit *)
        assert (Hbs : bs <= SIZE_MAX).
        { destruct Hst as [(_ & -> & _)|(k & b0 & _ & -> & (_ & _ & ? & _) & _)]; lia. }
        assert (Hpre : forall j b', pre !! j = Some b' -> x <= size b' ->
                                    size b < size b').
        { intros j b' Hj Hx.
          destruct Hst as [(_ & -> & Hno)|(k & b0 & _ & -> & (_ & _ & _ & Hmin & _) & _)].
          - specialize (Hno b' (proj1 (list_elem_of_In _ _) (list_elem_of_lookup_2 _ _ _ Hj)) Hx). lia.
          - specialize (Hmin j b' Hj Hx). lia. }
        assert (Hk : (pre ++ [b]) !! length pre = Some b).
        { rewrite lookup_app_r by lia. replace (length pre - length pre)%nat with 0%nat by lia. reflexivity. }
        destruct (size b =? x) eqn:Heq; [apply Z.eqb_eq in Heq|apply Z.eqb_neq in Heq].
        -- right. exists (length pre), b. split; [reflexivity|].
           repeat split.
           ++ rewrite Happ. rewrite lookup_app_l; [exact Hk|].
              rewrite length_app. simpl. lia.
           ++ lia.
           ++ lia.
           ++ intros j b' _ Hx. lia.
           ++ intros j b' Hj Hlook Hx.
              rewrite lookup_app_l in Hlook by lia.
              specialize (Hpre j b' Hlook Hx). lia.
        -- rewrite Hnext, Happ. apply IH.
           right. exists (length pre), b. repeat split; try lia; try assumption.
           ++ intros j b' Hlook Hx.
              destruct (lookup_snoc_inv _ _ _ _ Hlook) as [[Hl _]|[_ ->]].
              ** specialize (Hpre j b' Hl Hx). lia.
              ** lia.
           ++ intros j b' Hj Hlook Hx. rewrite lookup_app_l in Hlook by lia.
              exact (Hpre j b' Hlook Hx).
      * (* fits, no better than the best so far *)
        rewrite Hnext, Happ. apply IH.
        destruct Hst as [(-> & -> & Hno)|(k & b0 & -> & -> & (Hk & Hx0 & Hmax & Hmin & Hfirst) & Hne)].
        -- left. repeat split; try reflexivity.
           intros b' Hin Hx. apply in_app_or in Hin. destruct Hin as [Hin|[<-|[]]]; auto.
        -- right. exists k, b0. repeat split; try assumption.
           ++ apply lookup_app_l_Some. exact Hk.
           ++ intros j b' Hlook Hx.
              destruct (lookup_snoc_inv _ _ _ _ Hlook) as [[Hl _]|[_ ->]]; eauto.
           ++ intros j b' Hj Hlook Hx.
              apply lookup_lt_Some in Hk.
              rewrite lookup_app_l in Hlook by lia. eauto.
    + (* too small *)
      rewrite Hnext, Happ. apply IH.
      destruct Hst as [(-> & -> & Hno)|(k & b0 & -> & -> & (Hk & Hx0 & Hmax & Hmin & Hfirst) & Hne)].
      * left. repeat split; try reflexivity.
        intros b' Hin Hx. apply in_app_or in Hin. destruct Hin as [Hin|[<-|[]]]; auto. lia.
      * right. exists k, b0. repeat split; try assumption.
        -- apply lookup_app_l_Some. exact Hk.
        -- intros j b' Hlook Hx.
           destruct (lookup_snoc_inv _ _ _ _ Hlook) as [[Hl _]|[_ ->]]; eauto. lia.
        -- intros j b' Hj Hlook Hx.
           apply lookup_lt_Some in Hk.
           rewrite lookup_app_l in Hlook by lia. eauto.
Qed.

Lemma FindBestFitBuffer_spec bufs x :
  search_result bufs x (FindBestFitBuffer bufs x).
Proof.
  unfold FindBestFitBuffer.
  apply (find_loop_spec bufs [] x SIZE_MAX SIZE_MAX).
  left. repeat split. intros b [].
Qed.

(** A buffer of capacity [SIZE_MAX] equals the initial [best_fit_size] and
    is never selected; a best fit, once found, is a valid index. *)
Lemma FindBestFitBuffer_found bufs x :
  zlength bufs <= SIZE_MAX ->
  (exists b, In b bufs /\ x <= size b < SIZE_MAX) ->
  exists k b, FindBestFitBuffer bufs x = Z.of_nat k /\
              FindBestFitBuffer bufs x <> SIZE_MAX /\ best_fit bufs x k b.
Proof.
  intros Hlen (b0 & Hin & Hx).
  destruct (FindBestFitBuffer_spec bufs x) as [(_ & Hno)|(k & b & Hr & Hb)].
  - specialize (Hno b0 Hin). lia.
  - exists k, b. repeat split; try assumption; try apply Hb.
    rewrite Hr. destruct Hb as (Hk & _). apply lookup_lt_Some in Hk.
    unfold zlength in Hlen. lia.
Qed.

(** Two best fits of one vector are the same entry. *)
Lemma best_fit_unique bufs x k1 b1 k2 b2 :
  best_fit bufs x k1 b1 -> best_fit bufs x k2 b2 -> k1 = k2.
Proof.
  intros (H1 & Hx1 & _ & Hmin1 & Hfirst1) (H2 & Hx2 & _ & Hmin2 & Hfirst2).
  destruct (Nat.lt_trichotomy k1 k2) as [Hlt|[Heq|Hgt]]; [|assumption|].
  - specialize (Hfirst2 k1 b1 Hlt H1 Hx1). specialize (Hmin1 k2 b2 H2 Hx2). lia.
  - specialize (Hfirst1 k2 b2 Hgt H2 Hx2). specialize (Hmin2 k1 b1 H1 Hx1). lia.
Qed.

(** The perfect fit ends the search: whatever follows it in the vector, the
    answer is the same index. *)
Lemma FindBestFitBuffer_perfect_fit bufs x i b later :
  best_fit bufs x i b -> size b = x ->
  zlength (take (S i) bufs ++ later) <= SIZE_MAX ->
  FindBestFitBuffer (take (S i) bufs ++ later) x = Z.of_nat i.
Proof.
  intros (Hi & Hx & Hmax & Hmin & Hfirst) Hexact Hlen.
  assert (Hi' : (take (S i) bufs ++ later) !! i = Some b).
  { apply lookup_app_l_Some. rewrite lookup_take_lt by lia. exact Hi. }
  destruct (FindBestFitBuffer_found (take (S i) bufs ++ later) x Hlen)
    as (k & b' & -> & _ & Hb').
  { exists b. split; [|lia].
    apply list_elem_of_In. eapply list_elem_of_lookup_2. exact Hi'. }
  f_equal. apply (best_fit_unique _ x k b' i b Hb').
  repeat split; try assumption.
  - intros j c _ Hc. lia.
  - intros j c Hj Hlook Hc.
    rewrite lookup_app_l in Hlook
      by (rewrite length_take; apply lookup_lt_Some in Hi; lia).
    rewrite lookup_take_lt in Hlook by lia. eauto.
Qed.

(** *** Purging and eviction *)

Lemma In_cleanup now p b :
  In b (available_buffers_ (CleanupExpiredBuffers now p)) <->
  In b (available_buffers_ p) /\ wrap64 (now - last_used_time b) <= BUFFER_TIMEOUT_MS.
Proof.
  unfold CleanupExpiredBuffers. cbn [available_buffers_].
  rewrite filter_In. unfold expired.
  rewrite negb_true_iff, Z.ltb_ge. reflexivity.
Qed.

Lemma length_cleanup now p :
  (length (available_buffers_ (CleanupExpiredBuffers now p))
   <= length (available_buffers_ p))%nat.
Proof. unfold CleanupExpiredBuffers. cbn [available_buffers_]. apply List.filter_length_le. Qed.

Lemma In_delete {A} (l : list A) : forall i a, In a (delete i l) -> In a l.
Proof.
  induction l as [|c l IH]; intros i a H; [destruct i; exact H|].
  destruct i as [|i]; simpl in H.
  - right. exact H.
  - destruct H as [->|H]; [left; reflexivity|right; eauto].
Qed.

(** The buffers [GetBuffer] leaves in the pool survived the purge. *)
Lemma GetBuffer_keeps_purged sz now ok p b :
  In b (available_buffers_ (snd (GetBuffer sz now ok p))) ->
  In b (available_buffers_ (CleanupExpiredBuffers now p)).
Proof.
  unfold GetBuffer.
  destruct (negb (FindBestFitBuffer _ sz =? SIZE_MAX)).
  - destruct (available_buffers_ (CleanupExpiredBuffers now p) !! _);
      cbn [snd available_buffers_]; [apply In_delete|auto].
  - destruct ok; cbn [snd available_buffers_]; auto.
Qed.

Lemma length_GetBuffer sz now ok p :
  (length (available_buffers_ (snd (GetBuffer sz now ok p)))
   <= length (available_buffers_ p))%nat.
Proof.
  pose proof (length_cleanup now p) as Hc.
  unfold GetBuffer.
  destruct (negb (FindBestFitBuffer _ sz =? SIZE_MAX)).
  - destruct (available_buffers_ (CleanupExpiredBuffers now p) !! _) eqn:E;
      cbn [snd available_buffers_]; [|assumption].
    rewrite length_delete by eauto. lia.
  - destruct ok; cbn [snd available_buffers_]; assumption.
Qed.

(** [victim], at index [k], is the first buffer with the smallest
    [last_used_time]: the least recently used one. *)
Definition oldest (bufs : list BufferInfo) (k : nat) (victim : BufferInfo) : Prop :=
  bufs !! k = Some victim /\
  (forall j b, bufs !! j = Some b -> last_used_time victim <= last_used_time b) /\
  (forall j b, (j < k)%nat -> bufs !! j = Some b ->
               last_used_time victim < last_used_time b).

Lemma min_element_loop_spec rest : forall pre si smallest,
  oldest pre si smallest ->
  exists victim,
    oldest (pre ++ rest) (min_element_loop rest (length pre) si smallest) victim.
Proof.
  induction rest as [|b rest IH]; intros pre si smallest Hold.
  - rewrite app_nil_r. simpl. eauto.
  - assert (Happ : pre ++ b :: rest = (pre ++ [b]) ++ rest)
      by (rewrite <- app_assoc; reflexivity).
    assert (Hlen : S (length pre) = length (pre ++ [b]))
      by (rewrite length_app; simpl; lia).
    destruct Hold as (Hk & Hmin & Hfirst).
    cbn [min_element_loop]. rewrite Happ, Hlen.
    destruct (last_used_time b <? last_used_time smallest) eqn:Hlt;
      [apply Z.ltb_lt in Hlt|apply Z.ltb_ge in Hlt]; apply IH.
    + repeat split.
      * rewrite lookup_app_r by lia.
        replace (length pre - length pre)%nat with 0%nat by lia. reflexivity.
      * intros j c Hc.
        destruct (lookup_snoc_inv _ _ _ _ Hc) as [[Hl _]|[_ ->]]; [|lia].
        specialize (Hmin j c Hl). lia.
      * intros j c Hj Hc. rewrite lookup_app_l in Hc by lia.
        specialize (Hmin j c Hc). lia.
    + repeat split.
      * apply lookup_app_l_Some. exact Hk.
      * intros j c Hc.
        destruct (lookup_snoc_inv _ _ _ _ Hc) as [[Hl _]|[_ ->]]; [eauto|lia].
      * intros j c Hj Hc. apply lookup_lt_Some in Hk.
        rewrite lookup_app_l in Hc by lia. eauto.
Qed.

Lemma min_element_spec bufs :
  bufs <> [] -> exists k victim, min_element bufs = Some k /\ oldest bufs k victim.
Proof.
  destruct bufs as [|b rest]; [congruence|]. intros _.
  destruct (min_element_loop_spec rest [b] 0%nat b) as (victim & Hv).
  - repeat split.
    + intros [|j] c Hc; simpl in Hc; [inversion Hc; lia|destruct j; discriminate].
    + intros j c Hj. lia.
  - exists (min_element_loop rest 1 0 b), victim. split; [reflexivity|exact Hv].
Qed.

Lemma length_ReturnBuffer buf sz now p :
  zlength (available_buffers_ p) <= MAX_POOL_SIZE ->
  zlength (available_buffers_ (ReturnBuffer buf sz now p)) <= MAX_POOL_SIZE.
Proof.
  unfold ReturnBuffer, MAX_POOL_SIZE, zlength. intros Hle.
  destruct buf as [b|]; [|assumption]. cbn [available_buffers_].
  rewrite length_app. simpl.
  destruct (10 <=? Z.of_nat (length (available_buffers_ p))) eqn:Hfull;
    [apply Z.leb_le in Hfull|apply Z.leb_gt in Hfull; lia].
  destruct (min_element_spec (available_buffers_ p)) as (k & victim & -> & Hk & _).
  { intros E. rewrite E in Hfull. simpl in Hfull. lia. }
  rewrite length_delete by eauto. lia.
Qed.

Lemma run_ops_bounded ops : forall p,
  zlength (available_buffers_ p) <= MAX_POOL_SIZE ->
  zlength (available_buffers_ (run_ops ops p)) <= MAX_POOL_SIZE.
Proof.
  unfold run_ops.
  induction ops as [|op ops IH]; intros p Hp; [exact Hp|].
  simpl. apply IH. destruct op as [sz t ok|b sz t|]; simpl.
  - pose proof (length_GetBuffer sz t ok p). unfold zlength in *. lia.
  - apply length_ReturnBuffer. exact Hp.
  - unfold MAX_POOL_SIZE, zlength. simpl. lia.
Qed.

(** *** The pool's contract *)

(** Scenario of the specification: [Acquire(1000)], [Release] of the
    1000-byte buffer, [Acquire(1000)] again: the second call is served from
    the pool. *)
Example acquire_release_acquire :
  let p1 := snd (GetBuffer 1000 5 true new_pool) in
  let p2 := ReturnBuffer (Some 0%nat) 1000 6 p1 in
  let r := GetBuffer 1000 7 true p2 in
  fst r = Some (Pooled 0) /\
  total_buffers_created (stats_ (snd r)) = 1 /\
  memory_reuse_count (stats_ (snd r)) = 1 /\
  available_buffers_ (snd r) = [].
Proof. vm_compute. repeat split; reflexivity. Qed.

(** The capacities the pool records are sizes of allocations, so none of
    them is [SIZE_MAX]. *)
Definition sizes_allocatable (bufs : list BufferInfo) : Prop :=
  Forall (fun b => size b < SIZE_MAX) bufs.

(** A call whose size argument is the size of an allocation. *)
Definition allocatable_op (op : PoolOp) : Prop :=
  match op with
  | OpReturnBuffer _ sz _ => sz < SIZE_MAX
  | _ => True
  end.

Lemma sizes_allocatable_delete bufs i :
  sizes_allocatable bufs -> sizes_allocatable (delete i bufs).
Proof.
  unfold sizes_allocatable. rewrite !List.Forall_forall.
  intros H b Hin. apply H. eapply In_delete. exact Hin.
Qed.

(** From the constructor on, calls with allocatable sizes keep the recorded
    capacities below [SIZE_MAX]. *)
Lemma run_ops_sizes_allocatable ops : forall p,
  List.Forall allocatable_op ops ->
  sizes_allocatable (available_buffers_ p) ->
  sizes_allocatable (available_buffers_ (run_ops ops p)).
Proof.
  unfold run_ops.
  induction ops as [|op ops IH]; intros p Hops Hp; [exact Hp|].
  inversion Hops as [|? ? Hop Hrest]; subst.
  cbn [fold_left]. apply IH; [exact Hrest|].
  destruct op as [sz t ok|b sz t|]; cbn [run_op].
  - unfold sizes_allocatable in *. rewrite List.Forall_forall in *.
    intros b Hin. apply Hp.
    apply GetBuffer_keeps_purged, In_cleanup in Hin. apply Hin.
  - unfold ReturnBuffer. destruct b as [b|]; [|exact Hp].
    cbn [available_buffers_]. apply Forall_app. split.
    + destruct (MAX_POOL_SIZE <=? zlength (available_buffers_ p)); [|exact Hp].
      destruct (min_element (available_buffers_ p)); [|exact Hp].
      apply sizes_allocatable_delete. exact Hp.
    + constructor; [exact Hop|constructor].
  - constructor.
Qed.

(** Why the capacities must be below [SIZE_MAX]: the search starts from
    [best_fit_size = SIZE_MAX] and accepts only a strictly smaller
    capacity, so an entry recorded with capacity [SIZE_MAX], which no
    allocation has, would never be selected. *)
Example GetBuffer_size_max_buffer_not_reused :
  let p := {| available_buffers_ :=
                [{| buffer := 0; size := SIZE_MAX; last_used_time := 0 |}];
              stats_ := stats_ new_pool |} in
  (exists b, In b (available_buffers_ (CleanupExpiredBuffers 0 p)) /\ 1 <= size b) /\
  fst (GetBuffer 1 0 true p) = Some (Fresh 1) /\
  total_buffers_created (stats_ (snd (GetBuffer 1 0 true p))) = 1 /\
  memory_reuse_count (stats_ (snd (GetBuffer 1 0 true p))) = 0.
Proof.
  cbv zeta. split.
  - eexists. split; [left; reflexivity|]. vm_compute. discriminate.
  - vm_compute. repeat split; reflexivity.
Qed.

(** C7: in a pool whose recorded capacities are sizes of allocations
    (below [SIZE_MAX]), when after the purge an idle buffer holds [x]
    bytes, [GetBuffer x] returns a pooled buffer and allocates nothing: the
    buffer returned is the first one of the smallest capacity that holds
    [x] ([best_fit]); it leaves the pool, [memory_reuse_count] is
    incremented, [total_buffers_created] is unchanged, and when the fit is
    exact the entries after it have no influence on the search. *)
Theorem GetBuffer_reuses_best_fit (p : ScreenshotMemoryPool) (x now : Z)
    (heap_ok : bool) :
  zlength (available_buffers_ p) <= SIZE_MAX ->
  sizes_allocatable (available_buffers_ p) ->
  (exists b, In b (available_buffers_ (CleanupExpiredBuffers now p)) /\
             x <= size b) ->
  exists i b,
    best_fit (available_buffers_ (CleanupExpiredBuffers now p)) x i b /\
    fst (GetBuffer x now heap_ok p) = Some (Pooled (buffer b)) /\
    available_buffers_ (snd (GetBuffer x now heap_ok p))
      = delete i (available_buffers_ (CleanupExpiredBuffers now p)) /\
    memory_reuse_count (stats_ (snd (GetBuffer x now heap_ok p)))
      = wrap64 (memory_reuse_count (stats_ p) + 1) /\
    total_buffers_created (stats_ (snd (GetBuffer x now heap_ok p)))
      = total_buffers_created (stats_ p) /\
    (size b = x -> forall later,
       zlength (take (S i) (available_buffers_ (CleanupExpiredBuffers now p))
                ++ later) <= SIZE_MAX ->
       FindBestFitBuffer
         (take (S i) (available_buffers_ (CleanupExpiredBuffers now p)) ++ later) x
       = Z.of_nat i).
Proof.
  intros Hlen Hsizes (b0 & Hin0 & Hx0).
  assert (Hfit : exists b,
             In b (available_buffers_ (CleanupExpiredBuffers now p)) /\
             x <= size b < SIZE_MAX).
  { exists b0. split; [exact Hin0|]. split; [exact Hx0|].
    unfold sizes_allocatable in Hsizes. rewrite List.Forall_forall in Hsizes.
    apply Hsizes. apply In_cleanup in Hin0. apply Hin0. }
  assert (Hlen' : zlength (available_buffers_ (CleanupExpiredBuffers now p))
                  <= SIZE_MAX).
  { pose proof (length_cleanup now p). unfold zlength in *. lia. }
  destruct (FindBestFitBuffer_found _ x Hlen' Hfit) as (i & b & Hidx & Hne & Hb).
  exists i, b. split; [exact Hb|].
  unfold GetBuffer.
  apply Z.eqb_neq in Hne. rewrite Hne. cbn [negb].
  rewrite Hidx, Nat2Z.id.
  destruct Hb as (Hi & Hb). rewrite Hi. cbn [fst snd available_buffers_ stats_].
  repeat split.
  intros Hexact later Hl.
  apply (FindBestFitBuffer_perfect_fit _ x i b later); [|assumption..].
  split; assumption.
Qed.

(** A pool of four idle buffers, two of them exact fits. *)
Lemma GetBuffer_reuses_best_fit_witness :
  let p := {| available_buffers_ :=
                [{| buffer := 0; size := 4096; last_used_time := 10 |};
                 {| buffer := 1; size := 1000; last_used_time := 20 |};
                 {| buffer := 2; size := 2048; last_used_time := 30 |};
                 {| buffer := 3; size := 1000; last_used_time := 40 |}];
              stats_ := stats_ new_pool |} in
  exists i b,
    best_fit (available_buffers_ (CleanupExpiredBuffers 100 p)) 1000 i b /\
    fst (GetBuffer 1000 100 true p) = Some (Pooled (buffer b)) /\
    available_buffers_ (snd (GetBuffer 1000 100 true p))
      = delete i (available_buffers_ (CleanupExpiredBuffers 100 p)) /\
    memory_reuse_count (stats_ (snd (GetBuffer 1000 100 true p)))
      = wrap64 (memory_reuse_count (stats_ p) + 1) /\
    total_buffers_created (stats_ (snd (GetBuffer 1000 100 true p)))
      = total_buffers_created (stats_ p) /\
    (size b = 1000 -> forall later,
       zlength (take (S i) (available_buffers_ (CleanupExpiredBuffers 100 p))
                ++ later) <= SIZE_MAX ->
       FindBestFitBuffer
         (take (S i) (available_buffers_ (CleanupExpiredBuffers 100 p)) ++ later)
         1000
       = Z.of_nat i).
Proof.
  cbv zeta.
  apply (GetBuffer_reuses_best_fit _ 1000 100 true).
  - vm_compute. discriminate.
  - repeat constructor.
  - exists {| buffer := 1; size := 1000; last_used_time := 20 |}.
    split; [vm_compute; auto|]. vm_compute. discriminate.
Defined.

(** C8: from the empty pool, any sequence of calls leaves at most
    [MAX_POOL_SIZE] = 10 idle buffers; [ReturnBuffer] on a full pool erases
    the least recently used buffer and then appends the returned one; and
    the buffers a [GetBuffer] call leaves idle were idle before it and have
    been unused for at most [BUFFER_TIMEOUT_MS] = 60000 ms at the call's
    clock reading. *)
Theorem pool_bounded_lru_purged :
  (forall ops,
     zlength (available_buffers_ (run_ops ops new_pool)) <= 10) /\
  (forall p b sz now,
     MAX_POOL_SIZE <= zlength (available_buffers_ p) ->
     exists k victim,
       oldest (available_buffers_ p) k victim /\
       available_buffers_ (ReturnBuffer (Some b) sz now p)
       = delete k (available_buffers_ p)
         ++ [{| buffer := b; size := sz; last_used_time := now |}]) /\
  (forall p sz now heap_ok b,
     In b (available_buffers_ (snd (GetBuffer sz now heap_ok p))) ->
     In b (available_buffers_ p) /\
     wrap64 (now - last_used_time b) <= 60000 /\
     (0 <= last_used_time b <= now -> now <= SIZE_MAX ->
      now - last_used_time b <= 60000)).
Proof.
  split; [|split].
  - intros ops. apply run_ops_bounded. unfold MAX_POOL_SIZE, zlength. simpl. lia.
  - intros p b sz now Hfull.
    destruct (min_element_spec (available_buffers_ p)) as (k & victim & Hmin & Hold).
    { intros E. rewrite E in Hfull. unfold MAX_POOL_SIZE, zlength in Hfull.
      simpl in Hfull. lia. }
    exists k, victim. split; [exact Hold|].
    unfold ReturnBuffer. cbn [available_buffers_].
    apply Z.leb_le in Hfull. rewrite Hfull, Hmin. reflexivity.
  - intros p sz now ok b Hin.
    apply GetBuffer_keeps_purged, In_cleanup in Hin.
    destruct Hin as (Hin & Hfresh). split; [exact Hin|]. split; [exact Hfresh|].
    intros Hclock Hmax. rewrite wrap64_small in Hfresh by lia. exact Hfresh.
Qed.

(** Eleven returns in a row: the pool stays at ten buffers and the first
    one returned, the least recently used, is the one that left. *)
Example eleven_returns_keep_ten :
  let ops := map (fun n => OpReturnBuffer (Some n) 64 (Z.of_nat n)) (seq 0 11) in
  map buffer (available_buffers_ (run_ops ops new_pool))
  = [1; 2; 3; 4; 5; 6; 7; 8; 9; 10]%nat.
Proof. vm_compute. reflexivity. Qed.

(** A purge at the head of [GetBuffer]: the buffer last used at 0 is dropped
    at 60001, the one last used at 1 is kept. *)
Example GetBuffer_purges_expired :
  let p := ReturnBuffer (Some 1%nat) 8 1 (ReturnBuffer (Some 0%nat) 8 0 new_pool) in
  map buffer (available_buffers_ (snd (GetBuffer 64 60001 true p))) = [1%nat].
Proof. vm_compute. reflexivity. Qed.
(** *** Statistics, hand-out and return *)

(** What the [GetBuffer] calls of [ops], run from [p], hand out, in order. *)
Fixpoint hand_outs (ops : list PoolOp) (p : ScreenshotMemoryPool)
    : list Allocation :=
  match ops with
  | [] => []
  | op :: rest =>
      match op with
      | OpGetBuffer sz t ok =>
          match fst (GetBuffer sz t ok p) with Some a => [a] | None => [] end
      | _ => []
      end ++ hand_outs rest (run_op p op)
  end.

(** The size of a fresh allocation. *)
Definition fresh_bytes (a : Allocation) : option Z :=
  match a with Fresh bytes => Some bytes | Pooled _ => None end.

Definition pooled_buffer (a : Allocation) : option nat :=
  match a with Pooled b => Some b | Fresh _ => None end.

Definition sum_bytes (l : list Z) : Z := foldr Z.add 0 l.

(** [GetBuffer] when the search finds index [i]. *)
Lemma GetBuffer_pooled x now ok p i info :
  FindBestFitBuffer (available_buffers_ (CleanupExpiredBuffers now p)) x
  = Z.of_nat i ->
  Z.of_nat i <> SIZE_MAX ->
  available_buffers_ (CleanupExpiredBuffers now p) !! i = Some info ->
  fst (GetBuffer x now ok p) = Some (Pooled (buffer info)) /\
  available_buffers_ (snd (GetBuffer x now ok p))
  = delete i (available_buffers_ (CleanupExpiredBuffers now p)) /\
  total_buffers_created (stats_ (snd (GetBuffer x now ok p)))
  = total_buffers_created (stats_ p) /\
  total_memory_allocated (stats_ (snd (GetBuffer x now ok p)))
  = total_memory_allocated (stats_ p) /\
  memory_reuse_count (stats_ (snd (GetBuffer x now ok p)))
  = wrap64 (memory_reuse_count (stats_ p) + 1).
Proof.
  intros Hidx Hne Hi. unfold GetBuffer. rewrite Hidx.
  apply Z.eqb_neq in Hne. rewrite Hne. cbn [negb].
  rewrite Nat2Z.id, Hi. cbn [fst snd available_buffers_ stats_].
  repeat split.
Qed.

(** [GetBuffer] when the search finds nothing. *)
Lemma GetBuffer_fresh x now p :
  FindBestFitBuffer (available_buffers_ (CleanupExpiredBuffers now p)) x = SIZE_MAX ->
  fst (GetBuffer x now true p) = Some (Fresh x) /\
  available_buffers_ (snd (GetBuffer x now true p))
  = available_buffers_ (CleanupExpiredBuffers now p) /\
  total_buffers_created (stats_ (snd (GetBuffer x now true p)))
  = wrap64 (total_buffers_created (stats_ p) + 1) /\
  total_memory_allocated (stats_ (snd (GetBuffer x now true p)))
  = wrap64 (total_memory_allocated (stats_ p) + x) /\
  memory_reuse_count (stats_ (snd (GetBuffer x now true p)))
  = memory_reuse_count (stats_ p) /\
  GetBuffer x now false p = (None, CleanupExpiredBuffers now p).
Proof.
  intros Hidx. unfold GetBuffer. rewrite Hidx, Z.eqb_refl.
  cbn [negb fst snd available_buffers_ stats_]. repeat split.
Qed.

(** The counters as tallies of what was handed out. *)
Definition tallies (s0 s : PoolStats) (outs : list Allocation) : Prop :=
  wrap64 (total_buffers_created s)
  = wrap64 (total_buffers_created s0 + zlength (omap fresh_bytes outs)) /\
  wrap64 (total_memory_allocated s)
  = wrap64 (total_memory_allocated s0 + sum_bytes (omap fresh_bytes outs)) /\
  wrap64 (memory_reuse_count s)
  = wrap64 (memory_reuse_count s0 + zlength (omap pooled_buffer outs)).

Definition counters_in_range (s : PoolStats) : Prop :=
  is_size_t (total_buffers_created s) /\ is_size_t (total_memory_allocated s) /\
  is_size_t (memory_reuse_count s).

Lemma wrap64_idem a b : wrap64 (wrap64 a + b) = wrap64 (a + b).
Proof. unfold wrap64. apply Zplus_mod_idemp_l. Qed.

Lemma tallies_refl s : tallies s s [].
Proof. unfold tallies. cbn. rewrite !Z.add_0_r. auto. Qed.

Lemma tallies_set_available n s :
  (counters_in_range s -> counters_in_range (set_available n s)) /\
  tallies s (set_available n s) [].
Proof. unfold tallies, counters_in_range. cbn. rewrite !Z.add_0_r. auto. Qed.

Lemma tallies_trans s0 s1 s2 outs1 outs2 :
  tallies s0 s1 outs1 -> tallies s1 s2 outs2 -> tallies s0 s2 (outs1 ++ outs2).
Proof.
  unfold tallies. intros (A1 & A2 & A3) (B1 & B2 & B3).
  rewrite !omap_app. unfold zlength, sum_bytes. rewrite !length_app, foldr_app.
  assert (Hsum : forall l k, foldr Z.add (foldr Z.add 0 k) l
                             = foldr Z.add 0 l + foldr Z.add 0 k).
  { induction l as [|c l IH]; intros k; cbn [foldr]; [lia|]. rewrite IH. lia. }
  rewrite Hsum.
  rewrite B1, B2, B3.
  rewrite <- (wrap64_idem (total_buffers_created s1)), A1, wrap64_idem.
  rewrite <- (wrap64_idem (total_memory_allocated s1)), A2, wrap64_idem.
  rewrite <- (wrap64_idem (memory_reuse_count s1)), A3, wrap64_idem.
  repeat split; f_equal; unfold zlength, sum_bytes; lia.
Qed.

Lemma GetBuffer_cases x now ok p :
  let r := GetBuffer x now ok p in
  available_buffers (stats_ (snd r)) = zlength (available_buffers_ (snd r)) /\
  peak_memory_usage (stats_ p) <= peak_memory_usage (stats_ (snd r)) /\
  (counters_in_range (stats_ p) -> counters_in_range (stats_ (snd r))) /\
  tallies (stats_ p) (stats_ (snd r))
    match fst r with Some a => [a] | None => [] end.
Proof.
  cbv zeta. unfold GetBuffer, counters_in_range, tallies.
  destruct (negb (FindBestFitBuffer _ x =? SIZE_MAX)).
  - destruct (available_buffers_ (CleanupExpiredBuffers now p) !! _);
      cbn [fst snd available_buffers_ stats_ available_buffers peak_memory_usage
           total_buffers_created total_memory_allocated memory_reuse_count
           set_available CleanupExpiredBuffers omap fresh_bytes pooled_buffer
           list_omap sum_bytes foldr length zlength Z.of_nat];
      rewrite ?Z.add_0_r.
    + split; [reflexivity|]. split; [lia|]. split.
      * intros (H1 & H2 & _). repeat split; try apply H1; try apply H2;
          apply wrap64_range.
      * unfold wrap64. rewrite Zmod_mod. repeat split.
    + split; [reflexivity|]. split; [lia|]. auto.
  - destruct ok;
      cbn [fst snd available_buffers_ stats_ available_buffers peak_memory_usage
           total_buffers_created total_memory_allocated memory_reuse_count
           set_available CleanupExpiredBuffers omap fresh_bytes pooled_buffer
           list_omap sum_bytes foldr length zlength Z.of_nat];
      rewrite ?Z.add_0_r.
    + split; [reflexivity|]. split.
      * destruct (_ <? _) eqn:E; [apply Z.ltb_lt in E|]; lia.
      * split.
        -- intros (_ & _ & H3). repeat split; try apply H3; apply wrap64_range.
        -- unfold wrap64. rewrite !Zmod_mod. repeat split.
    + split; [reflexivity|]. split; [lia|]. auto.
Qed.

Lemma run_ops_statistics ops : forall p,
  available_buffers (stats_ p) = zlength (available_buffers_ p) ->
  available_buffers (stats_ (run_ops ops p)) = zlength (available_buffers_ (run_ops ops p)) /\
  peak_memory_usage (stats_ p) <= peak_memory_usage (stats_ (run_ops ops p)) /\
  (counters_in_range (stats_ p) -> counters_in_range (stats_ (run_ops ops p))) /\
  tallies (stats_ p) (stats_ (run_ops ops p)) (hand_outs ops p).
Proof.
  unfold run_ops.
  induction ops as [|op ops IH]; intros p Hinv.
  - cbn [fold_left hand_outs]. split; [exact Hinv|]. split; [lia|].
    split; [auto|apply tallies_refl].
  - cbn [fold_left hand_outs].
    assert (Hop : available_buffers (stats_ (run_op p op))
                  = zlength (available_buffers_ (run_op p op)) /\
                  peak_memory_usage (stats_ p) <= peak_memory_usage (stats_ (run_op p op)) /\
                  (counters_in_range (stats_ p) -> counters_in_range (stats_ (run_op p op))) /\
                  tallies (stats_ p) (stats_ (run_op p op))
                    match op with
                    | OpGetBuffer sz t ok =>
                        match fst (GetBuffer sz t ok p) with Some a => [a] | None => [] end
                    | _ => []
                    end).
    { destruct op as [sz t ok|b sz t|]; cbn [run_op].
      - apply GetBuffer_cases.
      - destruct b as [b|]; cbn [ReturnBuffer stats_ available_buffers_].
        + split; [reflexivity|]. split; [cbn; lia|]. apply tallies_set_available.
        + split; [exact Hinv|]. split; [lia|]. split; [auto|apply tallies_refl].
      - cbn [Clear stats_ available_buffers_].
        split; [reflexivity|]. split; [cbn; lia|]. apply tallies_set_available. }
    destruct Hop as (H1 & H2 & H3 & H4).
    destruct (IH (run_op p op) H1) as (G1 & G2 & G3 & G4).
    split; [exact G1|]. split; [lia|]. split; [auto|].
    eapply tallies_trans; eassumption.
Qed.

(** The statistics follow the pool: from the constructor on, after any
    sequence of [GetBuffer], [ReturnBuffer] and [Clear] calls,
    [stats_.available_buffers] is the number of idle buffers, and
    [peak_memory_usage] never decreases afterwards. *)
Theorem statistics_follow_pool (ops more : list PoolOp) :
  let p := run_ops ops new_pool in
  available_buffers (GetStats p) = zlength (available_buffers_ p) /\
  peak_memory_usage (GetStats p) <= peak_memory_usage (GetStats (run_ops more p)).
Proof.
  cbv zeta. unfold GetStats.
  destruct (run_ops_statistics ops new_pool eq_refl) as (H1 & _).
  split; [exact H1|].
  apply (run_ops_statistics more (run_ops ops new_pool) H1).
Qed.

(** The counters are the tallies of what the pool handed out: after any
    sequence of calls on a new pool, [total_buffers_created] is the number
    of fresh allocations [GetBuffer] returned, [total_memory_allocated] the
    sum of their sizes and [memory_reuse_count] the number of buffers it
    returned from the pool, each modulo 2^64; returning a buffer or clearing
    the pool changes none of them. *)
Theorem counters_tally_hand_outs (ops : list PoolOp) :
  let s := GetStats (run_ops ops new_pool) in
  let outs := hand_outs ops new_pool in
  total_buffers_created s = wrap64 (zlength (omap fresh_bytes outs)) /\
  total_memory_allocated s = wrap64 (sum_bytes (omap fresh_bytes outs)) /\
  memory_reuse_count s = wrap64 (zlength (omap pooled_buffer outs)).
Proof.
  cbv zeta. unfold GetStats.
  destruct (run_ops_statistics ops new_pool eq_refl) as (_ & _ & Hrange & Htally).
  destruct Hrange as (R1 & R2 & R3).
  { unfold counters_in_range, is_size_t, SIZE_MAX. cbn. lia. }
  destruct Htally as (T1 & T2 & T3). cbn [new_pool stats_ total_buffers_created
    total_memory_allocated memory_reuse_count] in T1, T2, T3.
  rewrite Z.add_0_l in T1, T2, T3.
  rewrite <- T1, <- T2, <- T3, !wrap64_small by assumption. auto.
Qed.

Example counters_after_three_calls :
  let ops := [OpGetBuffer 100 1 true; OpReturnBuffer (Some 0%nat) 100 2;
              OpGetBuffer 64 3 true; OpGetBuffer 64 4 true] in
  hand_outs ops new_pool = [Fresh 100; Pooled 0; Fresh 64] /\
  (total_buffers_created (GetStats (run_ops ops new_pool)),
   total_memory_allocated (GetStats (run_ops ops new_pool)),
   memory_reuse_count (GetStats (run_ops ops new_pool))) = (2, 164, 1).
Proof. vm_compute. split; reflexivity. Qed.

(** Whatever [GetBuffer] hands out holds the request: a fresh allocation
    has exactly the requested size, and a buffer taken from the pool was
    idle there with a recorded capacity of at least the requested size. *)
Theorem GetBuffer_capacity_suffices (p : ScreenshotMemoryPool) (x now : Z)
    (ok : bool) (a : Allocation) :
  fst (GetBuffer x now ok p) = Some a ->
  match a with
  | Fresh bytes => bytes = x
  | Pooled b =>
      exists info, In info (available_buffers_ p) /\ buffer info = b /\
                   x <= size info
  end.
Proof.
  unfold GetBuffer.
  destruct (FindBestFitBuffer_spec
              (available_buffers_ (CleanupExpiredBuffers now p)) x)
    as [(-> & _)|(k & info & -> & Hk & Hx & _)].
  - rewrite Z.eqb_refl. cbn [negb]. destruct ok; cbn [fst]; [|discriminate].
    intros [= <-]. reflexivity.
  - destruct (negb (Z.of_nat k =? SIZE_MAX)).
    + rewrite Nat2Z.id, Hk. cbn [fst]. intros [= <-].
      exists info. split; [|split; [reflexivity|exact Hx]].
      apply list_elem_of_lookup_2, list_elem_of_In, In_cleanup in Hk. tauto.
    + destruct ok; cbn [fst]; [|discriminate]. intros [= <-]. reflexivity.
Qed.

Lemma GetBuffer_capacity_suffices_witness :
  exists info,
    In info (available_buffers_ (ReturnBuffer (Some 5%nat) 4096 1 new_pool)) /\
    buffer info = 5%nat /\ 1000 <= size info.
Proof.
  apply (GetBuffer_capacity_suffices (ReturnBuffer (Some 5%nat) 4096 1 new_pool)
           1000 2 true (Pooled 5)).
  reflexivity.
Defined.

(** A miss: when every buffer that survives the purge is smaller than the
    request, [GetBuffer] allocates. The new buffer has the requested size,
    no idle buffer leaves the pool, [total_buffers_created] and
    [total_memory_allocated] grow and [memory_reuse_count] does not; when
    the allocation fails, nothing is handed out and only the purge has
    happened. *)
Theorem GetBuffer_miss_allocates (p : ScreenshotMemoryPool) (x now : Z) :
  (forall b, In b (available_buffers_ (CleanupExpiredBuffers now p)) -> size b < x) ->
  let r := GetBuffer x now true p in
  fst r = Some (Fresh x) /\
  available_buffers_ (snd r) = available_buffers_ (CleanupExpiredBuffers now p) /\
  total_buffers_created (stats_ (snd r))
  = wrap64 (total_buffers_created (stats_ p) + 1) /\
  total_memory_allocated (stats_ (snd r))
  = wrap64 (total_memory_allocated (stats_ p) + x) /\
  memory_reuse_count (stats_ (snd r)) = memory_reuse_count (stats_ p) /\
  GetBuffer x now false p = (None, CleanupExpiredBuffers now p).
Proof.
  intros Hsmall. cbv zeta. apply GetBuffer_fresh.
  destruct (FindBestFitBuffer_spec
              (available_buffers_ (CleanupExpiredBuffers now p)) x)
    as [(Hr & _)|(k & b & _ & Hk & Hx & _)]; [exact Hr|].
  apply list_elem_of_lookup_2, list_elem_of_In, Hsmall in Hk. lia.
Qed.

Lemma GetBuffer_miss_allocates_witness :
  let p := ReturnBuffer (Some 0%nat) 512 10 new_pool in
  fst (GetBuffer 1024 20 true p) = Some (Fresh 1024) /\
  map buffer (available_buffers_ (snd (GetBuffer 1024 20 true p))) = [0%nat] /\
  total_buffers_created (stats_ (snd (GetBuffer 1024 20 true p))) = 1.
Proof.
  cbv zeta.
  destruct (GetBuffer_miss_allocates (ReturnBuffer (Some 0%nat) 512 10 new_pool)
              1024 20) as (Hfresh & Hpool & Hcreated & _).
  - intros b [<-|[]]. vm_compute. reflexivity.
  - rewrite Hfresh, Hpool, Hcreated. repeat split.
Defined.

Lemma NoDup_filter_buffers (P : BufferInfo -> bool) (l : list BufferInfo) :
  NoDup (map buffer l) -> NoDup (map buffer (List.filter P l)).
Proof.
  induction l as [|a l IH]; intros Hnd; [exact Hnd|].
  cbn [map] in Hnd. apply NoDup_cons in Hnd. destruct Hnd as (Ha & Hl).
  cbn [List.filter]. destruct (P a); [|auto].
  cbn [map]. apply NoDup_cons. split; [|auto].
  intros Hin. apply Ha. apply list_elem_of_In in Hin. apply list_elem_of_In.
  apply in_map_iff in Hin. destruct Hin as (c & Hc & Hin).
  apply filter_In in Hin. apply in_map_iff. exists c. tauto.
Qed.

Lemma NoDup_delete_buffers (l : list BufferInfo) i info :
  NoDup (map buffer l) -> l !! i = Some info ->
  ~ In (buffer info) (map buffer (delete i l)) /\ NoDup (map buffer (delete i l)).
Proof.
  intros Hnd Hi.
  rewrite <- (take_drop_middle l i info Hi) in Hnd.
  rewrite delete_take_drop.
  rewrite map_app in *. cbn [map] in Hnd.
  apply NoDup_app in Hnd. destruct Hnd as (Hpre & Hdisj & Hpost).
  apply NoDup_cons in Hpost. destruct Hpost as (Hinfo & Hpost).
  split.
  - intros Hin. apply in_app_or in Hin. destruct Hin as [Hin|Hin].
    + apply list_elem_of_In in Hin. apply (Hdisj _ Hin). left.
    + apply Hinfo. apply list_elem_of_In. exact Hin.
  - apply NoDup_app. split; [exact Hpre|]. split; [|exact Hpost].
    intros c Hc Hc'. apply (Hdisj c Hc). right. exact Hc'.
Qed.

(** A buffer is never in two hands: when the idle buffers are distinct
    allocations, a buffer that [GetBuffer] hands out from the pool was idle
    before the call and is not in the pool after it, and the idle buffers
    stay distinct; they also stay distinct when a buffer that is not idle
    is returned. *)
Theorem pooled_buffer_leaves_pool (p : ScreenshotMemoryPool) (x now : Z)
    (ok : bool) :
  NoDup (map buffer (available_buffers_ p)) ->
  NoDup (map buffer (available_buffers_ (snd (GetBuffer x now ok p)))) /\
  (forall b, fst (GetBuffer x now ok p) = Some (Pooled b) ->
     In b (map buffer (available_buffers_ p)) /\
     ~ In b (map buffer (available_buffers_ (snd (GetBuffer x now ok p))))) /\
  (forall b sz t, ~ In b (map buffer (available_buffers_ p)) ->
     NoDup (map buffer (available_buffers_ (ReturnBuffer (Some b) sz t p)))).
Proof.
  intros Hnd.
  assert (Hpurged : NoDup (map buffer (available_buffers_ (CleanupExpiredBuffers now p)))).
  { unfold CleanupExpiredBuffers. cbn [available_buffers_].
    apply NoDup_filter_buffers. exact Hnd. }
  split; [|split].
  - unfold GetBuffer.
    destruct (negb (FindBestFitBuffer _ x =? SIZE_MAX)).
    + destruct (available_buffers_ (CleanupExpiredBuffers now p) !! _) eqn:E;
        cbn [snd available_buffers_]; [|exact Hpurged].
      apply (NoDup_delete_buffers _ _ _ Hpurged E).
    + destruct ok; cbn [snd available_buffers_]; exact Hpurged.
  - intros b. unfold GetBuffer.
    destruct (negb (FindBestFitBuffer _ x =? SIZE_MAX)).
    + destruct (available_buffers_ (CleanupExpiredBuffers now p) !! _) as [info|] eqn:E;
        cbn [fst snd available_buffers_]; [|discriminate].
      intros [= <-]. split; [|apply (NoDup_delete_buffers _ _ _ Hpurged E)].
      apply list_elem_of_lookup_2, list_elem_of_In, In_cleanup in E.
      apply in_map. tauto.
    + destruct ok; cbn [fst]; discriminate.
  - intros b sz t Hnew. unfold ReturnBuffer. cbn [available_buffers_].
    rewrite map_app. cbn [map buffer].
    assert (Hkept : forall l, NoDup (map buffer l) -> ~ In b (map buffer l) ->
                              NoDup (map buffer l ++ [b])).
    { intros l Hl Hb. apply NoDup_app. split; [exact Hl|]. split.
      - intros c Hc Hc'. apply list_elem_of_In in Hc.
        apply list_elem_of_In in Hc'. destruct Hc' as [<-|[]]. auto.
      - apply NoDup_singleton. }
    destruct (MAX_POOL_SIZE <=? zlength (available_buffers_ p)); [|auto].
    destruct (min_element (available_buffers_ p)) as [k|] eqn:Hmin; [|auto].
    destruct (min_element_spec (available_buffers_ p)) as (k' & victim & Hk' & E & _).
    { intros Hnil. rewrite Hnil in Hmin. discriminate. }
    rewrite Hmin in Hk'. injection Hk' as <-.
    apply Hkept; [apply (NoDup_delete_buffers _ _ _ Hnd E)|].
    intros Hin. apply Hnew. apply in_map_iff in Hin.
    destruct Hin as (c & Hc & Hin). apply In_delete in Hin.
    apply in_map_iff. eauto.
Qed.

Lemma pooled_buffer_leaves_pool_witness :
  let p := ReturnBuffer (Some 4%nat) 2048 2
             (ReturnBuffer (Some 3%nat) 1024 1 new_pool) in
  fst (GetBuffer 1000 5 true p) = Some (Pooled 3) /\
  ~ In 3%nat (map buffer (available_buffers_ (snd (GetBuffer 1000 5 true p)))).
Proof.
  cbv zeta.
  destruct (pooled_buffer_leaves_pool
              (ReturnBuffer (Some 4%nat) 2048 2
                 (ReturnBuffer (Some 3%nat) 1024 1 new_pool)) 1000 5 true)
    as (_ & Hout & _).
  - vm_compute. apply NoDup_cons. split; [|apply NoDup_singleton].
    intros Hc. apply list_elem_of_In in Hc. destruct Hc as [Hc|[]]. discriminate.
  - split; [reflexivity|]. apply (Hout 3%nat). reflexivity.
Defined.

(** Round trip: a buffer returned with size [sz] is found again. Whatever
    the pool held, a [GetBuffer sz] that comes before the timeout of the
    returned buffer is served from the pool, by a buffer whose recorded
    capacity is exactly [sz] (the returned one, or an equal one that sits
    before it), and allocates nothing. *)
Theorem returned_buffer_is_reused (p : ScreenshotMemoryPool) (b : nat)
    (sz t t' : Z) (ok : bool) :
  zlength (available_buffers_ p) <= MAX_POOL_SIZE ->
  sz < SIZE_MAX ->
  wrap64 (t' - t) <= BUFFER_TIMEOUT_MS ->
  let p1 := ReturnBuffer (Some b) sz t p in
  exists info,
    In info (available_buffers_ p1) /\ size info = sz /\
    fst (GetBuffer sz t' ok p1) = Some (Pooled (buffer info)) /\
    total_buffers_created (stats_ (snd (GetBuffer sz t' ok p1)))
    = total_buffers_created (stats_ p) /\
    memory_reuse_count (stats_ (snd (GetBuffer sz t' ok p1)))
    = wrap64 (memory_reuse_count (stats_ p) + 1).
Proof.
  intros Hlen Hsz Hfresh. cbv zeta.
  set (p1 := ReturnBuffer (Some b) sz t p).
  set (mine := {| buffer := b; size := sz; last_used_time := t |}).
  assert (Hmine : In mine (available_buffers_ (CleanupExpiredBuffers t' p1))).
  { apply In_cleanup. split; [|exact Hfresh].
    subst p1. unfold ReturnBuffer. cbn [available_buffers_].
    apply in_or_app. right. left. reflexivity. }
  assert (Hlen1 : zlength (available_buffers_ (CleanupExpiredBuffers t' p1)) <= SIZE_MAX).
  { pose proof (length_cleanup t' p1) as Hc.
    pose proof (length_ReturnBuffer (Some b) sz t p Hlen) as Hr. fold p1 in Hr.
    unfold zlength, MAX_POOL_SIZE, SIZE_MAX in *. lia. }
  destruct (FindBestFitBuffer_found _ sz Hlen1) as (i & info & Hidx & Hne & Hfit).
  { exists mine. split; [exact Hmine|]. cbn [size mine]. lia. }
  destruct Hfit as (Hi & Hge & _ & Hmin & _).
  destruct (GetBuffer_pooled sz t' ok p1 i info Hidx)
    as (Hout & _ & Hcreated & _ & Hreuse); [congruence|exact Hi|].
  exists info. split; [|split; [|split; [exact Hout|split]]].
  - apply list_elem_of_lookup_2, list_elem_of_In, In_cleanup in Hi. tauto.
  - apply list_elem_of_In, list_elem_of_lookup_1 in Hmine.
    destruct Hmine as (j & Hj).
    specialize (Hmin j mine Hj). cbn [size mine] in Hmin. lia.
  - rewrite Hcreated. subst p1. destruct p. reflexivity.
  - rewrite Hreuse. subst p1. destruct p. reflexivity.
Qed.

Lemma returned_buffer_is_reused_witness :
  exists info,
    size info = 4096 /\
    fst (GetBuffer 4096 60007 true
           (ReturnBuffer (Some 9%nat) 4096 7
              (ReturnBuffer (Some 8%nat) 8192 6 new_pool)))
    = Some (Pooled (buffer info)).
Proof.
  destruct (returned_buffer_is_reused
              (ReturnBuffer (Some 8%nat) 8192 6 new_pool) 9 4096 7 60007 true)
    as (info & _ & Hsize & Hout & _).
  - vm_compute. discriminate.
  - vm_compute. reflexivity.
  - vm_compute. discriminate.
  - exists info. split; assumption.
Defined.

End MemoryPool.

(** ** zero_copy_optimizer.cc: [ZeroCopyBuffer] *)

Module ZeroCopy.

(** [class ZeroCopyBuffer]. [data_] is an address; [deleter_] names the
    callback the [std::function] holds, [None] for an empty one. *)
Record ZeroCopyBuffer := {
  data_ : Z;
  size_ : Z;
  ref_count_ : Z;
  deleter_ : option nat;
  is_memory_mapped_ : bool;
  owns_data_ : bool
}.

(** The live [ZeroCopyBuffer] objects by identity; for an object created by
    [std::make_shared], the number of [shared_ptr] owners its control block
    counts (an object obtained from a [new]-expression has no entry); the
    identity the next allocation gets; and the deleters that have run,
    oldest first. *)
Record Heap := {
  objects : gmap nat ZeroCopyBuffer;
  owners : gmap nat Z;
  next_object : nat;
  deleter_calls : list nat
}.

Definition empty_heap : Heap :=
  {| objects := ∅; owners := ∅; next_object := 0; deleter_calls := [] |}.

Definition set_ref_count (n : Z) (b : ZeroCopyBuffer) : ZeroCopyBuffer :=
  {| data_ := data_ b; size_ := size_ b; ref_count_ := n;
     deleter_ := deleter_ b; is_memory_mapped_ := is_memory_mapped_ b;
     owns_data_ := owns_data_ b |}.

Definition set_owns_data (o : bool) (b : ZeroCopyBuffer) : ZeroCopyBuffer :=
  {| data_ := data_ b; size_ := size_ b; ref_count_ := ref_count_ b;
     deleter_ := deleter_ b; is_memory_mapped_ := is_memory_mapped_ b;
     owns_data_ := o |}.

(** The constructor, on a fresh object obtained from a [new]-expression:
    [ref_count_(1)], [owns_data_(deleter != nullptr)]. *)
Definition construct (data size : Z) (deleter : option nat) (h : Heap)
    : nat * Heap :=
  let b := {| data_ := data; size_ := size; ref_count_ := 1;
              deleter_ := deleter; is_memory_mapped_ := false;
              owns_data_ := match deleter with Some _ => true | None => false end |} in
  (next_object h,
   {| objects := <[next_object h := b]> (objects h);
      owners := owners h;
      next_object := S (next_object h);
      deleter_calls := deleter_calls h |}).

(** [std::make_shared<ZeroCopyBuffer>(data, size, deleter)]: the object is
    constructed inside a control block that starts with one owner. This is
    how [CreateView] and [MapTextureZeroCopy] create their buffers. *)
Definition make_shared (data size : Z) (deleter : option nat) (h : Heap)
    : nat * Heap :=
  let '(this, h) := construct data size deleter h in
  (this,
   {| objects := objects h;
      owners := <[this := 1]> (owners h);
      next_object := next_object h;
      deleter_calls := deleter_calls h |}).

(** The destructor followed by the release of the storage:
    [if (deleter_) deleter_();]. A call on an object that is not live is
    undefined behaviour, [None]. *)
Definition destroy (this : nat) (h : Heap) : option Heap :=
  b ← objects h !! this;
  Some {| objects := delete this (objects h);
          owners := delete this (owners h);
          next_object := next_object h;
          deleter_calls :=
            match deleter_ b with
            | Some d => deleter_calls h ++ [d]
            | None => deleter_calls h
            end |}.

(** A copy of a [shared_ptr] to the object is made. *)
Definition shared_ptr_copy (this : nat) (h : Heap) : option Heap :=
  n ← owners h !! this;
  Some {| objects := objects h;
          owners := <[this := n + 1]> (owners h);
          next_object := next_object h;
          deleter_calls := deleter_calls h |}.

(** A [shared_ptr] to the object goes away ([reset()] or its destructor):
    the last owner destroys the object, whatever [ref_count_] holds. *)
Definition shared_ptr_reset (this : nat) (h : Heap) : option Heap :=
  n ← owners h !! this;
  if n =? 1 then destroy this h
  else Some {| objects := objects h;
               owners := <[this := n - 1]> (owners h);
               next_object := next_object h;
               deleter_calls := deleter_calls h |}.

(** [AddRef]: [ref_count_.fetch_add(1)]. *)
Definition AddRef (this : nat) (h : Heap) : option Heap :=
  b ← objects h !! this;
  Some {| objects :=
            <[this := set_ref_count (wrap_int32 (ref_count_ b + 1)) b]> (objects h);
          owners := owners h;
          next_object := next_object h;
          deleter_calls := deleter_calls h |}.

(** [Release]: [if (ref_count_.fetch_sub(1) == 1) delete this;]. The
    [delete]-expression is defined for an object that came from a
    [new]-expression only: on an object that lives in the control block of
    [std::make_shared] it is undefined behaviour, [None]. *)
Definition Release (this : nat) (h : Heap) : option Heap :=
  b ← objects h !! this;
  let h' := {| objects :=
                 <[this := set_ref_count (wrap_int32 (ref_count_ b - 1)) b]>
                   (objects h);
               owners := owners h;
               next_object := next_object h;
               deleter_calls := deleter_calls h |} in
  if ref_count_ b =? 1 then
    match owners h !! this with
    | None => destroy this h'
    | Some _ => None
    end
  else Some h'.

(** [CreateView]: the view ([None] for [nullptr]) and the heap after the
    call. The view is a new [std::make_shared] object with an empty
    deleter; its address is [data_ + offset] in pointer arithmetic, modulo
    2^64. *)
Definition CreateView (this : nat) (offset view_size : Z) (h : Heap)
    : option (option nat * Heap) :=
  b ← objects h !! this;
  if size_ b <? wrap64 (offset + view_size) then Some (None, h)
  else
    let '(view, h) := make_shared (wrap64 (data_ b + offset)) view_size None h in
    v ← objects h !! view;
    let h := {| objects := <[view := set_owns_data false v]> (objects h);
                owners := owners h;
                next_object := next_object h;
                deleter_calls := deleter_calls h |} in
    h ← AddRef this h;
    Some (Some view, h).

(** The reference count of a live object. *)
Definition ref_count (this : nat) (h : Heap) : option Z :=
  ref_count_ <$> objects h !! this.

(** The scenario of C2 on buffers as the repository creates them: a mapped
    surface of 16 bytes with deleter 7 ([MapTextureZeroCopy]) and a view of
    its first 8 bytes. *)
Definition surface_with_view : option (nat * nat * Heap) :=
  let '(parent, h) := make_shared 4096 16 (Some 7%nat) empty_heap in
  r ← CreateView parent 0 8 h;
  view ← fst r;
  Some (parent, view, snd r).

(** The same with a parent that a client obtained from a [new]-expression,
    the only kind of object on which [Release] may reach [delete this]. *)
Definition new_surface_with_view : option (nat * nat * Heap) :=
  let '(parent, h) := construct 4096 16 (Some 7%nat) empty_heap in
  r ← CreateView parent 0 8 h;
  view ← fst r;
  Some (parent, view, snd r).

(** The deleter calls the destruction of [b] adds. *)
Definition deleter_call (b : ZeroCopyBuffer) : list nat :=
  match deleter_ b with Some d => [d] | None => [] end.

(** [n] calls of [Release] in a row on one object. *)
Fixpoint Release_times (n : nat) (this : nat) (h : Heap) : option Heap :=
  match n with
  | O => Some h
  | S n' => h' ← Release this h; Release_times n' this h'
  end.

(** The identities from [next_object] on are not in use. *)
Definition fresh_ids (h : Heap) : Prop :=
  forall id, (next_object h <= id)%nat ->
    objects h !! id = None /\ owners h !! id = None.

Lemma wrap_int32_small z : - 2 ^ 31 <= z < 2 ^ 31 -> wrap_int32 z = z.
Proof. intros Hz. unfold wrap_int32. rewrite Z.mod_small; lia. Qed.

Lemma Release_live this b h :
  objects h !! this = Some b -> ref_count_ b <> 1 ->
  Release this h
  = Some {| objects :=
              <[this := set_ref_count (wrap_int32 (ref_count_ b - 1)) b]> (objects h);
            owners := owners h;
            next_object := next_object h;
            deleter_calls := deleter_calls h |}.
Proof.
  intros Hb Hc. unfold Release. rewrite Hb. cbn [mbind option_bind].
  apply Z.eqb_neq in Hc. rewrite Hc. reflexivity.
Qed.

(** The [Release] that reads 1: [delete this]. *)
Lemma Release_last this b h :
  objects h !! this = Some b -> ref_count_ b = 1 ->
  Release this h
  = match owners h !! this with
    | None => Some {| objects := delete this (objects h);
                      owners := owners h;
                      next_object := next_object h;
                      deleter_calls := deleter_calls h ++ deleter_call b |}
    | Some _ => None
    end.
Proof.
  intros Hb Hc. unfold Release. rewrite Hb. cbn [mbind option_bind].
  rewrite Hc. cbn [Z.eqb Pos.eqb].
  destruct (owners h !! this) eqn:Hown; [reflexivity|].
  unfold destroy. cbn [objects owners next_object deleter_calls].
  rewrite lookup_insert_eq. cbn [mbind option_bind set_ref_count deleter_].
  rewrite delete_insert_eq, (delete_id (owners h)) by assumption.
  unfold deleter_call.
  destruct (deleter_ b); [reflexivity|]. rewrite app_nil_r. reflexivity.
Qed.

Lemma Release_dead this h : objects h !! this = None -> Release this h = None.
Proof. intros Hb. unfold Release. rewrite Hb. reflexivity. Qed.

Lemma Release_times_countdown c : forall this b h,
  objects h !! this = Some b ->
  ref_count_ b = Z.of_nat (S c) -> ref_count_ b < 2 ^ 31 ->
  (forall k, (k <= c)%nat ->
     exists h', Release_times k this h = Some h' /\
       ref_count this h' = Some (ref_count_ b - Z.of_nat k) /\
       deleter_calls h' = deleter_calls h /\ owners h' = owners h) /\
  Release_times (S c) this h
  = match owners h !! this with
    | None => Some {| objects := delete this (objects h);
                      owners := owners h;
                      next_object := next_object h;
                      deleter_calls := deleter_calls h ++ deleter_call b |}
    | Some _ => None
    end /\
  Release_times (S (S c)) this h = None.
Proof.
  induction c as [|c IH]; intros this b h Hb Hcount Hmax.
  - split; [|split].
    + intros k Hk. replace k with 0%nat by lia. exists h.
      split; [reflexivity|]. unfold ref_count. rewrite Hb.
      split; [cbn; f_equal; lia|split; reflexivity].
    + cbn [Release_times]. rewrite (Release_last this b h Hb) by lia.
      destruct (owners h !! this); reflexivity.
    + cbn [Release_times]. rewrite (Release_last this b h Hb) by lia.
      destruct (owners h !! this); [reflexivity|].
      cbn [mbind option_bind]. rewrite Release_dead; [reflexivity|].
      cbn [objects]. apply lookup_delete_eq.
  - set (b1 := set_ref_count (wrap_int32 (ref_count_ b - 1)) b).
    set (h1 := {| objects := <[this := b1]> (objects h);
                  owners := owners h;
                  next_object := next_object h;
                  deleter_calls := deleter_calls h |}).
    assert (Hstep : Release this h = Some h1)
      by (apply Release_live; [assumption|lia]).
    assert (Hb1 : objects h1 !! this = Some b1) by apply lookup_insert_eq.
    assert (Hc1 : ref_count_ b1 = Z.of_nat (S c)).
    { subst b1. cbn [set_ref_count ref_count_]. rewrite wrap_int32_small; lia. }
    destruct (IH this b1 h1 Hb1 Hc1) as (Hlive & Hlast & Hgone); [lia|].
    split; [|split].
    + intros [|k] Hk.
      * exists h. split; [reflexivity|]. unfold ref_count. rewrite Hb.
        split; [cbn; f_equal; lia|split; reflexivity].
      * destruct (Hlive k) as (h' & Hrun & Hcnt & Hcalls & Hown); [lia|].
        exists h'. cbn [Release_times]. rewrite Hstep. cbn [mbind option_bind].
        split; [exact Hrun|]. split; [|split; [exact Hcalls|exact Hown]].
        rewrite Hcnt. f_equal. lia.
    + change (Release_times (S (S c)) this h)
        with (h' ← Release this h; Release_times (S c) this h').
      rewrite Hstep. cbn [mbind option_bind]. rewrite Hlast.
      subst h1 b1. cbn [objects owners next_object deleter_calls].
      rewrite delete_insert_eq. reflexivity.
    + change (Release_times (S (S (S c))) this h)
        with (h' ← Release this h; Release_times (S (S c)) this h').
      rewrite Hstep. exact Hgone.
Qed.

(** [CreateView] when the check passes. *)
Lemma CreateView_some this b offset view_size h :
  objects h !! this = Some b -> this <> next_object h ->
  wrap64 (offset + view_size) <= size_ b ->
  CreateView this offset view_size h
  = Some (Some (next_object h),
          {| objects :=
               <[this := set_ref_count (wrap_int32 (ref_count_ b + 1)) b]>
                 (<[next_object h :=
                      {| data_ := wrap64 (data_ b + offset); size_ := view_size;
                         ref_count_ := 1; deleter_ := None;
                         is_memory_mapped_ := false; owns_data_ := false |}]>
                    (objects h));
             owners := <[next_object h := 1]> (owners h);
             next_object := S (next_object h);
             deleter_calls := deleter_calls h |}).
Proof.
  intros Hb Hfresh Hfit. unfold CreateView. rewrite Hb. cbn [mbind option_bind].
  apply Z.ltb_ge in Hfit. rewrite Hfit.
  cbn [make_shared construct objects owners next_object deleter_calls].
  rewrite lookup_insert_eq. cbn [mbind option_bind].
  unfold AddRef. cbn [objects owners next_object deleter_calls].
  rewrite insert_insert_eq.
  rewrite lookup_insert_ne by congruence.
  rewrite Hb. cbn [mbind option_bind]. reflexivity.
Qed.

(** The buffers are created by [std::make_shared]; when the last
    [shared_ptr] owner of the parent goes away the destructor runs whatever
    [ref_count_] says, here while the view is still live. *)
Example parent_destroyed_under_live_view :
  (r ← CreateView 0 0 8 (snd (make_shared 4096 16 (Some 7%nat) empty_heap));
   h ← shared_ptr_reset 0 (snd r);
   Some (deleter_calls h, size_ <$> objects h !! 1%nat))
  = Some ([7%nat], Some 8).
Proof. vm_compute. reflexivity. Qed.

(** C2, as stated, fails on the code: the view keeps no reference to its
    parent and nothing ever takes back the reference [CreateView] added.
    On a mapped surface with one view, both created by [std::make_shared]
    as in the repository: the counts are 2 and 1; [Release] on the view
    reaches [delete this] on an object that was not allocated by [new];
    letting the view's [shared_ptr] go destroys the view and leaves the
    parent's count at 2, after which one [Release] of the parent brings it
    to 1 without running the deleter and one more is again [delete this] on
    a [std::make_shared] object; and when the parent's [shared_ptr] goes
    first, the deleter runs although the count is 2 and the view is still
    live. With a parent from a [new]-expression, after the view is gone
    and the parent released, the parent is still live with count 1 and its
    deleter has not run. *)
Theorem view_never_gives_back_parent_reference :
  (exists parent view h,
     surface_with_view = Some (parent, view, h) /\
     ref_count parent h = Some 2 /\ ref_count view h = Some 1 /\
     Release view h = None /\
     (exists h1, shared_ptr_reset view h = Some h1 /\
        objects h1 !! view = None /\ ref_count parent h1 = Some 2 /\
        deleter_calls h1 = [] /\
        exists h2, Release parent h1 = Some h2 /\
          ref_count parent h2 = Some 1 /\ deleter_calls h2 = [] /\
          Release parent h2 = None) /\
     (exists h3, shared_ptr_reset parent h = Some h3 /\
        objects h3 !! parent = None /\ deleter_calls h3 = [7%nat] /\
        data_ <$> objects h3 !! view = Some 4096)) /\
  (exists parent view h,
     new_surface_with_view = Some (parent, view, h) /\
     ref_count parent h = Some 2 /\
     exists h1, shared_ptr_reset view h = Some h1 /\
       objects h1 !! view = None /\
       exists h2, Release parent h1 = Some h2 /\
         ref_count parent h2 = Some 1 /\
         deleter_ <$> objects h2 !! parent = Some (Some 7%nat) /\
         deleter_calls h2 = []).
Proof.
  split.
  - eexists _, _, _. split; [vm_compute; reflexivity|].
    split; [vm_compute; reflexivity|]. split; [vm_compute; reflexivity|].
    split; [vm_compute; reflexivity|]. split.
    + eexists. split; [vm_compute; reflexivity|].
      split; [vm_compute; reflexivity|]. split; [vm_compute; reflexivity|].
      split; [vm_compute; reflexivity|].
      eexists. split; [vm_compute; reflexivity|].
      repeat split; vm_compute; reflexivity.
    + eexists. split; [vm_compute; reflexivity|].
      repeat split; vm_compute; reflexivity.
  - eexists _, _, _. split; [vm_compute; reflexivity|].
    split; [vm_compute; reflexivity|].
    eexists. split; [vm_compute; reflexivity|].
    split; [vm_compute; reflexivity|].
    eexists. split; [vm_compute; reflexivity|].
    repeat split; vm_compute; reflexivity.
Qed.

(** *** Counting down, views and the bytes behind them *)

(** A view costs its parent one reference for good: on a heap whose
    unused identities are unused, a [CreateView] that lies inside the
    parent followed by the end of the view's only [shared_ptr] leaves every
    object, control block and deleter call as it was, except that the
    parent's count is one higher: the heap is the one a bare [AddRef] on
    the parent gives. *)
Theorem view_costs_parent_a_reference (this : nat) (b : ZeroCopyBuffer)
    (offset view_size : Z) (h : Heap) :
  fresh_ids h -> objects h !! this = Some b ->
  0 <= offset -> 0 <= view_size -> offset + view_size <= size_ b ->
  size_ b <= SIZE_MAX ->
  exists view h1 h2 h',
    CreateView this offset view_size h = Some (Some view, h1) /\
    shared_ptr_reset view h1 = Some h2 /\
    AddRef this h = Some h' /\
    objects h2 = objects h' /\ owners h2 = owners h' /\
    deleter_calls h2 = deleter_calls h' /\
    ref_count this h2 = Some (wrap_int32 (ref_count_ b + 1)) /\
    objects h2 !! view = None.
Proof.
  intros Hfresh Hb Hoff Hsz Hfit Hmax.
  destruct (Hfresh (next_object h) (Nat.le_refl _)) as (Hobj & Hown).
  assert (Hne : this <> next_object h) by congruence.
  rewrite (CreateView_some this b)
    by (try rewrite wrap64_small; unfold SIZE_MAX in *; (assumption || lia)).
  unfold AddRef. rewrite Hb. cbn [mbind option_bind].
  eexists _, _, _, _. split; [reflexivity|].
  unfold shared_ptr_reset. cbn [owners]. rewrite lookup_insert_eq.
  cbn [mbind option_bind Z.eqb Pos.eqb]. unfold destroy. cbn [objects].
  rewrite lookup_insert_ne by congruence. rewrite lookup_insert_eq.
  cbn [mbind option_bind deleter_ owners next_object deleter_calls].
  split; [reflexivity|]. split; [reflexivity|].
  cbn [objects owners deleter_calls]. unfold ref_count. cbn [objects].
  assert (Hobjs : delete (next_object h)
                    (<[this := set_ref_count (wrap_int32 (ref_count_ b + 1)) b]>
                       (<[next_object h :=
                            {| data_ := wrap64 (data_ b + offset);
                               size_ := view_size; ref_count_ := 1;
                               deleter_ := None; is_memory_mapped_ := false;
                               owns_data_ := false |}]> (objects h)))
                  = <[this := set_ref_count (wrap_int32 (ref_count_ b + 1)) b]>
                      (objects h)).
  { rewrite delete_insert_ne by congruence.
    rewrite delete_insert_eq, delete_id by assumption. reflexivity. }
  rewrite Hobjs.
  split; [reflexivity|].
  split; [rewrite delete_insert_eq; apply delete_id; assumption|].
  split; [reflexivity|].
  split; [rewrite lookup_insert_eq; reflexivity|].
  rewrite lookup_insert_ne by congruence. exact Hobj.
Qed.

Lemma view_costs_parent_a_reference_witness :
  let h := snd (make_shared 4096 16 (Some 7%nat) empty_heap) in
  exists view h1 h2,
    CreateView 0 4 8 h = Some (Some view, h1) /\
    shared_ptr_reset view h1 = Some h2 /\
    ref_count 0 h2 = Some 2 /\ objects h2 !! view = None.
Proof.
  cbv zeta.
  destruct (view_costs_parent_a_reference 0
              {| data_ := 4096; size_ := 16; ref_count_ := 1;
                 deleter_ := Some 7%nat; is_memory_mapped_ := false;
                 owns_data_ := true |} 4 8
              (snd (make_shared 4096 16 (Some 7%nat) empty_heap)))
    as (view & h1 & h2 & h' & Hview & Hreset & _ & _ & _ & _ & Hcount & Hgone);
    try (cbn; unfold SIZE_MAX; lia); try reflexivity.
  - intros id Hid. cbn in Hid. cbn [make_shared construct snd objects owners
      empty_heap next_object].
    split; (rewrite lookup_insert_ne by lia); apply lookup_empty.
  - exists view, h1, h2. auto.
Defined.

(** A successful [CreateView] that lies inside its parent
    ([offset + view_size <= size_], no wrap-around): the view is a new
    object created by [std::make_shared] with one owner, count 1 and no
    deleter, at the address [data_ + offset] taken modulo 2^64, which is
    [data_ + offset] itself when the parent lies in the address space; the
    parent's count is incremented and no deleter runs. *)
Theorem CreateView_effect (this : nat) (b : ZeroCopyBuffer)
    (offset view_size : Z) (h : Heap) :
  objects h !! this = Some b ->
  this <> next_object h ->
  0 <= offset -> 0 <= view_size -> offset + view_size <= size_ b ->
  size_ b <= SIZE_MAX ->
  exists view h',
    CreateView this offset view_size h = Some (Some view, h') /\
    view = next_object h /\
    ref_count this h' = Some (wrap_int32 (ref_count_ b + 1)) /\
    objects h' !! view
      = Some {| data_ := wrap64 (data_ b + offset); size_ := view_size;
                ref_count_ := 1; deleter_ := None; is_memory_mapped_ := false;
                owns_data_ := false |} /\
    owners h' !! view = Some 1 /\
    (0 <= data_ b -> data_ b + size_ b < 2 ^ 64 ->
     wrap64 (data_ b + offset) = data_ b + offset /\
     data_ b <= data_ b + offset /\
     data_ b + offset + view_size <= data_ b + size_ b) /\
    deleter_calls h' = deleter_calls h.
Proof.
  intros Hb Hfresh Hoff Hsz Hfit Hmax.
  rewrite (CreateView_some this b)
    by (try rewrite wrap64_small; unfold SIZE_MAX in *; (assumption || lia)).
  eexists _, _. split; [reflexivity|]. split; [reflexivity|].
  unfold ref_count. cbn [objects owners deleter_calls].
  rewrite lookup_insert_eq. split; [reflexivity|].
  rewrite lookup_insert_ne by congruence.
  rewrite !lookup_insert_eq. split; [reflexivity|]. split; [reflexivity|].
  split; [|reflexivity].
  intros Hdata Hend. split; [|lia].
  apply wrap64_small. unfold SIZE_MAX. lia.
Qed.

Lemma CreateView_effect_witness :
  exists view h',
    CreateView 0 4 8 (snd (make_shared 4096 16 (Some 7%nat) empty_heap))
    = Some (Some view, h') /\
    ref_count 0 h' = Some 2 /\
    (data_ <$> objects h' !! view) = Some 4100 /\
    (size_ <$> objects h' !! view) = Some 8 /\
    owners h' !! view = Some 1 /\
    deleter_calls h' = [].
Proof.
  destruct (CreateView_effect 0
              {| data_ := 4096; size_ := 16; ref_count_ := 1;
                 deleter_ := Some 7%nat; is_memory_mapped_ := false;
                 owns_data_ := true |}
              4 8 (snd (make_shared 4096 16 (Some 7%nat) empty_heap)) eq_refl)
    as (view & h' & Hview & _ & Hcount & Hobj & Hown & _ & Hcalls);
    try (cbn; unfold SIZE_MAX; lia).
  exists view, h'. rewrite Hobj.
  split; [exact Hview|]. split; [exact Hcount|].
  split; [reflexivity|]. split; [reflexivity|].
  split; [exact Hown|exact Hcalls].
Defined.

(** Counting down: an object whose reference count is [n >= 1] survives
    [n - 1] calls of [Release], which only lower the count, run no deleter
    and leave the [shared_ptr] owners alone. What the [n]-th call does
    depends on where the object came from: an object obtained from a
    [new]-expression is destroyed, its deleter runs once and no other
    object is touched; for an object created by [std::make_shared], as
    every buffer of the repository is, the call is [delete this] on storage
    that [new] did not return, which is undefined. One more [Release] is
    undefined in both cases. *)
Theorem Release_runs_deleter_at_last_reference (this : nat) (b : ZeroCopyBuffer)
    (h : Heap) :
  objects h !! this = Some b ->
  1 <= ref_count_ b < 2 ^ 31 ->
  let n := Z.to_nat (ref_count_ b) in
  (forall k, (k < n)%nat ->
     exists h', Release_times k this h = Some h' /\
       ref_count this h' = Some (ref_count_ b - Z.of_nat k) /\
       deleter_calls h' = deleter_calls h /\ owners h' = owners h) /\
  (owners h !! this = None ->
   Release_times n this h
   = Some {| objects := delete this (objects h);
             owners := owners h;
             next_object := next_object h;
             deleter_calls := deleter_calls h ++ deleter_call b |}) /\
  (owners h !! this <> None -> Release_times n this h = None) /\
  Release_times (S n) this h = None.
Proof.
  intros Hb Hcount. cbv zeta.
  destruct (Z.to_nat (ref_count_ b)) as [|c] eqn:E; [lia|].
  destruct (Release_times_countdown c this b h Hb) as (Hlive & Hlast & Hgone);
    [lia..|].
  split; [|split; [|split; [|exact Hgone]]].
  - intros k Hk. apply Hlive. lia.
  - intros Hnew. rewrite Hlast, Hnew. reflexivity.
  - intros Hshared. rewrite Hlast.
    destruct (owners h !! this); [reflexivity|congruence].
Qed.

Lemma Release_runs_deleter_at_last_reference_witness :
  let h := snd (construct 4096 16 (Some 7%nat) empty_heap) in
  let s := snd (make_shared 4096 16 (Some 7%nat) empty_heap) in
  (exists h1 h2, AddRef 0 h = Some h1 /\ Release_times 1 0 h1 = Some h2 /\
                 ref_count 0 h2 = Some 1 /\ deleter_calls h2 = []) /\
  Release_times 1 0 h
  = Some {| objects := delete 0%nat (objects h); owners := owners h;
            next_object := 1; deleter_calls := [7%nat] |} /\
  Release_times 2 0 h = None /\
  Release_times 1 0 s = None.
Proof.
  cbv zeta.
  set (b := {| data_ := 4096; size_ := 16; ref_count_ := 1;
               deleter_ := Some 7%nat; is_memory_mapped_ := false;
               owns_data_ := true |}).
  destruct (Release_runs_deleter_at_last_reference 0 b
              (snd (construct 4096 16 (Some 7%nat) empty_heap)))
    as (_ & Hlast & _ & Hgone); [reflexivity|cbn; lia|].
  destruct (Release_runs_deleter_at_last_reference 0 b
              (snd (make_shared 4096 16 (Some 7%nat) empty_heap)))
    as (_ & _ & Hshared & _); [reflexivity|cbn; lia|].
  split; [|split; [apply Hlast; reflexivity|split; [exact Hgone|]]].
  - eexists _, _. split; [reflexivity|]. split; [vm_compute; reflexivity|].
    split; reflexivity.
  - apply Hshared. vm_compute. discriminate.
Defined.

(** [AddRef] and [Release] cancel: on a live object whose count is not 0,
    an [AddRef] followed by a [Release] gives back the very same heap, and
    no deleter runs. (With a count of 0 the [Release] would read 1 and
    destroy the object.) *)
Theorem AddRef_then_Release_restores (this : nat) (b : ZeroCopyBuffer) (h : Heap) :
  objects h !! this = Some b ->
  - 2 ^ 31 <= ref_count_ b < 2 ^ 31 -> ref_count_ b <> 0 ->
  (h1 ← AddRef this h; Release this h1) = Some h.
Proof.
  intros Hb Hrange Hne. unfold AddRef. rewrite Hb. cbn [mbind option_bind].
  set (b1 := set_ref_count (wrap_int32 (ref_count_ b + 1)) b).
  assert (Hback : wrap_int32 (ref_count_ b1 - 1) = ref_count_ b).
  { subst b1. cbn [set_ref_count ref_count_]. unfold wrap_int32.
    Z.div_mod_to_equations. lia. }
  assert (Hnot1 : ref_count_ b1 <> 1).
  { subst b1. cbn [set_ref_count ref_count_]. unfold wrap_int32.
    Z.div_mod_to_equations. lia. }
  rewrite (Release_live this b1) by (try apply lookup_insert_eq; assumption).
  cbn [objects owners next_object deleter_calls]. rewrite Hback.
  rewrite insert_insert_eq.
  replace (set_ref_count (ref_count_ b) b1) with b
    by (subst b1; destruct b; reflexivity).
  rewrite insert_id by assumption. destruct h. reflexivity.
Qed.

Lemma AddRef_then_Release_restores_witness :
  let h := snd (construct 4096 16 (Some 7%nat) empty_heap) in
  (h1 ← AddRef 0 h; Release 0 h1) = Some h.
Proof.
  cbv zeta.
  apply (AddRef_then_Release_restores 0
           {| data_ := 4096; size_ := 16; ref_count_ := 1;
              deleter_ := Some 7%nat; is_memory_mapped_ := false;
              owns_data_ := true |}).
  - reflexivity.
  - cbn. lia.
  - cbn. discriminate.
Defined.

(** The bounds check of [CreateView] is [offset + view_size > size_] in
    [size_t]. A refused view changes nothing, not even the parent's count.
    When the sum does not wrap, a view is returned exactly when it lies
    inside the parent; when the sum wraps past 2^64, a view is returned as
    soon as the wrapped sum fits, although its end lies beyond the
    parent. *)
Theorem CreateView_bounds_check (this : nat) (b : ZeroCopyBuffer)
    (offset view_size : Z) (h : Heap) :
  objects h !! this = Some b -> this <> next_object h ->
  0 <= offset <= SIZE_MAX -> 0 <= view_size <= SIZE_MAX ->
  0 <= size_ b <= SIZE_MAX ->
  (offset + view_size <= SIZE_MAX ->
   (size_ b < offset + view_size ->
    CreateView this offset view_size h = Some (None, h)) /\
   (offset + view_size <= size_ b ->
    exists h', CreateView this offset view_size h
               = Some (Some (next_object h), h'))) /\
  (SIZE_MAX < offset + view_size ->
   offset + view_size - 2 ^ 64 <= size_ b ->
   size_ b < offset + view_size /\
   exists h', CreateView this offset view_size h
              = Some (Some (next_object h), h')).
Proof.
  intros Hb Hfresh Hoff Hsz Hsize.
  assert (Hok : wrap64 (offset + view_size) <= size_ b ->
                exists h', CreateView this offset view_size h
                           = Some (Some (next_object h), h')).
  { intros Hfit. rewrite (CreateView_some this b) by assumption. eauto. }
  split.
  - intros Hnowrap. rewrite wrap64_small in Hok by lia. split; [|exact Hok].
    intros Hbig. unfold CreateView. rewrite Hb. cbn [mbind option_bind].
    rewrite wrap64_small by lia. apply Z.ltb_lt in Hbig. rewrite Hbig.
    reflexivity.
  - intros Hwrap Hfit. split; [unfold SIZE_MAX in *; lia|].
    apply Hok. unfold wrap64, SIZE_MAX in *.
    replace (offset + view_size) with (offset + view_size - 2 ^ 64 + 1 * 2 ^ 64)
      by lia.
    rewrite Z_mod_plus_full, Z.mod_small; lia.
Qed.

Lemma CreateView_bounds_check_witness :
  let h := snd (construct 4096 16 (Some 7%nat) empty_heap) in
  CreateView 0 8 9 h = Some (None, h) /\
  (exists h', CreateView 0 8 8 h = Some (Some 1%nat, h')) /\
  (exists h', CreateView 0 (2 ^ 64 - 1) 2 h = Some (Some 1%nat, h')).
Proof.
  cbv zeta.
  set (b := {| data_ := 4096; size_ := 16; ref_count_ := 1;
               deleter_ := Some 7%nat; is_memory_mapped_ := false;
               owns_data_ := true |}).
  set (h := snd (construct 4096 16 (Some 7%nat) empty_heap)).
  assert (Hb : objects h !! 0%nat = Some b) by reflexivity.
  assert (Hfresh : 0%nat <> next_object h) by (cbn; lia).
  split; [|split].
  - destruct (CreateView_bounds_check 0 b 8 9 h Hb Hfresh) as ((Hno & _) & _);
      try (unfold SIZE_MAX; cbn; lia).
    apply Hno. cbn. lia.
  - destruct (CreateView_bounds_check 0 b 8 8 h Hb Hfresh) as ((_ & Hyes) & _);
      try (unfold SIZE_MAX; cbn; lia).
    apply Hyes. cbn. lia.
  - destruct (CreateView_bounds_check 0 b (2 ^ 64 - 1) 2 h Hb Hfresh)
      as (_ & Hwrap); try (unfold SIZE_MAX; cbn; lia).
    apply Hwrap; unfold SIZE_MAX; cbn; lia.
Defined.

(** A view whose [offset + view_size] wraps starts one byte before its
    parent. *)
Example wrapped_view_starts_before_parent :
  (r ← CreateView 0 (2 ^ 64 - 1) 2
         (snd (make_shared 4096 16 (Some 7%nat) empty_heap));
   view ← fst r;
   data_ <$> objects (snd r) !! view)
  = Some 4095.
Proof. vm_compute. reflexivity. Qed.

(** [class ZeroCopyScreenshotResult]; [buffer] is the [shared_ptr], [None]
    when it is empty. *)
Record ZeroCopyScreenshotResult := {
  buffer : option nat;
  width : Z;
  height : Z;
  stride : Z;
  bytes_per_pixel : Z;
  format : string;
  implementation : string;
  success : bool;
  error_message : string
}.

(** The [GetSize()] bytes at [GetData()], in a memory that holds the byte
    [mem a] at address [a]; addresses are taken modulo 2^64. *)
Definition bytes_at (mem : Z -> Z) (b : ZeroCopyBuffer) : list Z :=
  map (fun k => mem (wrap64 (data_ b + Z.of_nat k))) (seq 0 (Z.to_nat (size_ b))).

(** [ZeroCopyScreenshotResult::ToTraditionalResult]: the [memcpy] of the
    buffer into a fresh array, [data_size] narrowed to [uint32_t], and the
    other members copied. [None]: the [shared_ptr] names no live object. *)
Definition ToTraditionalResult (mem : Z -> Z) (h : Heap)
    (r : ZeroCopyScreenshotResult) : option Screenshot.ScreenshotResult :=
  copied ←
    match buffer r with
    | Some id =>
        if success r
        then b ← objects h !! id;
             Some (Some (bytes_at mem b), wrap32 (size_ b))
        else Some (None, 0)
    | None => Some (None, 0)
    end;
  Some {| Screenshot.data := fst copied;
          Screenshot.width := width r;
          Screenshot.height := height r;
          Screenshot.stride := stride r;
          Screenshot.bytes_per_pixel := bytes_per_pixel r;
          Screenshot.data_size := snd copied;
          Screenshot.success := success r;
          Screenshot.error_message := error_message r;
          Screenshot.format := format r;
          Screenshot.implementation := implementation r |}.

Definition with_buffer (id : nat) (r : ZeroCopyScreenshotResult)
    : ZeroCopyScreenshotResult :=
  {| buffer := Some id; width := width r; height := height r;
     stride := stride r; bytes_per_pixel := bytes_per_pixel r;
     format := format r; implementation := implementation r;
     success := success r; error_message := error_message r |}.

Lemma bytes_at_window mem b offset view_size v :
  0 <= offset -> 0 <= view_size -> offset + view_size <= size_ b ->
  data_ v = wrap64 (data_ b + offset) -> size_ v = view_size ->
  bytes_at mem v
  = sub_bytes (Z.to_nat offset) (Z.to_nat view_size) (bytes_at mem b).
Proof.
  intros Hoff Hsz Hfit Hdata Hsize. unfold bytes_at, sub_bytes.
  rewrite Hdata, Hsize, skipn_map, firstn_map, skipn_seq, take_seq.
  replace (Nat.min (Z.to_nat view_size) (Z.to_nat (size_ b) - Z.to_nat offset))
    with (Z.to_nat view_size) by lia.
  generalize (Z.to_nat view_size) as n. generalize 0%nat as s.
  intros s n. revert s. induction n as [|n IH]; intros s; [reflexivity|].
  cbn [seq map]. f_equal; [|apply (IH (S s))].
  f_equal. unfold wrap64. rewrite Zplus_mod_idemp_l. f_equal. lia.
Qed.

(** A view is a window on its parent: what [ToTraditionalResult] copies
    out through a view created by [CreateView offset view_size] is the
    [view_size] bytes at [offset] of what it copies out through the parent,
    whatever the memory holds; [data_size] is the view's size narrowed to
    32 bits. *)
Theorem view_is_a_window_on_its_parent (mem : Z -> Z) (this : nat)
    (b : ZeroCopyBuffer) (offset view_size : Z) (h : Heap)
    (r : ZeroCopyScreenshotResult) :
  objects h !! this = Some b -> this <> next_object h ->
  0 <= offset -> 0 <= view_size -> offset + view_size <= size_ b ->
  size_ b <= SIZE_MAX -> success r = true ->
  exists view h' whole part,
    CreateView this offset view_size h = Some (Some view, h') /\
    ToTraditionalResult mem h' (with_buffer this r) = Some whole /\
    ToTraditionalResult mem h' (with_buffer view r) = Some part /\
    Screenshot.data part
    = sub_bytes (Z.to_nat offset) (Z.to_nat view_size) <$> Screenshot.data whole /\
    Screenshot.data_size part = wrap32 view_size /\
    Screenshot.width part = width r /\ Screenshot.height part = height r.
Proof.
  intros Hb Hfresh Hoff Hsz Hfit Hmax Hsuccess.
  rewrite (CreateView_some this b)
    by (try rewrite wrap64_small; unfold SIZE_MAX in *; (assumption || lia)).
  eexists _, _, _, _. split; [reflexivity|].
  unfold ToTraditionalResult, with_buffer.
  cbn [buffer success width height stride bytes_per_pixel format implementation
       error_message objects].
  rewrite Hsuccess, lookup_insert_eq.
  rewrite lookup_insert_ne by congruence. rewrite lookup_insert_eq.
  cbn [mbind option_bind fst snd].
  split; [reflexivity|]. split; [reflexivity|].
  cbn [Screenshot.data Screenshot.data_size Screenshot.width Screenshot.height
       fmap option_fmap option_map size_].
  split; [|repeat split].
  f_equal. apply bytes_at_window; cbn [data_ size_ set_ref_count]; lia.
Qed.

Lemma view_is_a_window_on_its_parent_witness :
  let h := snd (construct 4096 16 (Some 7%nat) empty_heap) in
  let r := {| buffer := None; width := 2; height := 2; stride := 8;
              bytes_per_pixel := 4; format := "BGRA"; implementation := "";
              success := true; error_message := "" |} in
  exists view h' whole part,
    CreateView 0 4 8 h = Some (Some view, h') /\
    ToTraditionalResult (fun a => a mod 256) h' (with_buffer 0 r) = Some whole /\
    ToTraditionalResult (fun a => a mod 256) h' (with_buffer view r) = Some part /\
    Screenshot.data part = sub_bytes 4 8 <$> Screenshot.data whole /\
    Screenshot.data_size part = 8.
Proof.
  cbv zeta.
  destruct (view_is_a_window_on_its_parent (fun a => a mod 256) 0
              {| data_ := 4096; size_ := 16; ref_count_ := 1;
                 deleter_ := Some 7%nat; is_memory_mapped_ := false;
                 owns_data_ := true |} 4 8
              (snd (construct 4096 16 (Some 7%nat) empty_heap))
              {| buffer := None; width := 2; height := 2; stride := 8;
                 bytes_per_pixel := 4; format := "BGRA"; implementation := "";
                 success := true; error_message := "" |} eq_refl)
    as (view & h' & whole & part & Hv & Hw & Hp & Hdata & Hsize & _);
    try (cbn; unfold SIZE_MAX; lia); try reflexivity.
  exists view, h', whole, part. auto.
Defined.

End ZeroCopy.

(** ** simd_converter.cc: pixel conversions *)

Module SIMD.


(** [buf[i]] read and written; the buffers are sized by the caller. *)
Definition load8 (buf : list Z) (i : Z) : Z := nth (Z.to_nat i) buf 0.

Definition store8 (buf : list Z) (i v : Z) : list Z := <[Z.to_nat i := v]> buf.

(** An unaligned load of [n] bytes at [buf + off] into a vector register,
    and the store of a register at [buf + off]. *)
Definition loadu (n : nat) (buf : list Z) (off : Z) : list Z :=
  map (fun k => load8 buf (off + Z.of_nat k)) (seq 0 n).

Definition storeu (buf : list Z) (off : Z) (v : list Z) : list Z :=
  store_bytes buf (Z.to_nat off) v.

(** [_mm_shuffle_epi8]: a mask byte with its top bit set gives 0, otherwise
    its low four bits select a byte of [a]. *)
Definition _mm_shuffle_epi8 (a mask : list Z) : list Z :=
  map (fun m => if Z.testbit m 7 then 0
                else nth (Z.to_nat (Z.land m 15)) a 0) mask.

(** [_mm256_shuffle_epi8] shuffles within each 128-bit lane. *)
Definition _mm256_shuffle_epi8 (a mask : list Z) : list Z :=
  _mm_shuffle_epi8 (firstn 16 a) (firstn 16 mask)
  ++ _mm_shuffle_epi8 (skipn 16 a) (skipn 16 mask).

(** [vqtbl1q_u8]: an index of 16 or more gives 0. *)
Definition vqtbl1q_u8 (t idx : list Z) : list Z :=
  map (fun i => if i <? 16 then nth (Z.to_nat i) t 0 else 0) idx.

(** The [|] of two [uint8x16_t]. *)
Definition vorrq_u8 (a b : list Z) : list Z :=
  map (fun ab => Z.lor (fst ab) (snd ab)) (combine a b).

(** The body of the scalar loop of the BGRA to RGBA conversion. *)
Definition bgra_to_rgba_pixel (bgra rgba : list Z) (i : Z) : list Z :=
  let rgba := store8 rgba (wrap32 (i * 4 + 0)) (load8 bgra (wrap32 (i * 4 + 2))) in
  let rgba := store8 rgba (wrap32 (i * 4 + 1)) (load8 bgra (wrap32 (i * 4 + 1))) in
  let rgba := store8 rgba (wrap32 (i * 4 + 2)) (load8 bgra (wrap32 (i * 4 + 0))) in
  store8 rgba (wrap32 (i * 4 + 3)) (load8 bgra (wrap32 (i * 4 + 3))).

(** [for (; i < pixel_count; ++i)] with [n] iterations left. *)
Fixpoint bgra_scalar_loop (n : nat) (i : Z) (bgra rgba : list Z) : list Z :=
  match n with
  | O => rgba
  | S n' => bgra_scalar_loop n' (i + 1) bgra (bgra_to_rgba_pixel bgra rgba i)
  end.

Definition ConvertBGRAToRGBA_C (bgra rgba : list Z) (pixel_count : Z) : list Z :=
  bgra_scalar_loop (Z.to_nat pixel_count) 0 bgra rgba.

(** [pixel_count & ~m]: the [int] [~m] converts to [uint32_t]. *)
Definition and_not (pixel_count m : Z) : Z :=
  Z.land pixel_count (wrap32 (Z.lnot m)).

Definition bgra_shuffle_mask : list Z :=
  [2; 1; 0; 3; 6; 5; 4; 7; 10; 9; 8; 11; 14; 13; 12; 15].

(** [for (i = 0; i < simd_pixels; i += 4)] with [n] iterations left. *)
Fixpoint bgra_sse2_loop (n : nat) (i : Z) (bgra rgba : list Z) : list Z :=
  match n with
  | O => rgba
  | S n' =>
      let pixels := loadu 16 bgra (wrap32 (i * 4)) in
      let converted := _mm_shuffle_epi8 pixels bgra_shuffle_mask in
      bgra_sse2_loop n' (wrap32 (i + 4)) bgra
        (storeu rgba (wrap32 (i * 4)) converted)
  end.

Definition ConvertBGRAToRGBA_SSE2 (bgra rgba : list Z) (pixel_count : Z)
    : list Z :=
  let simd_pixels := and_not pixel_count 3 in
  let rgba := bgra_sse2_loop (Z.to_nat (simd_pixels / 4)) 0 bgra rgba in
  bgra_scalar_loop (Z.to_nat (pixel_count - simd_pixels)) simd_pixels bgra rgba.

(** [for (i = 0; i < simd_pixels; i += 8)] with [n] iterations left. *)
Fixpoint bgra_avx2_loop (n : nat) (i : Z) (bgra rgba : list Z) : list Z :=
  match n with
  | O => rgba
  | S n' =>
      let pixels := loadu 32 bgra (wrap32 (i * 4)) in
      let converted :=
        _mm256_shuffle_epi8 pixels (bgra_shuffle_mask ++ bgra_shuffle_mask) in
      bgra_avx2_loop n' (wrap32 (i + 8)) bgra
        (storeu rgba (wrap32 (i * 4)) converted)
  end.

Definition ConvertBGRAToRGBA_AVX2 (bgra rgba : list Z) (pixel_count : Z)
    : list Z :=
  let simd_pixels := and_not pixel_count 7 in
  let rgba := bgra_avx2_loop (Z.to_nat (simd_pixels / 8)) 0 bgra rgba in
  bgra_scalar_loop (Z.to_nat (pixel_count - simd_pixels)) simd_pixels bgra rgba.

(** The body of the NEON loop: the four channel extractions and the four
    table look-ups that are or-ed into [result]. *)
Definition neon_block (pixels : list Z) : list Z :=
  let b := vqtbl1q_u8 pixels [0; 4; 8; 12; 0; 0; 0; 0; 0; 0; 0; 0; 0; 0; 0; 0] in
  let g := vqtbl1q_u8 pixels [1; 5; 9; 13; 0; 0; 0; 0; 0; 0; 0; 0; 0; 0; 0; 0] in
  let r := vqtbl1q_u8 pixels [2; 6; 10; 14; 0; 0; 0; 0; 0; 0; 0; 0; 0; 0; 0; 0] in
  let a := vqtbl1q_u8 pixels [3; 7; 11; 15; 0; 0; 0; 0; 0; 0; 0; 0; 0; 0; 0; 0] in
  let result :=
    vqtbl1q_u8 r [0; 0; 0; 0; 1; 1; 1; 1; 2; 2; 2; 2; 3; 3; 3; 3] in
  let result :=
    vorrq_u8 (vqtbl1q_u8 g [0; 1; 0; 0; 1; 1; 1; 1; 2; 2; 2; 2; 3; 3; 3; 3])
             result in
  let result :=
    vorrq_u8 (vqtbl1q_u8 b [0; 0; 2; 0; 1; 1; 1; 1; 2; 2; 2; 2; 3; 3; 3; 3])
             result in
  vorrq_u8 (vqtbl1q_u8 a [0; 0; 0; 3; 1; 1; 1; 1; 2; 2; 2; 2; 3; 3; 3; 3])
           result.

Fixpoint bgra_neon_loop (n : nat) (i : Z) (bgra rgba : list Z) : list Z :=
  match n with
  | O => rgba
  | S n' =>
      let pixels := loadu 16 bgra (wrap32 (i * 4)) in
      bgra_neon_loop n' (wrap32 (i + 4)) bgra
        (storeu rgba (wrap32 (i * 4)) (neon_block pixels))
  end.

Definition ConvertBGRAToRGBA_NEON (bgra rgba : list Z) (pixel_count : Z)
    : list Z :=
  let simd_pixels := and_not pixel_count 3 in
  let rgba := bgra_neon_loop (Z.to_nat (simd_pixels / 4)) 0 bgra rgba in
  bgra_scalar_loop (Z.to_nat (pixel_count - simd_pixels)) simd_pixels bgra rgba.




(** The body of the scalar loop of the RGBA to RGB conversion. *)
Definition rgba_to_rgb_pixel (rgba rgb : list Z) (i : Z) : list Z :=
  let rgb := store8 rgb (wrap32 (i * 3 + 0)) (load8 rgba (wrap32 (i * 4 + 0))) in
  let rgb := store8 rgb (wrap32 (i * 3 + 1)) (load8 rgba (wrap32 (i * 4 + 1))) in
  store8 rgb (wrap32 (i * 3 + 2)) (load8 rgba (wrap32 (i * 4 + 2))).

Fixpoint rgb_scalar_loop (n : nat) (i : Z) (rgba rgb : list Z) : list Z :=
  match n with
  | O => rgb
  | S n' => rgb_scalar_loop n' (i + 1) rgba (rgba_to_rgb_pixel rgba rgb i)
  end.

Definition ConvertRGBAToRGB_C (rgba rgb : list Z) (pixel_count : Z) : list Z :=
  rgb_scalar_loop (Z.to_nat pixel_count) 0 rgba rgb.

Definition rgb_shuffle_mask1 : list Z :=
  [0; 1; 2; 4; 5; 6; 8; 9; 10; 12; 13; 14; -1; -1; -1; -1].

(** The SSE2 loop: [_mm_storel_epi64] writes the low eight bytes of
    [packed] at [rgb + i * 3], and the third 32-bit lane ([last4]) goes to
    [rgb + i * 3 + 8]. *)
Fixpoint rgb_sse2_loop (n : nat) (i : Z) (rgba rgb : list Z) : list Z :=
  match n with
  | O => rgb
  | S n' =>
      let pixels := loadu 16 rgba (wrap32 (i * 4)) in
      let packed := _mm_shuffle_epi8 pixels rgb_shuffle_mask1 in
      let rgb := storeu rgb (wrap32 (i * 3)) (firstn 8 packed) in
      let last4 := firstn 4 (skipn 8 packed) in
      rgb_sse2_loop n' (wrap32 (i + 4)) rgba
        (storeu rgb (wrap32 (i * 3) + 8) last4)
  end.

Definition ConvertRGBAToRGB_SSE2 (rgba rgb : list Z) (pixel_count : Z) : list Z :=
  let simd_pixels := and_not pixel_count 3 in
  let rgb := rgb_sse2_loop (Z.to_nat (simd_pixels / 4)) 0 rgba rgb in
  rgb_scalar_loop (Z.to_nat (pixel_count - simd_pixels)) simd_pixels rgba rgb.

(** The AVX2 loop spills the register to [temp] and copies pixel by pixel:
    [for (j = 0; j < 8; ++j)], [n] iterations left. *)
Fixpoint rgb_avx2_spill (n : nat) (i j : Z) (temp rgb : list Z) : list Z :=
  match n with
  | O => rgb
  | S n' =>
      let rgb := store8 rgb (wrap32 (wrap32 (i + j) * 3 + 0)) (load8 temp (j * 4 + 0)) in
      let rgb := store8 rgb (wrap32 (wrap32 (i + j) * 3 + 1)) (load8 temp (j * 4 + 1)) in
      let rgb := store8 rgb (wrap32 (wrap32 (i + j) * 3 + 2)) (load8 temp (j * 4 + 2)) in
      rgb_avx2_spill n' i (j + 1) temp rgb
  end.

Fixpoint rgb_avx2_loop (n : nat) (i : Z) (rgba rgb : list Z) : list Z :=
  match n with
  | O => rgb
  | S n' =>
      let temp := loadu 32 rgba (wrap32 (i * 4)) in
      rgb_avx2_loop n' (wrap32 (i + 8)) rgba (rgb_avx2_spill 8 i 0 temp rgb)
  end.

Definition ConvertRGBAToRGB_AVX2 (rgba rgb : list Z) (pixel_count : Z) : list Z :=
  let simd_pixels := and_not pixel_count 7 in
  let rgb := rgb_avx2_loop (Z.to_nat (simd_pixels / 8)) 0 rgba rgb in
  rgb_scalar_loop (Z.to_nat (pixel_count - simd_pixels)) simd_pixels rgba rgb.


(** [ConvertBGRAToRGBAInPlace]: [std::swap(data[i*4+0], data[i*4+2])]. *)
Fixpoint in_place_loop (n : nat) (i : Z) (buf : list Z) : list Z :=
  match n with
  | O => buf
  | S n' =>
      let b := load8 buf (wrap32 (i * 4 + 0)) in
      let r := load8 buf (wrap32 (i * 4 + 2)) in
      in_place_loop n' (i + 1)
        (store8 (store8 buf (wrap32 (i * 4 + 0)) r) (wrap32 (i * 4 + 2)) b)
  end.

Definition ConvertBGRAToRGBAInPlace (buf : option (list Z)) (pixel_count : Z)
    : option (list Z) :=
  match buf with
  | Some d => if pixel_count =? 0 then Some d
              else Some (in_place_loop (Z.to_nat pixel_count) 0 d)
  | None => None
  end.

(** Four pixels, the first two with distinct channel values. *)
Definition four_pixels : list Z :=
  [1; 2; 4; 8; 16; 32; 64; 128; 0; 0; 0; 0; 0; 0; 0; 0].

(** C4, as stated, fails on the code for the NEON path: its table look-ups
    or the four channels of a pixel together instead of placing them, so on
    four pixels whose first is (B, G, R, A) = (1, 2, 4, 8) the scalar
    reference writes (4, 2, 1, 8) and the NEON path writes (15, 45, 14, 7);
    the SSE2 and AVX2 paths agree with the reference on the same input. *)
Theorem NEON_differs_from_scalar :
  ConvertBGRAToRGBA_C four_pixels (repeat 0 16) 4
  = [4; 2; 1; 8; 64; 32; 16; 128; 0; 0; 0; 0; 0; 0; 0; 0] /\
  ConvertBGRAToRGBA_NEON four_pixels (repeat 0 16) 4
  = [15; 45; 14; 7; 240; 240; 240; 240; 0; 0; 0; 0; 0; 0; 0; 0] /\
  ConvertBGRAToRGBA_SSE2 four_pixels (repeat 0 16) 4
  = ConvertBGRAToRGBA_C four_pixels (repeat 0 16) 4 /\
  ConvertBGRAToRGBA_NEON four_pixels (repeat 0 16) 4
  <> ConvertBGRAToRGBA_C four_pixels (repeat 0 16) 4.
Proof.
  split; [vm_compute; reflexivity|].
  split; [vm_compute; reflexivity|].
  split; [vm_compute; reflexivity|].
  vm_compute. discriminate.
Qed.


(** *** The SSE2 and AVX2 paths of the BGRA to RGBA conversion *)

(** The scalar body at byte offset [a]. *)
Definition bgra_pixel_at (bgra rgba : list Z) (a : Z) : list Z :=
  store8
    (store8
       (store8 (store8 rgba a (load8 bgra (a + 2))) (a + 1) (load8 bgra (a + 1)))
       (a + 2) (load8 bgra a))
    (a + 3) (load8 bgra (a + 3)).

Lemma wrap32_index4 i c : 0 <= c < 4 -> wrap32 (i * 4 + c) = wrap32 (i * 4) + c.
Proof. intros Hc. unfold wrap32. Z.div_mod_to_equations. lia. Qed.

Lemma wrap32_next_pixel i j :
  0 <= j < 4 -> i mod 4 = 0 -> wrap32 ((i + j) * 4) = wrap32 (i * 4) + 4 * j.
Proof. intros Hj Hi. unfold wrap32. Z.div_mod_to_equations. lia. Qed.

Lemma wrap32_next_pixel8 i j :
  0 <= j < 8 -> i mod 8 = 0 -> wrap32 ((i + j) * 4) = wrap32 (i * 4) + 4 * j.
Proof. intros Hj Hi. unfold wrap32. Z.div_mod_to_equations. lia. Qed.

Lemma bgra_to_rgba_pixel_at bgra rgba i :
  bgra_to_rgba_pixel bgra rgba i = bgra_pixel_at bgra rgba (wrap32 (i * 4)).
Proof.
  unfold bgra_to_rgba_pixel, bgra_pixel_at.
  rewrite !wrap32_index4 by lia. rewrite !Z.add_0_r. reflexivity.
Qed.

Lemma to_nat_offset n k : 0 <= k -> Z.to_nat (Z.of_nat n + k) = (Z.to_nat k + n)%nat.
Proof. intros Hk. lia. Qed.

Ltac normalise_offsets :=
  rewrite ?Z.add_0_r, ?Nat2Z.id;
  repeat (rewrite to_nat_offset by lia);
  cbn [Z.to_nat Pos.to_nat Pos.iter_op Nat.add Z.of_nat Pos.of_succ_nat Pos.succ].

Lemma sse2_block bgra rgba a :
  0 <= a ->
  storeu rgba a (_mm_shuffle_epi8 (loadu 16 bgra a) bgra_shuffle_mask)
  = bgra_pixel_at bgra
      (bgra_pixel_at bgra
         (bgra_pixel_at bgra (bgra_pixel_at bgra rgba a) (a + 4)) (a + 8))
      (a + 12).
Proof.
  intros Ha. rewrite <- (Z2Nat.id a Ha). generalize (Z.to_nat a) as n. intros n.
  unfold bgra_pixel_at, storeu, store8.
  rewrite <- !Z.add_assoc. cbn [Z.add Pos.add Pos.succ].
  unfold loadu, _mm_shuffle_epi8, bgra_shuffle_mask, load8.
  cbn [seq map Z.testbit Pos.testbit Z.land Pos.land Z.of_N Z.to_nat nth
       Pos.to_nat Pos.iter_op Nat.add store_bytes Z.of_nat Pos.of_succ_nat
       Pos.succ N.succ_pos Pos.Nsucc_double Pos.Ndouble].
  normalise_offsets. reflexivity.
Qed.

Lemma avx2_block bgra rgba a :
  0 <= a ->
  storeu rgba a
    (_mm256_shuffle_epi8 (loadu 32 bgra a) (bgra_shuffle_mask ++ bgra_shuffle_mask))
  = bgra_pixel_at bgra
      (bgra_pixel_at bgra
         (bgra_pixel_at bgra
            (bgra_pixel_at bgra
               (bgra_pixel_at bgra
                  (bgra_pixel_at bgra
                     (bgra_pixel_at bgra (bgra_pixel_at bgra rgba a) (a + 4))
                     (a + 8))
                  (a + 12))
               (a + 16))
            (a + 20))
         (a + 24))
      (a + 28).
Proof.
  intros Ha. rewrite <- (Z2Nat.id a Ha). generalize (Z.to_nat a) as n. intros n.
  unfold bgra_pixel_at, storeu, store8.
  rewrite <- !Z.add_assoc. cbn [Z.add Pos.add Pos.succ].
  unfold loadu, _mm256_shuffle_epi8, _mm_shuffle_epi8, bgra_shuffle_mask, load8.
  cbn [seq map Z.testbit Pos.testbit Z.land Pos.land Z.of_N Z.to_nat nth
       Pos.to_nat Pos.iter_op Nat.add store_bytes Z.of_nat Pos.of_succ_nat
       Pos.succ N.succ_pos Pos.Nsucc_double Pos.Ndouble firstn skipn app].
  normalise_offsets. reflexivity.
Qed.

Lemma bgra_scalar_loop_app bgra a : forall b i rgba,
  bgra_scalar_loop (a + b) i bgra rgba
  = bgra_scalar_loop b (i + Z.of_nat a) bgra (bgra_scalar_loop a i bgra rgba).
Proof.
  induction a as [|a IH]; intros b i rgba.
  - simpl. rewrite Z.add_0_r. reflexivity.
  - cbn [Nat.add bgra_scalar_loop]. rewrite IH. f_equal. lia.
Qed.

Lemma bgra_sse2_loop_spec bgra m : forall i rgba,
  0 <= i -> i mod 4 = 0 -> i + 4 * Z.of_nat m <= UINT32_MAX ->
  bgra_sse2_loop m i bgra rgba = bgra_scalar_loop (4 * m) i bgra rgba.
Proof.
  induction m as [|m IH]; intros i rgba Hi Hmod Hmax; [reflexivity|].
  replace (4 * S m)%nat with (4 + 4 * m)%nat by lia.
  rewrite bgra_scalar_loop_app. cbn [bgra_sse2_loop bgra_scalar_loop].
  rewrite (wrap32_small (i + 4)) by lia.
  rewrite IH; [|lia| |lia].
  - f_equal.
    rewrite sse2_block by apply wrap32_range.
    rewrite !bgra_to_rgba_pixel_at.
    replace (i + 1 + 1 + 1) with (i + 3) by lia.
    replace (i + 1 + 1) with (i + 2) by lia.
    rewrite !wrap32_next_pixel by (assumption || lia). reflexivity.
  - rewrite <- Zplus_mod_idemp_l, Hmod. reflexivity.
Qed.

Lemma bgra_avx2_loop_spec bgra m : forall i rgba,
  0 <= i -> i mod 8 = 0 -> i + 8 * Z.of_nat m <= UINT32_MAX ->
  bgra_avx2_loop m i bgra rgba = bgra_scalar_loop (8 * m) i bgra rgba.
Proof.
  induction m as [|m IH]; intros i rgba Hi Hmod Hmax; [reflexivity|].
  replace (8 * S m)%nat with (8 + 8 * m)%nat by lia.
  rewrite bgra_scalar_loop_app. cbn [bgra_avx2_loop bgra_scalar_loop].
  rewrite (wrap32_small (i + 8)) by lia.
  rewrite IH; [|lia| |lia].
  - f_equal.
    rewrite avx2_block by apply wrap32_range.
    rewrite !bgra_to_rgba_pixel_at.
    replace (i + 1 + 1 + 1 + 1 + 1 + 1 + 1) with (i + 7) by lia.
    replace (i + 1 + 1 + 1 + 1 + 1 + 1) with (i + 6) by lia.
    replace (i + 1 + 1 + 1 + 1 + 1) with (i + 5) by lia.
    replace (i + 1 + 1 + 1 + 1) with (i + 4) by lia.
    replace (i + 1 + 1 + 1) with (i + 3) by lia.
    replace (i + 1 + 1) with (i + 2) by lia.
    rewrite !wrap32_next_pixel8 by (assumption || lia). reflexivity.
  - rewrite <- Zplus_mod_idemp_l, Hmod. reflexivity.
Qed.

(** [pixel_count & ~(2^k - 1)] rounds down to a multiple of [2^k]. *)
Lemma and_not_ones n k :
  0 <= n <= UINT32_MAX -> 0 <= k < 32 ->
  and_not n (Z.ones k) = 2 ^ k * (n / 2 ^ k).
Proof.
  intros Hn Hk. unfold and_not, wrap32.
  rewrite <- Z.land_ones by lia.
  rewrite Z.land_assoc.
  replace (Z.land n (Z.lnot (Z.ones k))) with (Z.ldiff n (Z.ones k)).
  - rewrite Z.ldiff_ones_r by lia.
    rewrite Z.land_ones by lia.
    rewrite Z.shiftl_mul_pow2, Z.shiftr_div_pow2 by lia.
    rewrite Z.mod_small; [lia|].
    assert (0 < 2 ^ k) by (apply Z.pow_pos_nonneg; lia).
    pose proof (Z.mul_div_le n (2 ^ k) ltac:(lia)).
    assert (0 <= n / 2 ^ k) by (apply Z.div_pos; lia).
    unfold UINT32_MAX in Hn. nia.
  - apply Z.bits_inj'. intros b Hb.
    rewrite Z.ldiff_spec, Z.land_spec, Z.lnot_spec by lia. reflexivity.
Qed.

Lemma and_not_3 n : 0 <= n <= UINT32_MAX -> and_not n 3 = 4 * (n / 4).
Proof. intros Hn. apply (and_not_ones n 2); lia. Qed.

Lemma and_not_7 n : 0 <= n <= UINT32_MAX -> and_not n 7 = 8 * (n / 8).
Proof. intros Hn. apply (and_not_ones n 3); lia. Qed.

(** Conversion equivalence for the x86 vector paths of the BGRA to RGBA
    conversion: for every source, destination and pixel count of type
    [uint32_t], the SSE2 and the AVX2 implementations write what the scalar
    reference writes, the tail pixels included. *)
Theorem BGRA_vector_paths_match_scalar (bgra rgba : list Z) (pixel_count : Z) :
  0 <= pixel_count <= UINT32_MAX ->
  ConvertBGRAToRGBA_SSE2 bgra rgba pixel_count
  = ConvertBGRAToRGBA_C bgra rgba pixel_count /\
  ConvertBGRAToRGBA_AVX2 bgra rgba pixel_count
  = ConvertBGRAToRGBA_C bgra rgba pixel_count.
Proof.
  intros Hn. unfold ConvertBGRAToRGBA_SSE2, ConvertBGRAToRGBA_AVX2,
    ConvertBGRAToRGBA_C.
  pose proof (Z.div_mod pixel_count 4 ltac:(lia)) as H4.
  pose proof (Z.mod_pos_bound pixel_count 4 ltac:(lia)) as M4.
  pose proof (Z.div_mod pixel_count 8 ltac:(lia)) as H8.
  pose proof (Z.mod_pos_bound pixel_count 8 ltac:(lia)) as M8.
  split.
  - rewrite and_not_3 by assumption.
    replace (4 * (pixel_count / 4) / 4) with (pixel_count / 4)
      by (rewrite Z.mul_comm, Z.div_mul; lia).
    rewrite bgra_sse2_loop_spec; [|lia|reflexivity|lia].
    replace (Z.to_nat pixel_count)
      with (4 * Z.to_nat (pixel_count / 4)
            + Z.to_nat (pixel_count - 4 * (pixel_count / 4)))%nat by lia.
    rewrite bgra_scalar_loop_app. do 2 f_equal. lia.
  - rewrite and_not_7 by assumption.
    replace (8 * (pixel_count / 8) / 8) with (pixel_count / 8)
      by (rewrite Z.mul_comm, Z.div_mul; lia).
    rewrite bgra_avx2_loop_spec; [|lia|reflexivity|lia].
    replace (Z.to_nat pixel_count)
      with (8 * Z.to_nat (pixel_count / 8)
            + Z.to_nat (pixel_count - 8 * (pixel_count / 8)))%nat by lia.
    rewrite bgra_scalar_loop_app. do 2 f_equal. lia.
Qed.

Lemma BGRA_vector_paths_match_scalar_witness :
  ConvertBGRAToRGBA_SSE2 four_pixels (repeat 0 16) 3
  = ConvertBGRAToRGBA_C four_pixels (repeat 0 16) 3 /\
  ConvertBGRAToRGBA_AVX2 four_pixels (repeat 0 16) 3
  = ConvertBGRAToRGBA_C four_pixels (repeat 0 16) 3.
Proof.
  apply (BGRA_vector_paths_match_scalar four_pixels (repeat 0 16) 3).
  unfold UINT32_MAX. lia.
Defined.

(** *** The SSE2 and AVX2 paths of the RGBA to RGB conversion *)

(** The scalar body with the source at byte offset [a] and the destination
    at byte offset [d]. *)
Definition rgb_pixel_at (rgba rgb : list Z) (a d : Z) : list Z :=
  store8
    (store8 (store8 rgb d (load8 rgba a)) (d + 1) (load8 rgba (a + 1)))
    (d + 2) (load8 rgba (a + 2)).

Lemma rgba_to_rgb_pixel_at rgba rgb i :
  0 <= i -> i * 4 + 3 <= UINT32_MAX ->
  rgba_to_rgb_pixel rgba rgb i = rgb_pixel_at rgba rgb (i * 4) (i * 3).
Proof.
  intros Hi Hmax. unfold rgba_to_rgb_pixel, rgb_pixel_at.
  rewrite !wrap32_small by lia. rewrite !Z.add_0_r. reflexivity.
Qed.

Lemma rgb_sse2_block rgba rgb a d :
  0 <= a -> 0 <= d ->
  storeu
    (storeu rgb d (firstn 8 (_mm_shuffle_epi8 (loadu 16 rgba a) rgb_shuffle_mask1)))
    (d + 8)
    (firstn 4 (skipn 8 (_mm_shuffle_epi8 (loadu 16 rgba a) rgb_shuffle_mask1)))
  = rgb_pixel_at rgba
      (rgb_pixel_at rgba
         (rgb_pixel_at rgba (rgb_pixel_at rgba rgb a d) (a + 4) (d + 3))
         (a + 8) (d + 6))
      (a + 12) (d + 9).
Proof.
  intros Ha Hd.
  rewrite <- (Z2Nat.id a Ha). generalize (Z.to_nat a) as n. intros n.
  rewrite <- (Z2Nat.id d Hd). generalize (Z.to_nat d) as m. intros m.
  unfold rgb_pixel_at, storeu, store8.
  rewrite <- !Z.add_assoc. cbn [Z.add Pos.add Pos.succ].
  unfold loadu, _mm_shuffle_epi8, rgb_shuffle_mask1, load8.
  cbn [seq map Z.testbit Pos.testbit Z.land Pos.land Z.of_N Z.to_nat nth
       Pos.to_nat Pos.iter_op Nat.add store_bytes Z.of_nat Pos.of_succ_nat
       Pos.succ N.succ_pos Pos.Nsucc_double Pos.Ndouble firstn skipn].
  normalise_offsets. reflexivity.
Qed.

Lemma rgb_avx2_block rgba rgb i :
  0 <= i -> (i + 7) * 4 + 3 <= UINT32_MAX ->
  rgb_avx2_spill 8 i 0 (loadu 32 rgba (i * 4)) rgb
  = rgb_scalar_loop 8 i rgba rgb.
Proof.
  intros Hi Hmax. cbn [rgb_avx2_spill rgb_scalar_loop Z.add Pos.add Pos.succ].
  replace (i + 1 + 1 + 1 + 1 + 1 + 1 + 1) with (i + 7) by lia.
  replace (i + 1 + 1 + 1 + 1 + 1 + 1) with (i + 6) by lia.
  replace (i + 1 + 1 + 1 + 1 + 1) with (i + 5) by lia.
  replace (i + 1 + 1 + 1 + 1) with (i + 4) by lia.
  replace (i + 1 + 1 + 1) with (i + 3) by lia.
  replace (i + 1 + 1) with (i + 2) by lia.
  unfold rgba_to_rgb_pixel.
  cbn [Z.mul Pos.mul Z.add Pos.add Pos.succ].
  rewrite !Z.add_0_r.
  rewrite !(wrap32_small (i + _)) by lia.
  rewrite (wrap32_small i) by lia.
  rewrite !wrap32_small by lia.
  unfold loadu, load8 at 1 3 5 7 9 11 13 15 17 19 21 23 25 27 29 31 33 35 37 39 41 43 45 47.
  cbn [seq map Z.to_nat nth Pos.to_nat Pos.iter_op Nat.add Z.of_nat
       Pos.of_succ_nat Pos.succ].
  rewrite !Z.add_0_r.
  repeat (f_equal; try lia).
Qed.

Lemma rgb_scalar_loop_app rgba a : forall b i rgb,
  rgb_scalar_loop (a + b) i rgba rgb
  = rgb_scalar_loop b (i + Z.of_nat a) rgba (rgb_scalar_loop a i rgba rgb).
Proof.
  induction a as [|a IH]; intros b i rgb.
  - simpl. rewrite Z.add_0_r. reflexivity.
  - cbn [Nat.add rgb_scalar_loop]. rewrite IH. f_equal. lia.
Qed.

Lemma rgb_sse2_loop_spec rgba m : forall i rgb,
  0 <= i -> (i + 4 * Z.of_nat m) * 4 <= UINT32_MAX + 1 ->
  rgb_sse2_loop m i rgba rgb = rgb_scalar_loop (4 * m) i rgba rgb.
Proof.
  induction m as [|m IH]; intros i rgb Hi Hmax; [reflexivity|].
  replace (4 * S m)%nat with (4 + 4 * m)%nat by lia.
  rewrite rgb_scalar_loop_app. cbn [rgb_sse2_loop rgb_scalar_loop].
  unfold UINT32_MAX in Hmax.
  rewrite (wrap32_small (i + 4)), (wrap32_small (i * 4)), (wrap32_small (i * 3))
    by (unfold UINT32_MAX; lia).
  rewrite IH by (unfold UINT32_MAX; lia).
  f_equal.
  rewrite rgb_sse2_block by lia.
  rewrite !rgba_to_rgb_pixel_at by (unfold UINT32_MAX; lia).
  replace ((i + 1 + 1 + 1) * 4) with (i * 4 + 12) by lia.
  replace ((i + 1 + 1 + 1) * 3) with (i * 3 + 9) by lia.
  replace ((i + 1 + 1) * 4) with (i * 4 + 8) by lia.
  replace ((i + 1 + 1) * 3) with (i * 3 + 6) by lia.
  replace ((i + 1) * 4) with (i * 4 + 4) by lia.
  replace ((i + 1) * 3) with (i * 3 + 3) by lia.
  reflexivity.
Qed.

Lemma rgb_avx2_loop_spec rgba m : forall i rgb,
  0 <= i -> (i + 8 * Z.of_nat m) * 4 <= UINT32_MAX + 1 ->
  rgb_avx2_loop m i rgba rgb = rgb_scalar_loop (8 * m) i rgba rgb.
Proof.
  induction m as [|m IH]; intros i rgb Hi Hmax; [reflexivity|].
  replace (8 * S m)%nat with (8 + 8 * m)%nat by lia.
  rewrite rgb_scalar_loop_app. cbn [rgb_avx2_loop].
  unfold UINT32_MAX in Hmax.
  rewrite (wrap32_small (i + 8)), (wrap32_small (i * 4))
    by (unfold UINT32_MAX; lia).
  rewrite IH by (unfold UINT32_MAX; lia).
  f_equal. apply rgb_avx2_block; unfold UINT32_MAX; lia.
Qed.

(** Conversion equivalence for the vector paths of the RGBA to RGB
    conversion: for every source and destination, and every pixel count
    whose source bytes 4 * [pixel_count] are addressable with the 32-bit
    index arithmetic of the loops, the SSE2 and the AVX2 implementations
    write what the scalar reference writes, the tail pixels included. *)
Theorem RGB_vector_paths_match_scalar (rgba rgb : list Z) (pixel_count : Z) :
  0 <= pixel_count -> pixel_count * 4 <= UINT32_MAX + 1 ->
  ConvertRGBAToRGB_SSE2 rgba rgb pixel_count
  = ConvertRGBAToRGB_C rgba rgb pixel_count /\
  ConvertRGBAToRGB_AVX2 rgba rgb pixel_count
  = ConvertRGBAToRGB_C rgba rgb pixel_count.
Proof.
  intros Hn Hmax. unfold ConvertRGBAToRGB_SSE2, ConvertRGBAToRGB_AVX2,
    ConvertRGBAToRGB_C.
  assert (Hn32 : 0 <= pixel_count <= UINT32_MAX) by (unfold UINT32_MAX in *; lia).
  pose proof (Z.div_mod pixel_count 4 ltac:(lia)) as H4.
  pose proof (Z.mod_pos_bound pixel_count 4 ltac:(lia)) as M4.
  pose proof (Z.div_mod pixel_count 8 ltac:(lia)) as H8.
  pose proof (Z.mod_pos_bound pixel_count 8 ltac:(lia)) as M8.
  split.
  - rewrite and_not_3 by assumption.
    replace (4 * (pixel_count / 4) / 4) with (pixel_count / 4)
      by (rewrite Z.mul_comm, Z.div_mul; lia).
    rewrite rgb_sse2_loop_spec by lia.
    replace (Z.to_nat pixel_count)
      with (4 * Z.to_nat (pixel_count / 4)
            + Z.to_nat (pixel_count - 4 * (pixel_count / 4)))%nat by lia.
    rewrite rgb_scalar_loop_app. do 2 f_equal. lia.
  - rewrite and_not_7 by assumption.
    replace (8 * (pixel_count / 8) / 8) with (pixel_count / 8)
      by (rewrite Z.mul_comm, Z.div_mul; lia).
    rewrite rgb_avx2_loop_spec by lia.
    replace (Z.to_nat pixel_count)
      with (8 * Z.to_nat (pixel_count / 8)
            + Z.to_nat (pixel_count - 8 * (pixel_count / 8)))%nat by lia.
    rewrite rgb_scalar_loop_app. do 2 f_equal. lia.
Qed.

Lemma RGB_vector_paths_match_scalar_witness :
  ConvertRGBAToRGB_SSE2 four_pixels (repeat 0 12) 3
  = ConvertRGBAToRGB_C four_pixels (repeat 0 12) 3 /\
  ConvertRGBAToRGB_AVX2 four_pixels (repeat 0 12) 3
  = ConvertRGBAToRGB_C four_pixels (repeat 0 12) 3.
Proof.
  apply (RGB_vector_paths_match_scalar four_pixels (repeat 0 12) 3);
    unfold UINT32_MAX; lia.
Defined.

Example ConvertRGBAToRGB_SSE2_five_pixels :
  ConvertRGBAToRGB_SSE2
    [1; 2; 3; 4; 5; 6; 7; 8; 9; 10; 11; 12; 13; 14; 15; 16; 17; 18; 19; 20]
    (repeat 0 15) 5
  = [1; 2; 3; 5; 6; 7; 9; 10; 11; 13; 14; 15; 17; 18; 19].
Proof. vm_compute. reflexivity. Qed.
(** *** What the scalar loops write *)

(** The source byte of destination byte [j] in the BGRA to RGBA
    conversion: the first and the third channel of a pixel change places. *)
Definition swap_rb (j : Z) : Z :=
  if j mod 4 =? 0 then j + 2 else if j mod 4 =? 2 then j - 2 else j.

Ltac absurd_mod := exfalso; Z.div_mod_to_equations; lia.

Ltac decide_tests :=
  repeat match goal with
         | |- context [Z.eqb ?a ?b] => destruct (Z.eqb_spec a b); try absurd_mod
         | |- context [Z.ltb ?a ?b] => destruct (Z.ltb_spec a b); try absurd_mod
         | |- context [Z.leb ?a ?b] => destruct (Z.leb_spec a b); try absurd_mod
         end;
  cbn [andb].

Lemma length_store8 buf i v : length (store8 buf i v) = length buf.
Proof. unfold store8. apply length_insert. Qed.

Lemma load8_store8 buf i j v :
  0 <= i -> 0 <= j ->
  load8 (store8 buf i v) j
  = if (j =? i) && (i <? zlength buf) then v else load8 buf j.
Proof.
  intros Hi Hj. unfold load8, store8, zlength. rewrite !nth_lookup.
  destruct (Z.eqb_spec j i) as [->|Hne]; cbn [andb].
  - destruct (Z.ltb_spec i (Z.of_nat (length buf))) as [Hlt|Hge].
    + rewrite list_lookup_insert_eq by lia. reflexivity.
    + rewrite list_insert_ge by lia. reflexivity.
  - rewrite list_lookup_insert_ne by lia. reflexivity.
Qed.

(** Two buffers of one length that hold the same bytes are equal. *)
Lemma buffers_equal (l l' : list Z) :
  length l = length l' ->
  (forall j, 0 <= j < zlength l -> load8 l j = load8 l' j) -> l = l'.
Proof.
  intros Hlen Hload. apply (nth_ext l l' 0 0 Hlen). intros k Hk.
  specialize (Hload (Z.of_nat k)). unfold load8, zlength in Hload.
  rewrite Nat2Z.id in Hload. apply Hload. lia.
Qed.

Lemma load8_firstn (l : list Z) m j :
  0 <= j < Z.of_nat m -> load8 (firstn m l) j = load8 l j.
Proof.
  intros Hj. unfold load8. rewrite !nth_lookup, lookup_take_lt by lia.
  reflexivity.
Qed.

Lemma length_bgra_pixel_at bgra rgba a :
  length (bgra_pixel_at bgra rgba a) = length rgba.
Proof. unfold bgra_pixel_at. rewrite !length_store8. reflexivity. Qed.

Lemma load8_bgra_pixel_at bgra rgba i j :
  0 <= i -> 0 <= j -> 4 * i + 4 <= zlength rgba ->
  load8 (bgra_pixel_at bgra rgba (4 * i)) j
  = if (4 * i <=? j) && (j <? 4 * i + 4) then load8 bgra (swap_rb j)
    else load8 rgba j.
Proof.
  intros Hi Hj Hlen. unfold bgra_pixel_at.
  rewrite !load8_store8 by lia.
  unfold zlength in *. rewrite !length_store8.
  unfold swap_rb. decide_tests; try reflexivity; f_equal; lia.
Qed.

Lemma length_bgra_scalar_loop bgra n : forall i rgba,
  length (bgra_scalar_loop n i bgra rgba) = length rgba.
Proof.
  induction n as [|n IH]; intros i rgba; [reflexivity|].
  cbn [bgra_scalar_loop]. rewrite IH, bgra_to_rgba_pixel_at.
  apply length_bgra_pixel_at.
Qed.

(** The scalar loop over the pixels [i .. i + n - 1], byte by byte. *)
Lemma load8_bgra_scalar_loop bgra n : forall i rgba j,
  0 <= i -> 4 * (i + Z.of_nat n) <= UINT32_MAX + 1 ->
  4 * (i + Z.of_nat n) <= zlength rgba -> 0 <= j ->
  load8 (bgra_scalar_loop n i bgra rgba) j
  = if (4 * i <=? j) && (j <? 4 * (i + Z.of_nat n)) then load8 bgra (swap_rb j)
    else load8 rgba j.
Proof.
  induction n as [|n IH]; intros i rgba j Hi Hmax Hlen Hj.
  - cbn [bgra_scalar_loop].
    destruct (Z.leb_spec (4 * i) j), (Z.ltb_spec j (4 * (i + Z.of_nat 0)));
      cbn [andb]; try reflexivity; lia.
  - cbn [bgra_scalar_loop]. rewrite bgra_to_rgba_pixel_at.
    rewrite wrap32_small by (unfold UINT32_MAX in *; lia).
    replace (i * 4) with (4 * i) by lia.
    rewrite IH; [|lia|lia| |lia].
    + rewrite load8_bgra_pixel_at by lia.
      destruct (Z.leb_spec (4 * (i + 1)) j), (Z.ltb_spec j (4 * (i + 1 + Z.of_nat n))),
        (Z.leb_spec (4 * i) j), (Z.ltb_spec j (4 * i + 4)),
        (Z.ltb_spec j (4 * (i + Z.of_nat (S n))));
        cbn [andb]; try reflexivity; lia.
    + unfold zlength in *. rewrite length_bgra_pixel_at. lia.
Qed.

(** The scalar reference of the BGRA to RGBA conversion, on buffers that
    hold [pixel_count] pixels: pixel by pixel, red and blue change places
    and green and alpha stay; the destination keeps its length and
    everything behind the last pixel. *)
Theorem ConvertBGRAToRGBA_C_swaps_red_and_blue (bgra rgba : list Z)
    (pixel_count : Z) :
  0 <= pixel_count -> 4 * pixel_count <= UINT32_MAX + 1 ->
  4 * pixel_count <= zlength bgra -> 4 * pixel_count <= zlength rgba ->
  let out := ConvertBGRAToRGBA_C bgra rgba pixel_count in
  length out = length rgba /\
  (forall k, 0 <= k < pixel_count ->
     load8 out (4 * k) = load8 bgra (4 * k + 2) /\
     load8 out (4 * k + 1) = load8 bgra (4 * k + 1) /\
     load8 out (4 * k + 2) = load8 bgra (4 * k) /\
     load8 out (4 * k + 3) = load8 bgra (4 * k + 3)) /\
  (forall j, 4 * pixel_count <= j -> load8 out j = load8 rgba j).
Proof.
  intros Hn Hmax Hsrc Hdst. cbv zeta. unfold ConvertBGRAToRGBA_C.
  split; [apply length_bgra_scalar_loop|].
  assert (Hload : forall j, 0 <= j ->
    load8 (bgra_scalar_loop (Z.to_nat pixel_count) 0 bgra rgba) j
    = if (0 <=? j) && (j <? 4 * pixel_count) then load8 bgra (swap_rb j)
      else load8 rgba j).
  { intros j Hj. rewrite load8_bgra_scalar_loop by lia.
    rewrite Z2Nat.id by lia. reflexivity. }
  split.
  - intros k Hk.
    rewrite !Hload by lia.
    assert (H0 : swap_rb (4 * k) = 4 * k + 2).
    { unfold swap_rb. replace ((4 * k) mod 4) with 0
        by (Z.div_mod_to_equations; lia). reflexivity. }
    assert (H1 : swap_rb (4 * k + 1) = 4 * k + 1).
    { unfold swap_rb. replace ((4 * k + 1) mod 4) with 1
        by (Z.div_mod_to_equations; lia). reflexivity. }
    assert (H2 : swap_rb (4 * k + 2) = 4 * k).
    { unfold swap_rb. replace ((4 * k + 2) mod 4) with 2
        by (Z.div_mod_to_equations; lia). cbn [Z.eqb Pos.eqb]. lia. }
    assert (H3 : swap_rb (4 * k + 3) = 4 * k + 3).
    { unfold swap_rb. replace ((4 * k + 3) mod 4) with 3
        by (Z.div_mod_to_equations; lia). reflexivity. }
    rewrite H0, H1, H2, H3.
    repeat match goal with
           | |- context [?a <? ?b] => destruct (Z.ltb_spec a b); try lia
           | |- context [?a <=? ?b] => destruct (Z.leb_spec a b); try lia
           end.
    cbn [andb]. auto.
  - intros j Hj. rewrite Hload by lia.
    destruct (Z.leb_spec 0 j), (Z.ltb_spec j (4 * pixel_count));
      cbn [andb]; try reflexivity; lia.
Qed.

Lemma ConvertBGRAToRGBA_C_swaps_red_and_blue_witness :
  let out := ConvertBGRAToRGBA_C four_pixels (repeat 9 16) 2 in
  load8 out 0 = 4 /\ load8 out 4 = 64 /\ load8 out 7 = 128 /\ load8 out 8 = 9.
Proof.
  cbv zeta.
  destruct (ConvertBGRAToRGBA_C_swaps_red_and_blue four_pixels (repeat 9 16) 2)
    as (_ & Hpix & Hrest); try (unfold UINT32_MAX, zlength; cbn; lia).
  destruct (Hpix 0) as (H0 & _); [lia|].
  destruct (Hpix 1) as (H4 & _ & _ & H7); [lia|].
  split; [exact H0|]. split; [exact H4|]. split; [exact H7|].
  apply (Hrest 8). lia.
Defined.

Lemma swap_rb_range n j : 0 <= j < 4 * n -> 0 <= swap_rb j < 4 * n.
Proof.
  intros Hj. unfold swap_rb.
  destruct (Z.eqb_spec (j mod 4) 0); [Z.div_mod_to_equations; lia|].
  destruct (Z.eqb_spec (j mod 4) 2); Z.div_mod_to_equations; lia.
Qed.

Lemma swap_rb_involutive j : swap_rb (swap_rb j) = j.
Proof.
  unfold swap_rb.
  destruct (Z.eqb_spec (j mod 4) 0) as [E0|E0].
  - replace ((j + 2) mod 4) with 2 by (Z.div_mod_to_equations; lia).
    cbn [Z.eqb Pos.eqb]. lia.
  - destruct (Z.eqb_spec (j mod 4) 2) as [E2|E2].
    + replace ((j - 2) mod 4) with 0 by (Z.div_mod_to_equations; lia).
      cbn [Z.eqb]. lia.
    + apply Z.eqb_neq in E0, E2. rewrite E0, E2. reflexivity.
Qed.

(** Round trip: swapping red and blue twice gives the pixels back.
    Converting a frame and converting the result again restores the
    [4 * pixel_count] source bytes, whatever the destination buffers held. *)
Theorem ConvertBGRAToRGBA_C_twice_restores (src dst dst' : list Z)
    (pixel_count : Z) :
  0 <= pixel_count -> 4 * pixel_count <= UINT32_MAX + 1 ->
  4 * pixel_count <= zlength src -> 4 * pixel_count <= zlength dst ->
  4 * pixel_count <= zlength dst' ->
  firstn (Z.to_nat (4 * pixel_count))
    (ConvertBGRAToRGBA_C (ConvertBGRAToRGBA_C src dst pixel_count) dst' pixel_count)
  = firstn (Z.to_nat (4 * pixel_count)) src.
Proof.
  intros Hn Hmax Hsrc Hdst Hdst'. unfold ConvertBGRAToRGBA_C.
  assert (Hl1 : length (bgra_scalar_loop (Z.to_nat pixel_count) 0 src dst)
                = length dst) by apply length_bgra_scalar_loop.
  assert (Hl2 : forall s, length (bgra_scalar_loop (Z.to_nat pixel_count) 0 s dst')
                          = length dst') by (intros; apply length_bgra_scalar_loop).
  unfold zlength in *.
  apply buffers_equal.
  - rewrite !length_take, Hl2. lia.
  - intros j Hj. unfold zlength in Hj. rewrite length_take, Hl2 in Hj.
    rewrite !load8_firstn by lia.
    rewrite load8_bgra_scalar_loop by (unfold zlength; lia).
    rewrite Z2Nat.id by lia.
    destruct (Z.leb_spec (4 * 0) j), (Z.ltb_spec j (4 * (0 + pixel_count)));
      cbn [andb]; try lia.
    pose proof (swap_rb_range pixel_count j ltac:(lia)) as Hs.
    rewrite load8_bgra_scalar_loop by (unfold zlength; lia).
    rewrite Z2Nat.id by lia.
    destruct (Z.leb_spec (4 * 0) (swap_rb j)),
      (Z.ltb_spec (swap_rb j) (4 * (0 + pixel_count))); cbn [andb]; try lia.
    rewrite swap_rb_involutive. reflexivity.
Qed.

Lemma ConvertBGRAToRGBA_C_twice_restores_witness :
  firstn 8 (ConvertBGRAToRGBA_C (ConvertBGRAToRGBA_C four_pixels (repeat 9 16) 2)
              (repeat 7 8) 2)
  = [1; 2; 4; 8; 16; 32; 64; 128].
Proof.
  apply (ConvertBGRAToRGBA_C_twice_restores four_pixels (repeat 9 16) (repeat 7 8) 2);
    unfold UINT32_MAX, zlength; cbn; lia.
Defined.

Lemma length_in_place_loop n : forall i buf,
  length (in_place_loop n i buf) = length buf.
Proof.
  induction n as [|n IH]; intros i buf; [reflexivity|].
  cbn [in_place_loop]. rewrite IH, !length_store8. reflexivity.
Qed.

Lemma load8_in_place_loop n : forall i buf j,
  0 <= i -> 4 * (i + Z.of_nat n) <= UINT32_MAX + 1 ->
  4 * (i + Z.of_nat n) <= zlength buf -> 0 <= j ->
  load8 (in_place_loop n i buf) j
  = if (4 * i <=? j) && (j <? 4 * (i + Z.of_nat n)) then load8 buf (swap_rb j)
    else load8 buf j.
Proof.
  induction n as [|n IH]; intros i buf j Hi Hmax Hlen Hj.
  - cbn [in_place_loop].
    destruct (Z.leb_spec (4 * i) j), (Z.ltb_spec j (4 * (i + Z.of_nat 0)));
      cbn [andb]; try reflexivity; lia.
  - cbn [in_place_loop].
    rewrite !wrap32_small by (unfold UINT32_MAX in *; lia).
    rewrite IH; [|lia|lia| |lia];
      [|unfold zlength in *; rewrite !length_store8; lia].
    assert (Hpix : forall q, 0 <= q ->
      load8 (store8 (store8 buf (i * 4 + 0) (load8 buf (i * 4 + 2)))
               (i * 4 + 2) (load8 buf (i * 4 + 0))) q
      = if (4 * i <=? q) && (q <? 4 * i + 4) then load8 buf (swap_rb q)
        else load8 buf q).
    { intros q Hq. rewrite !load8_store8 by lia.
      unfold zlength in *. rewrite !length_store8. unfold swap_rb.
      decide_tests; try reflexivity; f_equal; lia. }
    destruct (Z.leb_spec (4 * (i + 1)) j), (Z.ltb_spec j (4 * (i + 1 + Z.of_nat n))),
      (Z.leb_spec (4 * i) j), (Z.ltb_spec j (4 * (i + Z.of_nat (S n))));
      cbn [andb]; try lia.
    + (* a later pixel: its source lies outside pixel [i] *)
      pose proof (swap_rb_range (i + 1 + Z.of_nat n) j ltac:(lia)) as Hs.
      rewrite Hpix by lia.
      assert (4 * (i + 1) <= swap_rb j).
      { unfold swap_rb.
        destruct (Z.eqb_spec (j mod 4) 0); [lia|].
        destruct (Z.eqb_spec (j mod 4) 2); [Z.div_mod_to_equations; lia|lia]. }
      destruct (Z.leb_spec (4 * i) (swap_rb j)), (Z.ltb_spec (swap_rb j) (4 * i + 4));
        cbn [andb]; try reflexivity; lia.
    + rewrite Hpix by lia.
      destruct (Z.leb_spec (4 * i) j), (Z.ltb_spec j (4 * i + 4));
        cbn [andb]; try reflexivity; lia.
    + rewrite Hpix by lia.
      destruct (Z.leb_spec (4 * i) j), (Z.ltb_spec j (4 * i + 4));
        cbn [andb]; try reflexivity; lia.
    + rewrite Hpix by lia.
      destruct (Z.leb_spec (4 * i) j), (Z.ltb_spec j (4 * i + 4));
        cbn [andb]; try reflexivity; lia.
Qed.

(** The in-place conversion is the out-of-place one applied to a copy: on a
    buffer that holds [pixel_count] pixels, [ConvertBGRAToRGBAInPlace]
    leaves what [ConvertBGRAToRGBA_C] writes from the buffer over a copy
    of it, and running it twice gives the buffer back. *)
Theorem ConvertBGRAToRGBAInPlace_agrees (d : list Z) (pixel_count : Z) :
  0 <= pixel_count -> 4 * pixel_count <= UINT32_MAX + 1 ->
  4 * pixel_count <= zlength d ->
  ConvertBGRAToRGBAInPlace (Some d) pixel_count
  = Some (ConvertBGRAToRGBA_C d d pixel_count) /\
  (d' ← ConvertBGRAToRGBAInPlace (Some d) pixel_count;
   ConvertBGRAToRGBAInPlace (Some d') pixel_count) = Some d.
Proof.
  intros Hn Hmax Hlen.
  assert (Hin : forall buf, length buf = length d ->
    ConvertBGRAToRGBAInPlace (Some buf) pixel_count
    = Some (in_place_loop (Z.to_nat pixel_count) 0 buf)).
  { intros buf _. unfold ConvertBGRAToRGBAInPlace.
    destruct (Z.eqb_spec pixel_count 0) as [->|]; reflexivity. }
  assert (Hload : forall buf j, length buf = length d -> 0 <= j ->
    load8 (in_place_loop (Z.to_nat pixel_count) 0 buf) j
    = if (0 <=? j) && (j <? 4 * pixel_count) then load8 buf (swap_rb j)
      else load8 buf j).
  { intros buf j Hb Hj. rewrite load8_in_place_loop; unfold zlength in *; try lia.
    rewrite Z2Nat.id by lia. reflexivity. }
  split.
  - rewrite Hin by reflexivity. f_equal. unfold ConvertBGRAToRGBA_C.
    apply buffers_equal.
    + rewrite length_in_place_loop, length_bgra_scalar_loop. reflexivity.
    + intros j Hj. rewrite Hload, load8_bgra_scalar_loop by lia.
      rewrite Z2Nat.id by lia. reflexivity.
  - rewrite Hin by reflexivity. cbn [mbind option_bind].
    rewrite Hin by apply length_in_place_loop. f_equal.
    apply buffers_equal; [rewrite !length_in_place_loop; reflexivity|].
    intros j Hj. rewrite Hload by (try apply length_in_place_loop; lia).
    destruct (Z.leb_spec 0 j), (Z.ltb_spec j (4 * pixel_count)); cbn [andb];
      try lia.
    + pose proof (swap_rb_range pixel_count j ltac:(lia)) as Hs.
      rewrite Hload by (reflexivity || lia).
      destruct (Z.leb_spec 0 (swap_rb j)), (Z.ltb_spec (swap_rb j) (4 * pixel_count));
        cbn [andb]; try lia.
      rewrite swap_rb_involutive. reflexivity.
    + rewrite Hload by (reflexivity || lia).
      destruct (Z.leb_spec 0 j), (Z.ltb_spec j (4 * pixel_count)); cbn [andb];
        try reflexivity; lia.
Qed.

Lemma ConvertBGRAToRGBAInPlace_agrees_witness :
  ConvertBGRAToRGBAInPlace (Some four_pixels) 3
  = Some (ConvertBGRAToRGBA_C four_pixels four_pixels 3) /\
  (d' ← ConvertBGRAToRGBAInPlace (Some four_pixels) 3;
   ConvertBGRAToRGBAInPlace (Some d') 3) = Some four_pixels.
Proof.
  apply (ConvertBGRAToRGBAInPlace_agrees four_pixels 3);
    unfold UINT32_MAX, zlength; cbn; lia.
Defined.

Lemma length_rgb_scalar_loop rgba n : forall i rgb,
  length (rgb_scalar_loop n i rgba rgb) = length rgb.
Proof.
  induction n as [|n IH]; intros i rgb; [reflexivity|].
  cbn [rgb_scalar_loop]. rewrite IH. unfold rgba_to_rgb_pixel.
  rewrite !length_store8. reflexivity.
Qed.

Lemma load8_rgb_scalar_loop rgba n : forall i rgb j,
  0 <= i -> 4 * (i + Z.of_nat n) <= UINT32_MAX + 1 ->
  3 * (i + Z.of_nat n) <= zlength rgb -> 0 <= j ->
  load8 (rgb_scalar_loop n i rgba rgb) j
  = if (3 * i <=? j) && (j <? 3 * (i + Z.of_nat n)) then load8 rgba (j + j / 3)
    else load8 rgb j.
Proof.
  induction n as [|n IH]; intros i rgb j Hi Hmax Hlen Hj.
  - cbn [rgb_scalar_loop].
    destruct (Z.leb_spec (3 * i) j), (Z.ltb_spec j (3 * (i + Z.of_nat 0)));
      cbn [andb]; try reflexivity; lia.
  - cbn [rgb_scalar_loop].
    rewrite rgba_to_rgb_pixel_at by (unfold UINT32_MAX in *; lia).
    rewrite IH; [|lia|lia| |lia];
      [|unfold zlength in *; unfold rgb_pixel_at; rewrite !length_store8; lia].
    unfold rgb_pixel_at. rewrite !load8_store8 by lia.
    unfold zlength in *. rewrite !length_store8.
    decide_tests; try reflexivity; f_equal; Z.div_mod_to_equations; lia.
Qed.

(** The scalar reference of the RGBA to RGB conversion, on buffers that
    hold [pixel_count] pixels: destination pixel [k] is the first three
    bytes of source pixel [k], the alpha byte is dropped; the destination
    keeps its length and everything behind the last pixel. *)
Theorem ConvertRGBAToRGB_C_drops_alpha (rgba rgb : list Z) (pixel_count : Z) :
  0 <= pixel_count -> 4 * pixel_count <= UINT32_MAX + 1 ->
  4 * pixel_count <= zlength rgba -> 3 * pixel_count <= zlength rgb ->
  let out := ConvertRGBAToRGB_C rgba rgb pixel_count in
  length out = length rgb /\
  (forall k c, 0 <= k < pixel_count -> 0 <= c < 3 ->
     load8 out (3 * k + c) = load8 rgba (4 * k + c)) /\
  (forall j, 3 * pixel_count <= j -> load8 out j = load8 rgb j).
Proof.
  intros Hn Hmax Hsrc Hdst. cbv zeta. unfold ConvertRGBAToRGB_C.
  split; [apply length_rgb_scalar_loop|]. split.
  - intros k c Hk Hc. rewrite load8_rgb_scalar_loop by lia.
    rewrite Z2Nat.id by lia.
    destruct (Z.leb_spec (3 * 0) (3 * k + c)),
      (Z.ltb_spec (3 * k + c) (3 * (0 + pixel_count))); cbn [andb]; try lia.
    f_equal. replace ((3 * k + c) / 3) with k by (Z.div_mod_to_equations; lia).
    lia.
  - intros j Hj. rewrite load8_rgb_scalar_loop by lia.
    rewrite Z2Nat.id by lia.
    destruct (Z.leb_spec (3 * 0) j), (Z.ltb_spec j (3 * (0 + pixel_count)));
      cbn [andb]; try reflexivity; lia.
Qed.

Lemma ConvertRGBAToRGB_C_drops_alpha_witness :
  let out := ConvertRGBAToRGB_C four_pixels (repeat 9 8) 2 in
  load8 out 0 = 1 /\ load8 out 3 = 16 /\ load8 out 5 = 64 /\ load8 out 6 = 9.
Proof.
  cbv zeta.
  destruct (ConvertRGBAToRGB_C_drops_alpha four_pixels (repeat 9 8) 2)
    as (_ & Hpix & Hrest); try (unfold UINT32_MAX, zlength; cbn; lia).
  split; [apply (Hpix 0 0); lia|]. split; [apply (Hpix 1 0); lia|].
  split; [apply (Hpix 1 2); lia|]. apply (Hrest 6). lia.
Defined.

(** *** The public entry points *)







End SIMD.

(** ** ultra_streaming_pipeline.cc: configuration, tiling, composer *)

Module UltraStreaming.

(** [struct StreamingChunk]. *)
Record StreamingChunk := {
  pixel_data : list Z;
  width : Z;
  height : Z;
  stride : Z;
  x_offset : Z;
  y_offset : Z;
  chunk_id : Z;
  is_final_chunk : bool
}.

(** [struct StreamingStats]; the two [double] fields are kept as rationals. *)
Record StreamingStats := {
  total_pixels_processed : Z;
  total_chunks_processed : Z;
  peak_memory_usage_mb : Z;
  average_throughput_mpixels_per_sec : Q;
  active_worker_threads : Z;
  compression_ratio : Q
}.

(** The data members of [class UltraStreamingPipeline] that the modelled
    functions read or write. *)
Record UltraStreamingPipeline := {
  chunk_width_ : Z;
  chunk_height_ : Z;
  max_memory_usage_mb_ : Z;
  compression_level_ : Z;
  worker_thread_count_ : Z;
  stats_ : StreamingStats;
  current_memory_usage_ : Z
}.

(** The member initialisers and the constructor's [memset] of [stats_]. *)
Definition new_pipeline : UltraStreamingPipeline := {|
  chunk_width_ := 512;
  chunk_height_ := 512;
  max_memory_usage_mb_ := 1024;
  compression_level_ := 6;
  worker_thread_count_ := 0;
  stats_ := {| total_pixels_processed := 0; total_chunks_processed := 0;
               peak_memory_usage_mb := 0;
               average_throughput_mpixels_per_sec := 0 # 1;
               active_worker_threads := 0; compression_ratio := 0 # 1 |};
  current_memory_usage_ := 0
|}.

(** [Initialize(worker_threads)]; [hardware_concurrency] is what
    [std::thread::hardware_concurrency()] reports. *)
Definition Initialize (hardware_concurrency worker_threads : Z)
    (p : UltraStreamingPipeline) : UltraStreamingPipeline :=
  let n := if worker_threads =? 0 then Z.max 2 hardware_concurrency
           else worker_threads in
  {| chunk_width_ := chunk_width_ p;
     chunk_height_ := chunk_height_ p;
     max_memory_usage_mb_ := max_memory_usage_mb_ p;
     compression_level_ := compression_level_ p;
     worker_thread_count_ := n;
     stats_ :=
       {| total_pixels_processed := total_pixels_processed (stats_ p);
          total_chunks_processed := total_chunks_processed (stats_ p);
          peak_memory_usage_mb := peak_memory_usage_mb (stats_ p);
          average_throughput_mpixels_per_sec :=
            average_throughput_mpixels_per_sec (stats_ p);
          active_worker_threads := n;
          compression_ratio := compression_ratio (stats_ p) |};
     current_memory_usage_ := current_memory_usage_ p |}.

(** [SetChunkSize]: [std::max(64u, width)], [std::max(64u, height)]. *)
Definition SetChunkSize (w h : Z) (p : UltraStreamingPipeline)
    : UltraStreamingPipeline :=
  {| chunk_width_ := Z.max 64 w;
     chunk_height_ := Z.max 64 h;
     max_memory_usage_mb_ := max_memory_usage_mb_ p;
     compression_level_ := compression_level_ p;
     worker_thread_count_ := worker_thread_count_ p;
     stats_ := stats_ p;
     current_memory_usage_ := current_memory_usage_ p |}.

(** [SetMaxMemoryUsage]: [std::max(256ULL, max_memory_mb)]. *)
Definition SetMaxMemoryUsage (max_memory_mb : Z) (p : UltraStreamingPipeline)
    : UltraStreamingPipeline :=
  {| chunk_width_ := chunk_width_ p;
     chunk_height_ := chunk_height_ p;
     max_memory_usage_mb_ := Z.max 256 max_memory_mb;
     compression_level_ := compression_level_ p;
     worker_thread_count_ := worker_thread_count_ p;
     stats_ := stats_ p;
     current_memory_usage_ := current_memory_usage_ p |}.

(** [std::clamp(v, lo, hi)] is [(v < lo) ? lo : (hi < v) ? hi : v]. *)
Definition clamp (v lo hi : Z) : Z :=
  if v <? lo then lo else if hi <? v then hi else v.

(** [SetCompressionLevel]: [std::clamp(level, 1, 9)]. *)
Definition SetCompressionLevel (level : Z) (p : UltraStreamingPipeline)
    : UltraStreamingPipeline :=
  {| chunk_width_ := chunk_width_ p;
     chunk_height_ := chunk_height_ p;
     max_memory_usage_mb_ := max_memory_usage_mb_ p;
     compression_level_ := clamp level 1 9;
     worker_thread_count_ := worker_thread_count_ p;
     stats_ := stats_ p;
     current_memory_usage_ := current_memory_usage_ p |}.

(** [InitializeUltraStreaming(worker_threads)] on the global
    [g_streaming_pipeline], [None] while it is a null pointer. *)
Definition InitializeUltraStreaming (hardware_concurrency worker_threads : Z)
    (g : option UltraStreamingPipeline) : option UltraStreamingPipeline :=
  let p := match g with Some p => p | None => new_pipeline end in
  Some (Initialize hardware_concurrency worker_threads p).

(** [ConfigureUltraStreaming]: the global pipeline after the call. A missing
    pipeline is first created by [InitializeUltraStreaming()], whose
    argument defaults to 0. *)
Definition ConfigureUltraStreaming (hardware_concurrency : Z)
    (chunk_width chunk_height max_memory_mb compression_level : Z)
    (g : option UltraStreamingPipeline) : UltraStreamingPipeline :=
  let g := match g with
           | Some p => Some p
           | None => InitializeUltraStreaming hardware_concurrency 0 None
           end in
  let p := match g with Some p => p | None => new_pipeline end in
  SetCompressionLevel compression_level
    (SetMaxMemoryUsage max_memory_mb
       (SetChunkSize chunk_width chunk_height p)).

(** [CanAllocateMemory]: the budget in bytes is
    [max_memory_usage_mb_ * 1024 * 1024] in [uint64_t]. *)
Definition max_usage (p : UltraStreamingPipeline) : Z :=
  wrap64 (max_memory_usage_mb_ p * 1024 * 1024).

Definition CanAllocateMemory (p : UltraStreamingPipeline) (requested_bytes : Z)
    : bool :=
  wrap64 (current_memory_usage_ p + requested_bytes) <=? max_usage p.

(** [std::memcpy(dst + dst_off, src + src_off, n)]. *)
Definition memcpy (dst : list Z) (dst_off : Z) (src : list Z) (src_off n : Z)
    : list Z :=
  store_bytes dst (Z.to_nat dst_off)
    (sub_bytes (Z.to_nat src_off) (Z.to_nat n) src).

(** The row loop of [CreateChunks], [n] rows left from row [row]. *)
Fixpoint extract_rows (n : nat) (row : Z) (screenshot : Screenshot.ScreenshotResult)
    (xo yo chunk_stride : Z) (dst : list Z) : list Z :=
  match n with
  | O => dst
  | S n' =>
      let src_off :=
        wrap32 (wrap32 (yo + row) * Screenshot.stride screenshot)
        + wrap32 (xo * Screenshot.bytes_per_pixel screenshot) in
      let dst_off := wrap32 (row * chunk_stride) in
      extract_rows n' (row + 1) screenshot xo yo chunk_stride
        (memcpy dst dst_off (default [] (Screenshot.data screenshot))
           src_off chunk_stride)
  end.

(** The body of the inner loop: the chunk at grid position ([x], [y]). The
    buffer [AllocateScreenshotBuffer] hands out is taken as a zeroed block
    of [chunk_size] bytes; which allocation backs it is not tracked here. *)
Definition make_chunk (p : UltraStreamingPipeline)
    (screenshot : Screenshot.ScreenshotResult) (chunks_x chunks_y x y id : Z)
    : StreamingChunk :=
  let xo := wrap32 (x * chunk_width_ p) in
  let yo := wrap32 (y * chunk_height_ p) in
  let w := Z.min (chunk_width_ p) (wrap32 (Screenshot.width screenshot - xo)) in
  let h := Z.min (chunk_height_ p) (wrap32 (Screenshot.height screenshot - yo)) in
  let st := wrap32 (w * Screenshot.bytes_per_pixel screenshot) in
  let chunk_size := wrap32 (h * st) in
  {| pixel_data :=
       extract_rows (Z.to_nat h) 0 screenshot xo yo st
         (repeat 0 (Z.to_nat chunk_size));
     width := w;
     height := h;
     stride := st;
     x_offset := xo;
     y_offset := yo;
     chunk_id := id;
     is_final_chunk :=
       (x =? wrap32 (chunks_x - 1)) && (y =? wrap32 (chunks_y - 1)) |}.

(** [for (x = ...; x < chunks_x; ++x)], [n] iterations left; the state is
    the vector and the running [chunk_id]. *)
Fixpoint inner_loop (n : nat) (p : UltraStreamingPipeline)
    (screenshot : Screenshot.ScreenshotResult) (chunks_x chunks_y x y : Z)
    (st : list StreamingChunk * Z) : list StreamingChunk * Z :=
  match n with
  | O => st
  | S n' =>
      let chunk := make_chunk p screenshot chunks_x chunks_y x y (snd st) in
      inner_loop n' p screenshot chunks_x chunks_y (x + 1) y
        (fst st ++ [chunk], wrap32 (snd st + 1))
  end.

(** [for (y = ...; y < chunks_y; ++y)], [n] iterations left. *)
Fixpoint outer_loop (n : nat) (p : UltraStreamingPipeline)
    (screenshot : Screenshot.ScreenshotResult) (chunks_x chunks_y y : Z)
    (st : list StreamingChunk * Z) : list StreamingChunk * Z :=
  match n with
  | O => st
  | S n' =>
      outer_loop n' p screenshot chunks_x chunks_y (y + 1)
        (inner_loop (Z.to_nat chunks_x) p screenshot chunks_x chunks_y 0 y st)
  end.

Definition grid_x (p : UltraStreamingPipeline)
    (screenshot : Screenshot.ScreenshotResult) : Z :=
  wrap32 (Screenshot.width screenshot + chunk_width_ p - 1) / chunk_width_ p.

Definition grid_y (p : UltraStreamingPipeline)
    (screenshot : Screenshot.ScreenshotResult) : Z :=
  wrap32 (Screenshot.height screenshot + chunk_height_ p - 1) / chunk_height_ p.

(** [UltraStreamingPipeline::CreateChunks]. *)
Definition CreateChunks (p : UltraStreamingPipeline)
    (screenshot : Screenshot.ScreenshotResult) : list StreamingChunk :=
  let chunks_x := grid_x p screenshot in
  let chunks_y := grid_y p screenshot in
  fst (outer_loop (Z.to_nat chunks_y) p screenshot chunks_x chunks_y 0 ([], 0)).

(** [UltraStreamingPipeline::CombineEncodedChunks]: the twelve bytes of
    ["RIFF\0\0\0\0WEBP"], the chunks, then [file_size] copied over bytes
    4..7 (little-endian on the supported x86 and ARM targets). *)
Definition CombineEncodedChunks (encoded_chunks : list (list Z))
    (total_width total_height : Z) : list Z :=
  let webp_header :=
    bytes_of_string "RIFF" ++ [0; 0; 0; 0] ++ bytes_of_string "WEBP" in
  let combined_result := webp_header in
  let combined_result :=
    fold_left (fun acc chunk => acc ++ chunk) encoded_chunks combined_result in
  let file_size := wrap32 (zlength combined_result - 8) in
  store_bytes combined_result 4 (le_bytes32 file_size).

(** *** Tiling: the loops in closed form *)

(** [f 0; f 1; ...; f (n - 1)]. *)
Definition tabulate {A} (n : nat) (f : Z -> A) : list A :=
  map (fun k => f (Z.of_nat k)) (seq 0 n).

(** The chunk at position [i] of the vector: row-major over the grid. *)
Definition chunk_at (p : UltraStreamingPipeline)
    (screenshot : Screenshot.ScreenshotResult) (i : Z) : StreamingChunk :=
  let chunks_x := grid_x p screenshot in
  let chunks_y := grid_y p screenshot in
  make_chunk p screenshot chunks_x chunks_y (i mod chunks_x) (i / chunks_x)
    (wrap32 i).

(** The ceiling of [a / b]. *)
Definition ceil_div (a b : Z) : Z := - ((- a) / b).

(** The pixel ([px], [py]) lies in the rectangle of chunk [c]. *)
Definition covers (px py : Z) (c : StreamingChunk) : bool :=
  (x_offset c <=? px) && (px <? x_offset c + width c) &&
  (y_offset c <=? py) && (py <? y_offset c + height c).

Lemma length_tabulate {A} n (f : Z -> A) : length (tabulate n f) = n.
Proof. unfold tabulate. rewrite length_map, length_seq. reflexivity. Qed.

Lemma lookup_tabulate {A} n (f : Z -> A) i :
  (i < n)%nat -> tabulate n f !! i = Some (f (Z.of_nat i)).
Proof.
  intros Hi. unfold tabulate. rewrite list_lookup_fmap.
  rewrite lookup_seq_lt by assumption. reflexivity.
Qed.

Lemma tabulate_S {A} n (f : Z -> A) :
  tabulate (S n) f = f 0 :: tabulate n (fun k => f (1 + k)).
Proof.
  unfold tabulate. cbn [seq map]. f_equal.
  rewrite <- seq_shift, map_map. apply map_ext. intros k.
  f_equal. lia.
Qed.

Lemma tabulate_ext {A} n (f g : Z -> A) :
  (forall k, 0 <= k < Z.of_nat n -> f k = g k) -> tabulate n f = tabulate n g.
Proof.
  intros H. unfold tabulate. apply map_ext_in. intros k Hk.
  apply in_seq in Hk. apply H. lia.
Qed.

Lemma tabulate_app {A} a b (f : Z -> A) :
  tabulate (a + b) f = tabulate a f ++ tabulate b (fun k => f (Z.of_nat a + k)).
Proof.
  induction a as [|a IH] in f |- *.
  - simpl. apply tabulate_ext. intros k _. f_equal.
  - cbn [Nat.add]. rewrite !tabulate_S, IH. cbn [app]. do 2 f_equal.
    apply tabulate_ext. intros k _. f_equal. lia.
Qed.

Lemma wrap32_succ z : wrap32 (wrap32 z + 1) = wrap32 (z + 1).
Proof. unfold wrap32. rewrite Zplus_mod_idemp_l. reflexivity. Qed.

Lemma inner_loop_spec p s cx cy y n : forall x l,
  inner_loop n p s cx cy x y (l, wrap32 (zlength l))
  = (l ++ tabulate n (fun k => make_chunk p s cx cy (x + k) y
                                 (wrap32 (zlength l + k))),
     wrap32 (zlength l + Z.of_nat n)).
Proof.
  induction n as [|n IH]; intros x l.
  - simpl. rewrite app_nil_r, Z.add_0_r. reflexivity.
  - cbn [inner_loop fst snd].
    assert (Hlen : zlength (l ++ [make_chunk p s cx cy x y (wrap32 (zlength l))])
                   = zlength l + 1).
    { unfold zlength. rewrite length_app. simpl. lia. }
    rewrite wrap32_succ, <- Hlen, IH, Hlen, tabulate_S, <- app_assoc.
    cbn [app]. rewrite !Z.add_0_r. f_equal.
    + do 2 f_equal. apply tabulate_ext. intros k _.
      replace (x + (1 + k)) with (x + 1 + k) by lia.
      replace (zlength l + (1 + k)) with (zlength l + 1 + k) by lia.
      reflexivity.
    + f_equal. lia.
Qed.

Lemma outer_loop_spec p s cx cy n : forall y,
  0 <= cx -> 0 <= y ->
  outer_loop n p s cx cy y
    (tabulate (Z.to_nat (y * cx))
       (fun i => make_chunk p s cx cy (i mod cx) (i / cx) (wrap32 i)),
     wrap32 (y * cx))
  = (tabulate (Z.to_nat ((y + Z.of_nat n) * cx))
       (fun i => make_chunk p s cx cy (i mod cx) (i / cx) (wrap32 i)),
     wrap32 ((y + Z.of_nat n) * cx)).
Proof.
  induction n as [|n IH]; intros y Hcx Hy.
  - simpl. rewrite Z.add_0_r. reflexivity.
  - cbn [outer_loop].
    set (F := fun i => make_chunk p s cx cy (i mod cx) (i / cx) (wrap32 i)).
    assert (Hl : zlength (tabulate (Z.to_nat (y * cx)) F) = y * cx).
    { unfold zlength. rewrite length_tabulate. nia. }
    rewrite <- Hl at 2. rewrite inner_loop_spec, Hl.
    replace (tabulate (Z.to_nat (y * cx)) F
             ++ tabulate (Z.to_nat cx)
                  (fun k => make_chunk p s cx cy (0 + k) y (wrap32 (y * cx + k))))
      with (tabulate (Z.to_nat ((y + 1) * cx)) F).
    + replace (y * cx + Z.of_nat (Z.to_nat cx)) with ((y + 1) * cx) by lia.
      rewrite IH by lia. do 3 f_equal; lia.
    + replace (Z.to_nat ((y + 1) * cx))
        with (Z.to_nat (y * cx) + Z.to_nat cx)%nat by nia.
      rewrite tabulate_app. f_equal.
      apply tabulate_ext. intros k Hk. unfold F.
      rewrite Z2Nat.id by nia.
      assert (Hmod : (y * cx + k) mod cx = k).
      { rewrite Z.add_comm, Z_mod_plus_full. apply Z.mod_small. lia. }
      assert (Hdiv : (y * cx + k) / cx = y).
      { rewrite Z.add_comm, Z_div_plus_full by lia.
        rewrite Z.div_small by lia. lia. }
      rewrite Hmod, Hdiv. reflexivity.
Qed.

Lemma outer_loop_no_columns p s cx cy n : forall y st,
  Z.to_nat cx = 0%nat -> outer_loop n p s cx cy y st = st.
Proof.
  induction n as [|n IH]; intros y st Hcx; [reflexivity|].
  cbn [outer_loop]. rewrite Hcx. cbn [inner_loop]. apply IH. exact Hcx.
Qed.

(** [CreateChunks] returns the chunks of the grid in row-major order. *)
Lemma CreateChunks_closed_form p s :
  CreateChunks p s
  = tabulate (Z.to_nat (grid_x p s) * Z.to_nat (grid_y p s)) (chunk_at p s).
Proof.
  unfold CreateChunks.
  destruct (Z.leb_spec 0 (grid_x p s)) as [Hx|Hx].
  - destruct (Z.leb_spec 0 (grid_y p s)) as [Hy|Hy].
    + pose proof (outer_loop_spec p s (grid_x p s) (grid_y p s)
                    (Z.to_nat (grid_y p s)) 0 Hx (Z.le_refl 0)) as H.
      rewrite Z.mul_0_l in H. change (wrap32 0) with 0 in H.
      change (tabulate (Z.to_nat 0) ?f) with (@nil StreamingChunk) in H.
      rewrite H. cbn [fst].
      rewrite Z2Nat.id by assumption.
      replace (Z.to_nat ((0 + grid_y p s) * grid_x p s))
        with (Z.to_nat (grid_x p s) * Z.to_nat (grid_y p s))%nat by nia.
      reflexivity.
    + replace (Z.to_nat (grid_y p s)) with 0%nat by lia.
      rewrite Nat.mul_0_r. reflexivity.
  - rewrite outer_loop_no_columns by lia.
    replace (Z.to_nat (grid_x p s)) with 0%nat by lia. reflexivity.
Qed.

(** *** Tiling: geometry of the grid when the rounding-up sum does not wrap *)

Lemma ceil_div_bounds a b :
  0 < b -> 0 <= a ->
  0 <= ceil_div a b /\ (ceil_div a b - 1) * b < a <= ceil_div a b * b.
Proof.
  intros Hb Ha. unfold ceil_div.
  pose proof (Z.div_mod (- a) b ltac:(lia)) as Hdm.
  pose proof (Z.mod_pos_bound (- a) b Hb) as Hm.
  nia.
Qed.

Lemma rounded_up_quotient a b :
  0 < b -> 0 <= a -> a + b - 1 <= UINT32_MAX ->
  wrap32 (a + b - 1) / b = ceil_div a b.
Proof.
  intros Hb Ha Hmax. rewrite wrap32_small by lia.
  destruct (ceil_div_bounds a b Hb Ha) as (Hc0 & Hc1 & Hc2).
  symmetry. apply Z.div_unique with (r := a + b - 1 - b * ceil_div a b); nia.
Qed.

(** One axis of the grid: tile [k] of [n = ceil (L / T)] starts at [k * T],
    is clipped to the length [L], and holds exactly the positions whose
    quotient by [T] is [k]. *)
Lemma axis_tile T L k :
  0 < T -> 0 <= L -> L <= UINT32_MAX -> 0 <= k < ceil_div L T ->
  wrap32 (k * T) = k * T /\
  wrap32 (L - k * T) = L - k * T /\
  0 < Z.min T (L - k * T) /\
  k * T + Z.min T (L - k * T) <= L /\
  (forall q, 0 <= q < L ->
     (k * T <= q < k * T + Z.min T (L - k * T)) <-> k = q / T).
Proof.
  intros HT HL Hmax Hk.
  destruct (ceil_div_bounds L T HT HL) as (Hc0 & Hc1 & Hc2).
  assert (Hoff : 0 <= k * T < L) by nia.
  split; [apply wrap32_small; lia|].
  split; [apply wrap32_small; lia|].
  split; [lia|]. split; [lia|].
  intros q Hq. split.
  - intros Hin. apply Z.div_unique with (r := q - T * k); lia.
  - intros ->. pose proof (Z.div_mod q T ltac:(lia)).
    pose proof (Z.mod_pos_bound q T HT). nia.
Qed.

Lemma grid_position cx cy i :
  0 <= i < cx * cy -> 0 <= cx ->
  0 <= i mod cx < cx /\ 0 <= i / cx < cy.
Proof.
  intros Hi Hcx.
  assert (0 < cx) by (destruct (Z.eq_dec cx 0) as [E|E]; [rewrite E in Hi|]; lia).
  split; [apply Z.mod_pos_bound; lia|].
  split; [apply Z.div_pos; lia|].
  apply Z.div_lt_upper_bound; lia.
Qed.

Section TilingGeometry.

Variable p : UltraStreamingPipeline.
Variable s : Screenshot.ScreenshotResult.

Let W := Screenshot.width s.
Let H := Screenshot.height s.
Let Tw := chunk_width_ p.
Let Th := chunk_height_ p.

Hypothesis tile_width_clamped : 64 <= Tw.
Hypothesis tile_height_clamped : 64 <= Th.
Hypothesis width_nonneg : 0 <= W.
Hypothesis height_nonneg : 0 <= H.
Hypothesis columns_do_not_wrap : W + Tw - 1 <= UINT32_MAX.
Hypothesis rows_do_not_wrap : H + Th - 1 <= UINT32_MAX.

Lemma grid_x_ceil : grid_x p s = ceil_div W Tw.
Proof. unfold grid_x. apply rounded_up_quotient; subst W Tw; lia. Qed.

Lemma grid_y_ceil : grid_y p s = ceil_div H Th.
Proof. unfold grid_y. apply rounded_up_quotient; subst H Th; lia. Qed.

Lemma CreateChunks_count :
  zlength (CreateChunks p s) = ceil_div W Tw * ceil_div H Th.
Proof.
  rewrite CreateChunks_closed_form. unfold zlength.
  rewrite length_tabulate, grid_x_ceil, grid_y_ceil.
  destruct (ceil_div_bounds W Tw) as (? & _); [lia..|].
  destruct (ceil_div_bounds H Th) as (? & _); [lia..|].
  nia.
Qed.

Lemma CreateChunks_lookup i c :
  CreateChunks p s !! i = Some c ->
  0 <= Z.of_nat i < ceil_div W Tw * ceil_div H Th /\ c = chunk_at p s (Z.of_nat i).
Proof.
  intros Hi. pose proof (lookup_lt_Some _ _ _ Hi) as Hlt.
  pose proof CreateChunks_count as Hn. unfold zlength in Hn.
  split; [lia|].
  rewrite CreateChunks_closed_form in Hi.
  rewrite lookup_tabulate in Hi; [congruence|].
  rewrite CreateChunks_closed_form, length_tabulate in Hlt. exact Hlt.
Qed.

(** The fields of the chunk at index [i]. *)
Lemma chunk_at_geometry i :
  0 <= i < ceil_div W Tw * ceil_div H Th ->
  let c := chunk_at p s i in
  x_offset c = (i mod ceil_div W Tw) * Tw /\
  y_offset c = (i / ceil_div W Tw) * Th /\
  width c = Z.min Tw (W - x_offset c) /\
  height c = Z.min Th (H - y_offset c) /\
  chunk_id c = wrap32 i /\
  is_final_chunk c = (i =? ceil_div W Tw * ceil_div H Th - 1).
Proof.
  intros Hi c. subst c.
  destruct (ceil_div_bounds W Tw) as (Hcx & Hcx1 & Hcx2); [lia..|].
  destruct (ceil_div_bounds H Th) as (Hcy & Hcy1 & Hcy2); [lia..|].
  destruct (grid_position _ _ i Hi Hcx) as (Hx & Hy).
  destruct (axis_tile Tw W (i mod ceil_div W Tw)) as (Hxo & Hxw & _); [lia..|].
  destruct (axis_tile Th H (i / ceil_div W Tw)) as (Hyo & Hyw & _); [lia..|].
  unfold chunk_at, make_chunk. cbn [x_offset y_offset width height chunk_id is_final_chunk].
  rewrite grid_x_ceil, grid_y_ceil. fold W H Tw Th.
  rewrite Hxo, Hyo, Hxw, Hyw.
  repeat split.
  rewrite !wrap32_small by (unfold UINT32_MAX in *; nia).
  pose proof (Z.div_mod i (ceil_div W Tw) ltac:(lia)) as Hdm.
  destruct (Z.eqb_spec i (ceil_div W Tw * ceil_div H Th - 1)) as [E|E].
  - assert (i / ceil_div W Tw = ceil_div H Th - 1) by nia.
    assert (i mod ceil_div W Tw = ceil_div W Tw - 1) by nia.
    apply andb_true_intro. split; apply Z.eqb_eq; lia.
  - apply andb_false_iff.
    destruct (Z.eqb_spec (i mod ceil_div W Tw) (ceil_div W Tw - 1)) as [E1|E1];
      [|left; reflexivity].
    destruct (Z.eqb_spec (i / ceil_div W Tw) (ceil_div H Th - 1)) as [E2|E2];
      [|right; reflexivity].
    exfalso. apply E. nia.
Qed.

Lemma chunk_at_covers i px py :
  0 <= i < ceil_div W Tw * ceil_div H Th -> 0 <= px < W -> 0 <= py < H ->
  covers px py (chunk_at p s i) = true <->
  i mod ceil_div W Tw = px / Tw /\ i / ceil_div W Tw = py / Th.
Proof.
  intros Hi Hpx Hpy.
  destruct (ceil_div_bounds W Tw) as (Hcx & _); [lia..|].
  destruct (grid_position _ _ i Hi Hcx) as (Hx & Hy).
  destruct (chunk_at_geometry i Hi) as (Hxo & Hyo & Hw & Hh & _).
  destruct (axis_tile Tw W (i mod ceil_div W Tw)) as (_ & _ & _ & _ & Hcolumn); [lia..|].
  destruct (axis_tile Th H (i / ceil_div W Tw)) as (_ & _ & _ & _ & Hrow); [lia..|].
  unfold covers. rewrite Hw, Hh, Hxo, Hyo.
  rewrite !andb_true_iff, !Z.leb_le, !Z.ltb_lt.
  rewrite <- (Hcolumn px Hpx), <- (Hrow py Hpy). tauto.
Qed.

Lemma CreateChunks_lookup_index i :
  0 <= i < ceil_div W Tw * ceil_div H Th ->
  CreateChunks p s !! Z.to_nat i = Some (chunk_at p s i).
Proof.
  intros Hi. pose proof CreateChunks_count as Hn. unfold zlength in Hn.
  rewrite CreateChunks_closed_form in *. rewrite length_tabulate in Hn.
  rewrite lookup_tabulate by lia. rewrite Z2Nat.id by lia. reflexivity.
Qed.

(** Tiling exactness, on frames and tile sizes whose rounding-up sums
    [W + Tw - 1] and [H + Th - 1] fit [uint32_t]: [CreateChunks] returns
    [ceil (W / Tw) * ceil (H / Th)] chunks in row-major order, every chunk
    is a non-empty rectangle inside the frame, clipped at the right and
    bottom edges, every pixel of the frame lies in exactly one chunk, and
    the last chunk, and only it, has [is_final_chunk]. *)
Theorem CreateChunks_tiles_frame :
  zlength (CreateChunks p s) = ceil_div W Tw * ceil_div H Th /\
  (forall i c, CreateChunks p s !! i = Some c ->
     x_offset c = (Z.of_nat i mod ceil_div W Tw) * Tw /\
     y_offset c = (Z.of_nat i / ceil_div W Tw) * Th /\
     width c = Z.min Tw (W - x_offset c) /\
     height c = Z.min Th (H - y_offset c) /\
     0 < width c /\ 0 < height c /\
     x_offset c + width c <= W /\ y_offset c + height c <= H /\
     chunk_id c = wrap32 (Z.of_nat i) /\
     is_final_chunk c = (Z.of_nat i =? zlength (CreateChunks p s) - 1)) /\
  (forall px py, 0 <= px < W -> 0 <= py < H ->
     exists i c, CreateChunks p s !! i = Some c /\ covers px py c = true /\
       forall j c', CreateChunks p s !! j = Some c' ->
                    covers px py c' = true -> j = i).
Proof.
  destruct (ceil_div_bounds W Tw) as (Hcx & Hcx1 & Hcx2); [lia..|].
  destruct (ceil_div_bounds H Th) as (Hcy & Hcy1 & Hcy2); [lia..|].
  split; [exact CreateChunks_count|]. split.
  - intros i c Hlook.
    destruct (CreateChunks_lookup i c Hlook) as (Hi & ->).
    destruct (chunk_at_geometry _ Hi) as (Hxo & Hyo & Hw & Hh & Hid & Hfin).
    destruct (grid_position _ _ _ Hi Hcx) as (Hx & Hy).
    destruct (axis_tile Tw W (Z.of_nat i mod ceil_div W Tw))
      as (_ & _ & Hw0 & Hw1 & _); [lia..|].
    destruct (axis_tile Th H (Z.of_nat i / ceil_div W Tw))
      as (_ & _ & Hh0 & Hh1 & _); [lia..|].
    rewrite CreateChunks_count, Hw, Hh, Hxo, Hyo.
    repeat split; assumption.
  - intros px py Hpx Hpy.
    assert (Hx : 0 <= px / Tw < ceil_div W Tw).
    { split; [apply Z.div_pos; lia|apply Z.div_lt_upper_bound; nia]. }
    assert (Hy : 0 <= py / Th < ceil_div H Th).
    { split; [apply Z.div_pos; lia|apply Z.div_lt_upper_bound; nia]. }
    set (i := py / Th * ceil_div W Tw + px / Tw).
    assert (Hi : 0 <= i < ceil_div W Tw * ceil_div H Th) by (subst i; nia).
    assert (Hmod : i mod ceil_div W Tw = px / Tw).
    { subst i. rewrite Z.add_comm, Z_mod_plus_full. apply Z.mod_small. lia. }
    assert (Hdiv : i / ceil_div W Tw = py / Th).
    { subst i. rewrite Z.add_comm, Z_div_plus_full by lia.
      rewrite Z.div_small by lia. lia. }
    exists (Z.to_nat i), (chunk_at p s i).
    split; [apply CreateChunks_lookup_index; exact Hi|].
    split; [apply chunk_at_covers; auto|].
    intros j c' Hlook Hcov.
    destruct (CreateChunks_lookup j c' Hlook) as (Hj & ->).
    apply chunk_at_covers in Hcov; [|assumption..].
    destruct Hcov as (Hjx & Hjy).
    pose proof (Z.div_mod (Z.of_nat j) (ceil_div W Tw) ltac:(lia)) as Hdj.
    pose proof (Z.div_mod i (ceil_div W Tw) ltac:(lia)) as Hdi.
    rewrite Hjx, Hjy in Hdj. rewrite Hmod, Hdiv in Hdi. lia.
Qed.

End TilingGeometry.

(** The frame of the specification's scenario: 100x100 on 64x64 tiles. *)
Definition frame (w h : Z) : Screenshot.ScreenshotResult := {|
  Screenshot.data := Some (repeat 0 (Z.to_nat (w * h * 4)));
  Screenshot.width := w;
  Screenshot.height := h;
  Screenshot.stride := w * 4;
  Screenshot.bytes_per_pixel := 4;
  Screenshot.data_size := w * h * 4;
  Screenshot.success := true;
  Screenshot.error_message := "";
  Screenshot.format := "RGBA";
  Screenshot.implementation := ""
|}.

Example CreateChunks_100x100 :
  map (fun c => (x_offset c, y_offset c, width c, height c, chunk_id c,
                 is_final_chunk c))
      (CreateChunks (SetChunkSize 64 64 new_pipeline) (frame 100 100))
  = [(0, 0, 64, 64, 0, false); (64, 0, 36, 64, 1, false);
     (0, 64, 64, 36, 2, false); (64, 64, 36, 36, 3, true)].
Proof. lazy. reflexivity. Qed.

Lemma CreateChunks_tiles_frame_witness :
  let p := SetChunkSize 64 64 new_pipeline in
  let s := frame 100 100 in
  zlength (CreateChunks p s) = ceil_div 100 64 * ceil_div 100 64 /\
  (forall px py, 0 <= px < 100 -> 0 <= py < 100 ->
     exists i c, CreateChunks p s !! i = Some c /\ covers px py c = true /\
       forall j c', CreateChunks p s !! j = Some c' ->
                    covers px py c' = true -> j = i).
Proof.
  cbv zeta.
  pose proof (CreateChunks_tiles_frame (SetChunkSize 64 64 new_pipeline)
                (frame 100 100)) as T.
  cbv zeta in T. cbn [SetChunkSize chunk_width_ chunk_height_ frame
    Screenshot.width Screenshot.height] in T.
  change (Z.max 64 64) with 64 in T.
  destruct T as (Hn & _ & Hcover); [unfold UINT32_MAX; lia..|].
  split; assumption.
Defined.

(** C1, as stated, fails on the code: the rounding-up sum
    [screenshot.width + chunk_width_ - 1] is computed in [uint32_t]. With
    the tile width configured to 4294967295 (which [SetChunkSize] accepts),
    an 8K frame of 7680x4320 pixels gives [chunks_x = 7678 / 4294967295 = 0]
    and [CreateChunks] returns no chunk at all, where
    [ceil (7680 / 4294967295) * ceil (4320 / 512)] is 9. *)
Theorem CreateChunks_rounding_sum_wraps :
  let p := SetChunkSize 4294967295 512 new_pipeline in
  let s := frame 7680 4320 in
  grid_x p s = 0 /\
  CreateChunks p s = [] /\
  ceil_div (Screenshot.width s) (chunk_width_ p)
  * ceil_div (Screenshot.height s) (chunk_height_ p) = 9.
Proof. cbv zeta. split; [|split]; lazy; reflexivity. Qed.

(** *** Configuration *)

Lemma clamp_max_min v lo hi : lo <= hi -> clamp v lo hi = Z.max lo (Z.min hi v).
Proof.
  intros Hle. unfold clamp.
  destruct (v <? lo) eqn:E1; [apply Z.ltb_lt in E1; lia|apply Z.ltb_ge in E1].
  destruct (hi <? v) eqn:E2; [apply Z.ltb_lt in E2|apply Z.ltb_ge in E2]; lia.
Qed.

(** C10: [ConfigureUltraStreaming] and the three setters clamp what they
    store, whatever the arguments and whatever the pipeline held before:
    the chunk dimensions are [max 64 .], the budget in MB is [max 256 .]
    and the level is [max 1 (min 9 .)]. The claim's consequence for the
    effective budget fails on the code: [CanAllocateMemory] multiplies the
    stored MB by [1024 * 1024] in [uint64_t], so the budget in bytes is at
    least 256 MiB for arguments below 2^44 only; at 2^44 MB the stored
    setting is 2^44, the budget in bytes is 0, and with the counter at 0
    every request of at least one byte is refused. *)
Theorem configured_budget_wraps (hardware_concurrency : Z)
    (g : option UltraStreamingPipeline) (q : UltraStreamingPipeline)
    (chunk_width chunk_height max_memory_mb compression_level : Z) :
  let p := ConfigureUltraStreaming hardware_concurrency chunk_width chunk_height
             max_memory_mb compression_level g in
  let p44 := ConfigureUltraStreaming hardware_concurrency chunk_width
               chunk_height (2 ^ 44) compression_level g in
  (chunk_width_ p = Z.max 64 chunk_width /\
   chunk_height_ p = Z.max 64 chunk_height /\
   max_memory_usage_mb_ p = Z.max 256 max_memory_mb /\
   compression_level_ p = Z.max 1 (Z.min 9 compression_level)) /\
  (chunk_width_ (SetChunkSize chunk_width chunk_height q) = Z.max 64 chunk_width /\
   chunk_height_ (SetChunkSize chunk_width chunk_height q)
   = Z.max 64 chunk_height /\
   max_memory_usage_mb_ (SetMaxMemoryUsage max_memory_mb q)
   = Z.max 256 max_memory_mb /\
   compression_level_ (SetCompressionLevel compression_level q)
   = Z.max 1 (Z.min 9 compression_level)) /\
  (max_memory_mb < 2 ^ 44 -> 256 * 1024 * 1024 <= max_usage p) /\
  max_memory_usage_mb_ p44 = 2 ^ 44 /\
  max_usage p44 = 0 /\
  (current_memory_usage_ p44 = 0 ->
   forall requested_bytes, 0 < requested_bytes <= SIZE_MAX ->
     CanAllocateMemory p44 requested_bytes = false).
Proof.
  cbv zeta. unfold ConfigureUltraStreaming.
  cbn [SetCompressionLevel SetMaxMemoryUsage SetChunkSize chunk_width_
       chunk_height_ max_memory_usage_mb_ compression_level_].
  rewrite clamp_max_min by lia.
  split; [repeat split|]. split; [repeat split|].
  split; [|split; [reflexivity|split; [reflexivity|]]].
  - intros Hmb. unfold max_usage.
    cbn [SetCompressionLevel SetMaxMemoryUsage SetChunkSize max_memory_usage_mb_].
    rewrite wrap64_small; unfold SIZE_MAX; lia.
  - intros Hzero n Hn. unfold CanAllocateMemory, max_usage.
    cbn [SetCompressionLevel SetMaxMemoryUsage SetChunkSize max_memory_usage_mb_].
    rewrite Hzero, wrap64_small by lia. apply Z.leb_gt.
    change (wrap64 (Z.max 256 (2 ^ 44) * 1024 * 1024)) with 0. lia.
Qed.

Example ConfigureUltraStreaming_clamps :
  let p := ConfigureUltraStreaming 8 1 0 100 42 None in
  (chunk_width_ p, chunk_height_ p, max_memory_usage_mb_ p, compression_level_ p,
   worker_thread_count_ p) = (64, 64, 256, 9, 8).
Proof. reflexivity. Qed.

(** The budget in bytes that [CanAllocateMemory] derives from the stored
    setting is at least 256 MiB as long as the product fits [uint64_t]. *)
Lemma max_usage_lower_bound max_memory_mb q :
  max_memory_mb < 2 ^ 44 ->
  256 * 1024 * 1024 <= max_usage (SetMaxMemoryUsage max_memory_mb q).
Proof.
  intros Hmb. unfold max_usage, SetMaxMemoryUsage. cbn [max_memory_usage_mb_].
  rewrite wrap64_small; unfold SIZE_MAX; lia.
Qed.

Lemma max_usage_lower_bound_witness :
  256 * 1024 * 1024 <= max_usage (SetMaxMemoryUsage 100 new_pipeline).
Proof. apply (max_usage_lower_bound 100 new_pipeline). lia. Defined.

(** At 2^44 MB the product wraps: the stored setting is 2^44, the budget in
    bytes is 0. *)
Example max_usage_wraps :
  max_memory_usage_mb_ (SetMaxMemoryUsage (2 ^ 44) new_pipeline) = 2 ^ 44 /\
  max_usage (SetMaxMemoryUsage (2 ^ 44) new_pipeline) = 0.
Proof. split; reflexivity. Qed.

(** *** The composers *)

(** The extended-canvas chunk as [CombineEncodedTiles] writes it. *)
Definition canvas_record (W H : Z) (has_alpha : bool) : list Z :=
  [if has_alpha then 16 else 0; 0; 0; 0]
  ++ le_bytes24 (W - 1) ++ le_bytes24 (H - 1).

(** The container of C3, in the claim's words: the magic, a size field equal
    to the length minus 8, an extended-canvas record somewhere after the
    magic, and the payloads, in order, at the end. *)
Definition composer_contract (out : list Z) (payloads : list (list Z))
    (W H : Z) (has_alpha : bool) : Prop :=
  sub_bytes 0 4 out = bytes_of_string "RIFF" /\
  sub_bytes 8 4 out = bytes_of_string "WEBP" /\
  le_value (sub_bytes 4 4 out) = zlength out - 8 /\
  (exists off, (12 <= off)%nat /\
               sub_bytes off 10 out = canvas_record W H has_alpha) /\
  (exists header, out = header ++ concat payloads).

Lemma fold_left_app_chunks (chunks : list (list Z)) : forall acc,
  fold_left (fun acc chunk => acc ++ chunk) chunks acc = acc ++ concat chunks.
Proof.
  induction chunks as [|c rest IH]; intros acc; simpl.
  - symmetry. apply app_nil_r.
  - rewrite IH, <- app_assoc. reflexivity.
Qed.

(** [CombineEncodedChunks] in closed form. *)
Lemma CombineEncodedChunks_layout chunks W H :
  CombineEncodedChunks chunks W H
  = bytes_of_string "RIFF"
    ++ le_bytes32 (wrap32 (4 + zlength (concat chunks)))
    ++ bytes_of_string "WEBP" ++ concat chunks.
Proof.
  unfold CombineEncodedChunks. rewrite fold_left_app_chunks.
  replace (zlength ((bytes_of_string "RIFF" ++ [0; 0; 0; 0]
                     ++ bytes_of_string "WEBP") ++ concat chunks) - 8)
    with (4 + zlength (concat chunks))
    by (unfold zlength; rewrite length_app; simpl; lia).
  rewrite <- !app_assoc.
  apply (store_bytes_inside _ (bytes_of_string "RIFF") _ [0; 0; 0; 0]).
  reflexivity.
Qed.

(** C3, as stated, fails on both composers. The pipeline's
    [CombineEncodedChunks] writes no extended-canvas record (13 bytes come
    out for a one-byte payload); [CombineEncodedTiles] writes the record
    but its size field is the payload size plus 100, not the length minus
    8 (101 against 23 here). *)
Lemma composer_contract_fails :
  ~ composer_contract (CombineEncodedChunks [[1]] 1 1) [[1]] 1 1 false /\
  ~ composer_contract
      (WebPEncoder.CombineEncodedTiles
         [{| WebPEncoder.encoded_data := [1] |}] 1 1 false)
      [[1]] 1 1 false.
Proof.
  split.
  - intros (_ & _ & _ & (off & Hoff & Hrec) & _).
    apply (f_equal (@length Z)) in Hrec.
    unfold sub_bytes in Hrec. rewrite length_take, length_drop in Hrec.
    assert (Hout : length (CombineEncodedChunks [[1]] 1 1) = 13%nat)
      by (vm_compute; reflexivity).
    assert (Hcanvas : length (canvas_record 1 1 false) = 10%nat) by reflexivity.
    rewrite Hout, Hcanvas in Hrec. lia.
  - intros (_ & _ & Hsize & _). vm_compute in Hsize. discriminate.
Qed.

(** C3 (amended): for canvas dimensions between 1 and 2^24,
    [CombineEncodedChunks] returns ["RIFF"], the little-endian 32-bit value
    of the output length minus 8 (modulo 2^32), ["WEBP"] and the payloads in
    their order, with no extended-canvas record; [CombineEncodedTiles]
    returns ["RIFF"], four size bytes, ["WEBP"], the ["VP8X"] chunk of size
    10 holding the alpha flag (0x10), [W - 1] and [H - 1] as 24-bit
    little-endian fields, and then the payloads in their order. *)
Theorem composers_layout (payloads : list (list Z)) (W H : Z) (has_alpha : bool) :
  1 <= W <= 2 ^ 24 -> 1 <= H <= 2 ^ 24 ->
  (let out := CombineEncodedChunks payloads W H in
   out = bytes_of_string "RIFF" ++ le_bytes32 (wrap32 (zlength out - 8))
         ++ bytes_of_string "WEBP" ++ concat payloads /\
   le_value (sub_bytes 4 4 out) = wrap32 (zlength out - 8) /\
   (zlength out - 8 <= UINT32_MAX ->
    le_value (sub_bytes 4 4 out) = zlength out - 8)) /\
  (let out := WebPEncoder.CombineEncodedTiles
                (map WebPEncoder.Build_TileInfo payloads) W H has_alpha in
   exists size_field,
     length size_field = 4%nat /\
     out = bytes_of_string "RIFF" ++ size_field ++ bytes_of_string "WEBP"
           ++ bytes_of_string "VP8X" ++ le_bytes32 10
           ++ canvas_record W H has_alpha ++ concat payloads /\
     le_value (le_bytes24 (W - 1)) = W - 1 /\
     le_value (le_bytes24 (H - 1)) = H - 1).
Proof.
  intros HW HH. split.
  - cbv zeta. rewrite CombineEncodedChunks_layout.
    assert (Hlen : zlength (bytes_of_string "RIFF"
                     ++ le_bytes32 (wrap32 (4 + zlength (concat payloads)))
                     ++ bytes_of_string "WEBP" ++ concat payloads) - 8
                   = 4 + zlength (concat payloads)).
    { unfold zlength. rewrite !length_app. simpl. lia. }
    rewrite Hlen. split; [reflexivity|].
    change (sub_bytes 4 4 (bytes_of_string "RIFF" ++ ?l ++ ?r))
      with (firstn 4 (l ++ r)).
    change (firstn 4 (le_bytes32 ?v ++ ?r)) with (le_bytes32 v).
    assert (Hfield : le_value (le_bytes32 (wrap32 (4 + zlength (concat payloads))))
                     = wrap32 (4 + zlength (concat payloads))).
    { apply le_value_bytes32.
      pose proof (wrap32_range (4 + zlength (concat payloads))).
      unfold UINT32_MAX in *. lia. }
    split; [exact Hfield|].
    intros Hfits. rewrite Hfield. apply wrap32_small.
    unfold zlength in *. lia.
  - cbv zeta. unfold WebPEncoder.CombineEncodedTiles.
    rewrite WebPEncoder.fold_left_app_tiles.
    exists (le_bytes32 (wrap32 (WebPEncoder.sum_tile_sizes
                                 (map WebPEncoder.Build_TileInfo payloads) + 100))).
    split; [reflexivity|].
    rewrite (wrap32_small (W - 1)), (wrap32_small (H - 1))
      by (unfold UINT32_MAX; lia).
    rewrite map_map. cbn [WebPEncoder.encoded_data]. rewrite map_id.
    split; [unfold canvas_record; rewrite <- !app_assoc; reflexivity|].
    split; apply le_value_bytes24; lia.
Qed.

Lemma composers_layout_witness :
  (let out := CombineEncodedChunks [[1; 2]; [3]] 100 100 in
   out = bytes_of_string "RIFF" ++ le_bytes32 (wrap32 (zlength out - 8))
         ++ bytes_of_string "WEBP" ++ concat [[1; 2]; [3]] /\
   le_value (sub_bytes 4 4 out) = wrap32 (zlength out - 8) /\
   (zlength out - 8 <= UINT32_MAX ->
    le_value (sub_bytes 4 4 out) = zlength out - 8)) /\
  (let out := WebPEncoder.CombineEncodedTiles
                (map WebPEncoder.Build_TileInfo [[1; 2]; [3]]) 100 100 false in
   exists size_field,
     length size_field = 4%nat /\
     out = bytes_of_string "RIFF" ++ size_field ++ bytes_of_string "WEBP"
           ++ bytes_of_string "VP8X" ++ le_bytes32 10
           ++ canvas_record 100 100 false ++ concat [[1; 2]; [3]] /\
     le_value (le_bytes24 (100 - 1)) = 100 - 1 /\
     le_value (le_bytes24 (100 - 1)) = 100 - 1).
Proof.
  apply (composers_layout [[1; 2]; [3]] 100 100 false); lia.
Defined.

(** The scenario of the specification: the four tiles of a 100x100 opaque
    frame; the header written by [CombineEncodedTiles] reports a canvas of
    width 100, height 100 and no alpha. *)
Example CombineEncodedTiles_100x100 :
  sub_bytes 20 10
    (WebPEncoder.CombineEncodedTiles
       (map WebPEncoder.Build_TileInfo [[1]; [2]; [3]; [4]]) 100 100 false)
  = [0; 0; 0; 0; 99; 0; 0; 99; 0; 0].
Proof. vm_compute. reflexivity. Qed.

(** *** Admission control: the submitting thread and the workers *)

(** [struct EncodingTask] without its promise, whose state is kept in
    [PipelineState]. *)
Record EncodingTask := {
  chunk : StreamingChunk;
  params : WebPEncodeParams;
  task_id : Z
}.

(** [chunk.width * chunk.height * 4], computed in [uint32_t] by both the
    submitting loop and [ProcessEncodingTask]. *)
Definition chunk_bytes (c : StreamingChunk) : Z :=
  wrap32 (wrap32 (width c * height c) * 4).

(** [UpdateMemoryUsage(delta)]: the atomic [fetch_add], then the peak. *)
Definition UpdateMemoryUsage (delta : Z) (p : UltraStreamingPipeline)
    : UltraStreamingPipeline :=
  let current := wrap64 (current_memory_usage_ p + delta) in
  let current_mb := current / (1024 * 1024) in
  {| chunk_width_ := chunk_width_ p;
     chunk_height_ := chunk_height_ p;
     max_memory_usage_mb_ := max_memory_usage_mb_ p;
     compression_level_ := compression_level_ p;
     worker_thread_count_ := worker_thread_count_ p;
     stats_ :=
       {| total_pixels_processed := total_pixels_processed (stats_ p);
          total_chunks_processed := total_chunks_processed (stats_ p);
          peak_memory_usage_mb :=
            if peak_memory_usage_mb (stats_ p) <? current_mb
            then current_mb else peak_memory_usage_mb (stats_ p);
          average_throughput_mpixels_per_sec :=
            average_throughput_mpixels_per_sec (stats_ p);
          active_worker_threads := active_worker_threads (stats_ p);
          compression_ratio := compression_ratio (stats_ p) |};
     current_memory_usage_ := current |}.

(** Where a worker thread stands: waiting on the queue, holding a task it
    popped ([WorkerThreadMain] before the call of [ProcessEncodingTask]),
    or between the two [UpdateMemoryUsage] calls of [ProcessEncodingTask]. *)
Inductive WorkerState :=
| Idle
| Holding (task : EncodingTask)
| Encoding (task : EncodingTask).

(** Where the submitting thread stands in [for (auto& chunk : chunks)]:
    at the admission wait for the first chunk left (line 215); past the
    check, with the task not pushed yet (lines 219-229); in the limiter,
    about to ask future [i] (lines 247-252); or out of the loop, after an
    exception. *)
Inductive LoopPoint :=
| Waiting
| PastCheck
| Polling (i : nat)
| Unwound.

(** The shared state while [StreamCaptureAndEncode] runs its submission
    loop: the pipeline object, the chunks the loop has not reached yet,
    where the loop stands, its counter, its futures ([true]: consumed by
    [get()]), the task queue, the workers, the tasks whose promise has been
    fulfilled, and those among them whose promise holds an exception. *)
Record PipelineState := {
  pipeline : UltraStreamingPipeline;
  remaining : list StreamingChunk;
  loop_point : LoopPoint;
  chunks_submitted : Z;
  chunk_futures : list bool;
  task_queue_ : list EncodingTask;
  workers : list WorkerState;
  completed : list Z;
  failed : list Z
}.

Definition initial (p : UltraStreamingPipeline) (chunks : list StreamingChunk)
    : PipelineState :=
  {| pipeline := p;
     remaining := chunks;
     loop_point := Waiting;
     chunks_submitted := 0;
     chunk_futures := [];
     task_queue_ := [];
     workers := repeat Idle (Z.to_nat (worker_thread_count_ p));
     completed := [];
     failed := [] |}.

(** [max_concurrent_chunks], lines 208-211; the loop is reached only when
    the divisor is not 0. *)
Definition max_concurrent_chunks (p : UltraStreamingPipeline) : Z :=
  Z.min (wrap32 (worker_thread_count_ p * 2))
        (max_usage p / wrap32 (chunk_width_ p * chunk_height_ p * 4)).

(** The submitting thread moves on. *)
Definition move_to (l : LoopPoint) (st : PipelineState) : PipelineState :=
  {| pipeline := pipeline st;
     remaining := remaining st;
     loop_point := l;
     chunks_submitted := chunks_submitted st;
     chunk_futures := chunk_futures st;
     task_queue_ := task_queue_ st;
     workers := workers st;
     completed := completed st;
     failed := failed st |}.

(** [chunk_futures[i].get()], after which the loop is at [l]. *)
Definition get_future (i : nat) (l : LoopPoint) (st : PipelineState)
    : PipelineState :=
  {| pipeline := pipeline st;
     remaining := remaining st;
     loop_point := l;
     chunks_submitted := chunks_submitted st;
     chunk_futures := <[i := true]> (chunk_futures st);
     task_queue_ := task_queue_ st;
     workers := workers st;
     completed := completed st;
     failed := failed st |}.

(** Future [i] belongs to the task pushed as number [i]. *)
Definition future_task (i : nat) : Z := wrap32 (Z.of_nat i).

(** One atomic action of one thread. No lock spans the admission check and
    the push, so they are two actions, and so is every poll of the
    limiter. *)
Inductive step (ps : WebPEncodeParams) : PipelineState -> PipelineState -> Prop :=
| step_wait st c rest :
    (* [while (!CanAllocateMemory(...)) sleep_for(10ms)] *)
    loop_point st = Waiting ->
    remaining st = c :: rest ->
    CanAllocateMemory (pipeline st) (chunk_bytes c) = false ->
    step ps st st
| step_admit st c rest :
    (* the check passes on the counter as it stands at this instant *)
    loop_point st = Waiting ->
    remaining st = c :: rest ->
    CanAllocateMemory (pipeline st) (chunk_bytes c) = true ->
    step ps st (move_to PastCheck st)
| step_push st c rest :
    (* the task is pushed under the queue's lock; [chunks_submitted++];
       [if (chunks_submitted >= max_concurrent_chunks)] *)
    loop_point st = PastCheck ->
    remaining st = c :: rest ->
    step ps st
      {| pipeline := pipeline st;
         remaining := rest;
         loop_point :=
           if max_concurrent_chunks (pipeline st) <=? chunks_submitted st + 1
           then Polling 0 else Waiting;
         chunks_submitted := chunks_submitted st + 1;
         chunk_futures := chunk_futures st ++ [false];
         task_queue_ :=
           task_queue_ st
           ++ [{| chunk := c; params := ps;
                  task_id := wrap32 (chunks_submitted st) |}];
         workers := workers st;
         completed := completed st;
         failed := failed st |}
| step_poll_end st i :
    (* [i < chunk_futures.size()] fails: no future was ready *)
    loop_point st = Polling i ->
    chunk_futures st !! i = None ->
    step ps st (move_to Waiting st)
| step_poll_pending st i :
    (* [wait_for(0ms)] does not answer [ready] *)
    loop_point st = Polling i ->
    chunk_futures st !! i = Some false ->
    ~ In (future_task i) (completed st) ->
    step ps st (move_to (Polling (S i)) st)
| step_poll_get st i :
    (* [ready]: [get()], [break] *)
    loop_point st = Polling i ->
    chunk_futures st !! i = Some false ->
    In (future_task i) (completed st) ->
    ~ In (future_task i) (failed st) ->
    step ps st (get_future i Waiting st)
| step_poll_rethrow st i :
    (* [ready]: [get()] throws what [set_exception] stored *)
    loop_point st = Polling i ->
    chunk_futures st !! i = Some false ->
    In (future_task i) (failed st) ->
    step ps st (get_future i Unwound st)
| step_poll_no_state st i :
    (* [wait_for] on a future an earlier [get()] emptied *)
    loop_point st = Polling i ->
    chunk_futures st !! i = Some true ->
    step ps st (move_to Unwound st)
| step_pop st w task queue :
    (* [WorkerThreadMain]: [task_queue_.front()], [pop()] *)
    workers st !! w = Some Idle ->
    task_queue_ st = task :: queue ->
    step ps st
      {| pipeline := pipeline st;
         remaining := remaining st;
         loop_point := loop_point st;
         chunks_submitted := chunks_submitted st;
         chunk_futures := chunk_futures st;
         task_queue_ := queue;
         workers := <[w := Holding task]> (workers st);
         completed := completed st;
         failed := failed st |}
| step_start st w task :
    (* [ProcessEncodingTask]: [UpdateMemoryUsage(chunk_memory)] *)
    workers st !! w = Some (Holding task) ->
    step ps st
      {| pipeline := UpdateMemoryUsage (chunk_bytes (chunk task)) (pipeline st);
         remaining := remaining st;
         loop_point := loop_point st;
         chunks_submitted := chunks_submitted st;
         chunk_futures := chunk_futures st;
         task_queue_ := task_queue_ st;
         workers := <[w := Encoding task]> (workers st);
         completed := completed st;
         failed := failed st |}
| step_finish st w task :
    (* [set_value], then [UpdateMemoryUsage(-chunk_memory)] *)
    workers st !! w = Some (Encoding task) ->
    step ps st
      {| pipeline := UpdateMemoryUsage (- chunk_bytes (chunk task)) (pipeline st);
         remaining := remaining st;
         loop_point := loop_point st;
         chunks_submitted := chunks_submitted st;
         chunk_futures := chunk_futures st;
         task_queue_ := task_queue_ st;
         workers := <[w := Idle]> (workers st);
         completed := completed st ++ [task_id task];
         failed := failed st |}
| step_throw st w task :
    (* the [catch] branch: [set_exception], the counter is not taken back *)
    workers st !! w = Some (Encoding task) ->
    step ps st
      {| pipeline := pipeline st;
         remaining := remaining st;
         loop_point := loop_point st;
         chunks_submitted := chunks_submitted st;
         chunk_futures := chunk_futures st;
         task_queue_ := task_queue_ st;
         workers := <[w := Idle]> (workers st);
         completed := completed st ++ [task_id task];
         failed := failed st ++ [task_id task] |}.

(** Brings the state reached by a step back to a record of plain fields. *)
Ltac normalise_state :=
  cbn [initial move_to get_future pipeline remaining loop_point
       chunks_submitted chunk_futures task_queue_ workers completed failed
       app chunk task_id].

(** The pipeline of the scenario: two workers, 8192x8192 tiles of 256 MiB
    each, a budget of 256 MB; the frame makes two tiles. *)
Definition one_chunk_budget : UltraStreamingPipeline :=
  SetMaxMemoryUsage 256 (SetChunkSize 8192 8192 (Initialize 2 0 new_pipeline)).

Definition two_chunk_frame : Screenshot.ScreenshotResult := frame 16384 8192.

Lemma two_chunk_frame_chunks :
  CreateChunks one_chunk_budget two_chunk_frame
  = [chunk_at one_chunk_budget two_chunk_frame 0;
     chunk_at one_chunk_budget two_chunk_frame 1].
Proof. rewrite CreateChunks_closed_form. reflexivity. Qed.

(** C5, as stated, fails on the code: the counter is raised when a worker
    starts a task, not when the task is admitted. With the budget equal to
    one chunk's bytes, both chunks pass the check while the counter is
    still 0; the second submission does not wait for the first task, and
    once both workers have started, the counter stands at twice the
    budget. *)
Theorem budget_exceeded_by_two_admitted_chunks :
  (forall c, In c (CreateChunks one_chunk_budget two_chunk_frame) ->
             chunk_bytes c = max_usage one_chunk_budget) /\
  exists st,
    rtc (step default_params)
      (initial one_chunk_budget (CreateChunks one_chunk_budget two_chunk_frame))
      st /\
    chunks_submitted st = 2 /\
    completed st = [] /\
    current_memory_usage_ (pipeline st) = 2 * max_usage (pipeline st) /\
    max_usage (pipeline st) < current_memory_usage_ (pipeline st).
Proof.
  rewrite two_chunk_frame_chunks.
  set (c0 := chunk_at one_chunk_budget two_chunk_frame 0).
  set (c1 := chunk_at one_chunk_budget two_chunk_frame 1).
  assert (Hc0 : chunk_bytes c0 = 268435456) by (lazy; reflexivity).
  assert (Hc1 : chunk_bytes c1 = 268435456) by (lazy; reflexivity).
  split.
  - intros c [<-|[<-|[]]]; [rewrite Hc0|rewrite Hc1]; reflexivity.
  - set (t0 := {| chunk := c0; params := default_params; task_id := 0 |}).
    set (t1 := {| chunk := c1; params := default_params; task_id := 1 |}).
    exists {| pipeline :=
                UpdateMemoryUsage (chunk_bytes c1)
                  (UpdateMemoryUsage (chunk_bytes c0) one_chunk_budget);
              remaining := [];
              loop_point := Polling 0;
              chunks_submitted := 2;
              chunk_futures := [false; false];
              task_queue_ := [];
              workers := [Encoding t0; Encoding t1];
              completed := [];
              failed := [] |}.
    assert (Hlimit : max_concurrent_chunks one_chunk_budget = 1) by reflexivity.
    split.
    + eapply rtc_l.
      { apply (step_admit _ _ c0 [c1]); [reflexivity..|].
        unfold CanAllocateMemory. rewrite Hc0. reflexivity. }
      normalise_state.
      eapply rtc_l; [apply (step_push _ _ c0 [c1]); reflexivity|].
      normalise_state. rewrite Hlimit. cbn [Z.add Z.leb Z.compare Pos.compare
        Pos.compare_cont Pos.add].
      eapply rtc_l.
      { apply (step_poll_pending _ _ 0%nat); [reflexivity..|].
        cbn [completed]. intros []. }
      normalise_state.
      eapply rtc_l; [apply (step_poll_end _ _ 1%nat); reflexivity|].
      normalise_state.
      eapply rtc_l.
      { apply (step_admit _ _ c1 []); [reflexivity..|].
        unfold CanAllocateMemory. cbn [pipeline]. rewrite Hc1. reflexivity. }
      normalise_state.
      eapply rtc_l; [apply (step_push _ _ c1 []); reflexivity|].
      normalise_state. rewrite Hlimit. cbn [Z.add Z.leb Z.compare Pos.compare
        Pos.compare_cont Pos.add].
      eapply rtc_l; [apply (step_pop _ _ 0%nat t0 [t1]); reflexivity|].
      normalise_state.
      eapply rtc_l; [apply (step_pop _ _ 1%nat t1 []); reflexivity|].
      normalise_state.
      eapply rtc_l; [apply (step_start _ _ 0%nat t0); reflexivity|].
      normalise_state.
      eapply rtc_l; [apply (step_start _ _ 1%nat t1); reflexivity|].
      normalise_state.
      apply rtc_refl.
    + cbn [pipeline chunks_submitted completed]. rewrite Hc0, Hc1.
      split; [reflexivity|]. split; [reflexivity|].
      split; reflexivity.
Qed.

(** *** [StreamCaptureAndEncode]: the request as its caller sees it *)

(** What the call lets an observer see, in order: the invocations of the
    progress callback, with the value the callback returned, and the tasks
    pushed on the queue. *)
Inductive Event :=
| Progress (progress_percent : Q) (status : string) (answer : bool)
| Submitted (task : EncodingTask).

(** How the call ends: it returns a vector (the empty one after a failure),
    it never returns, or it divides by zero. *)
Inductive Outcome :=
| Returned (bytes : list Z)
| NeverReturns
| DividesByZero.

(** An event without the callback's answer. *)
Definition milestone (e : Event) : (Q * string) + EncodingTask :=
  match e with
  | Progress q s _ => inl (q, s)
  | Submitted t => inr t
  end.

(** [if (callback) callback(progress, status);] the returned [bool] is
    dropped by every call site. *)
Definition notify (callback : option (Q -> string -> bool)) (q : Q) (s : string)
    : list Event :=
  match callback with
  | Some f => [Progress q s (f q s)]
  | None => []
  end.

(** One pass of the loop that limits the concurrent chunks, over the
    futures collected so far ([true]: already consumed by [get()]).
    [ready i] tells whether future [i] is ready at this instant. [None]: a
    future without shared state is asked, which throws
    [std::future_error]. *)
Fixpoint limiter_pass (ready : nat -> bool) (i : nat) (futures : list bool)
    : option (list bool) :=
  match futures with
  | [] => Some []
  | consumed :: rest =>
      if consumed then None
      else if ready i then Some (true :: rest)
      else cons false <$> limiter_pass ready (S i) rest
  end.

Definition future_error_what : string := "std::future_error: No associated state".

Section Streaming.

(** The collaborators behind [EncodeChunkAdvanced]: the GPU encoder and the
    libwebp-based SIMD encoder. *)
Variable InitializeGPUEncoder : bool.
Variable EncodeGPUAccelerated :
  list Z -> Z -> Z -> Z -> WebPEncodeParams -> list Z.
Variable EncodeSIMDOptimized :
  list Z -> Z -> Z -> Z -> WebPEncodeParams -> list Z.

(** Readiness of the futures at the instants the limiter polls them:
    [ready k i] for future [i] after [k] submissions. *)
Variable ready : Z -> nat -> bool.

(** The highest reading of [current_memory_usage_], in MB, that a worker's
    [UpdateMemoryUsage] takes while the tasks of the request are processed.
    It depends on how the tasks overlap. *)
Variable peak_reading_mb : Z.

Definition is_empty (v : list Z) : bool :=
  match v with [] => true | _ => false end.

(** [EncodeChunkAdvanced]: GPU first, then SIMD, then [WebPEncoder]. *)
Definition EncodeChunkAdvanced (c : StreamingChunk) (ps : WebPEncodeParams)
    : list Z :=
  let gpu :=
    if InitializeGPUEncoder
    then EncodeGPUAccelerated (pixel_data c) (width c) (height c) (stride c) ps
    else [] in
  if InitializeGPUEncoder && negb (is_empty gpu) then gpu
  else
    let result :=
      EncodeSIMDOptimized (pixel_data c) (width c) (height c) (stride c) ps in
    if negb (is_empty result) then result
    else
      fst (WebPEncoder.EncodeRGBA {| WebPEncoder.last_error_ := "" |}
             (Some (pixel_data c)) (width c) (height c) (stride c) ps).

(** The state of the submission loop: the events so far, the futures
    (consumed or not), and [chunks_submitted]. *)
Record LoopState := {
  events : list Event;
  futures : list bool;
  submitted : Z
}.

(** Why the loop is left early: the admission wait never ends, or an
    exception reaches the [catch] of the request. *)
Inductive Abort :=
| Blocked
| Thrown (what : string).

(** The body of [for (auto& chunk : chunks)], for the chunks left. The
    worker pool is taken as fair: every queued task is eventually
    processed, so the admission wait ends exactly when the chunk by itself
    passes [CanAllocateMemory] on the pipeline as the call found it. *)
Fixpoint submit_loop (p : UltraStreamingPipeline) (ps : WebPEncodeParams)
    (callback : option (Q -> string -> bool)) (total : Z)
    (max_concurrent_chunks : Z) (chunks : list StreamingChunk) (st : LoopState)
    : LoopState * option Abort :=
  match chunks with
  | [] => (st, None)
  | c :: rest =>
      if negb (CanAllocateMemory p (chunk_bytes c)) then (st, Some Blocked)
      else
        let task := {| chunk := c; params := ps;
                       task_id := wrap32 (submitted st) |} in
        let k := submitted st + 1 in
        let progress :=
          (20 + (inject_Z k / inject_Z total) * 60)%Q in
        let status :=
          ("Processing chunk " +:+ pretty k +:+ "/" +:+ pretty total)%string in
        let st := {| events := events st ++ [Submitted task]
                               ++ notify callback progress status;
                     futures := futures st ++ [false];
                     submitted := k |} in
        if max_concurrent_chunks <=? k then
          match limiter_pass (ready k) 0 (futures st) with
          | Some fs =>
              submit_loop p ps callback total max_concurrent_chunks rest
                {| events := events st; futures := fs; submitted := k |}
          | None => (st, Some (Thrown future_error_what))
          end
        else submit_loop p ps callback total max_concurrent_chunks rest st
  end.

(** [future.get()] over the futures, in submission order; [None] when one
    has no shared state left. *)
Fixpoint collect (ps : WebPEncodeParams) (chunks : list StreamingChunk)
    (fs : list bool) : option (list (list Z)) :=
  match chunks, fs with
  | c :: chunks', consumed :: fs' =>
      if consumed then None
      else cons (EncodeChunkAdvanced c ps) <$> collect ps chunks' fs'
  | _, _ => Some []
  end.

(** What the workers leave behind in the pipeline object once they have
    processed the tasks submitted so far: every task adds its bytes to
    [current_memory_usage_] and takes them back, and [UpdateMemoryUsage]
    keeps the highest reading in [stats_.peak_memory_usage_mb]. Without a
    task or without a worker nothing is written. *)
Definition after_workers (submitted : Z) (p : UltraStreamingPipeline)
    : UltraStreamingPipeline :=
  if (submitted =? 0) || (worker_thread_count_ p =? 0) then p
  else
    {| chunk_width_ := chunk_width_ p;
       chunk_height_ := chunk_height_ p;
       max_memory_usage_mb_ := max_memory_usage_mb_ p;
       compression_level_ := compression_level_ p;
       worker_thread_count_ := worker_thread_count_ p;
       stats_ :=
         {| total_pixels_processed := total_pixels_processed (stats_ p);
            total_chunks_processed := total_chunks_processed (stats_ p);
            peak_memory_usage_mb :=
              if peak_memory_usage_mb (stats_ p) <? peak_reading_mb
              then peak_reading_mb else peak_memory_usage_mb (stats_ p);
            average_throughput_mpixels_per_sec :=
              average_throughput_mpixels_per_sec (stats_ p);
            active_worker_threads := active_worker_threads (stats_ p);
            compression_ratio := compression_ratio (stats_ p) |};
       current_memory_usage_ := wrap64 (current_memory_usage_ p) |}.

(** The statistics block after a successful combine: the request adds to
    the two totals and averages the ratio, under [stats_mutex_]; the other
    members are left as they are. *)
Definition record_stats (pixel_count n_chunks data_size : Z) (final : list Z)
    (p : UltraStreamingPipeline) : UltraStreamingPipeline :=
  {| chunk_width_ := chunk_width_ p;
     chunk_height_ := chunk_height_ p;
     max_memory_usage_mb_ := max_memory_usage_mb_ p;
     compression_level_ := compression_level_ p;
     worker_thread_count_ := worker_thread_count_ p;
     stats_ :=
       {| total_pixels_processed :=
            wrap64 (total_pixels_processed (stats_ p) + pixel_count);
          total_chunks_processed :=
            wrap64 (total_chunks_processed (stats_ p) + n_chunks);
          peak_memory_usage_mb := peak_memory_usage_mb (stats_ p);
          average_throughput_mpixels_per_sec :=
            average_throughput_mpixels_per_sec (stats_ p);
          active_worker_threads := active_worker_threads (stats_ p);
          compression_ratio :=
            if 0 <? zlength final
            then ((compression_ratio (stats_ p)
                   + inject_Z data_size / inject_Z (zlength final)) / 2)%Q
            else compression_ratio (stats_ p) |};
     current_memory_usage_ := current_memory_usage_ p |}.

(** The body of the task [StreamCaptureAndEncode] launches, on the frame
    [screenshot] that [CaptureDisplay] delivered: the events, how the call
    ends, and the pipeline object once the request and the workers are
    through with it. *)
Definition StreamCaptureAndEncode (p : UltraStreamingPipeline)
    (screenshot : Screenshot.ScreenshotResult) (ps : WebPEncodeParams)
    (callback : option (Q -> string -> bool))
    : list Event * Outcome * UltraStreamingPipeline :=
  if negb (Screenshot.success screenshot) then
    (notify callback 0
       ("Capture failed: " +:+ Screenshot.error_message screenshot)%string,
     Returned [], p)
  else
    let ev := notify callback 10 "Capture completed, starting streaming encode" in
    let pixel_count :=
      wrap64 (Screenshot.width screenshot * Screenshot.height screenshot) in
    let ultra_large_threshold := 7680 * 4320 in
    if pixel_count <? ultra_large_threshold then
      let ev := ev ++ notify callback 50 "Using optimized single-pass encoding" in
      let result :=
        fst (WebPEncoder.EncodeRGBA {| WebPEncoder.last_error_ := "" |}
               (Screenshot.data screenshot) (Screenshot.width screenshot)
               (Screenshot.height screenshot) (Screenshot.stride screenshot) ps) in
      (ev ++ notify callback 100 "Encoding completed", Returned result, p)
    else
      let ev := ev ++ notify callback 15 "Starting ultra-streaming pipeline" in
      let chunks := CreateChunks p screenshot in
      let total := zlength chunks in
      let ev :=
        ev ++ notify callback 20
                ("Created " +:+ pretty total +:+ " chunks for processing")%string in
      let chunk_area_bytes := wrap32 (chunk_width_ p * chunk_height_ p * 4) in
      if chunk_area_bytes =? 0 then (ev, DividesByZero, p)
      else
        let max_concurrent_chunks :=
          Z.min (wrap32 (worker_thread_count_ p * 2))
                (max_usage p / chunk_area_bytes) in
        match submit_loop p ps callback total max_concurrent_chunks chunks
                {| events := ev; futures := []; submitted := 0 |} with
        | (st, Some Blocked) =>
            (events st, NeverReturns, after_workers (submitted st) p)
        | (st, Some (Thrown what)) =>
            (events st ++ notify callback 0 ("Error: " +:+ what)%string,
             Returned [], after_workers (submitted st) p)
        | (st, None) =>
            let ev := events st
                      ++ notify callback 80 "Waiting for all chunks to complete" in
            if (worker_thread_count_ p =? 0) && negb (total =? 0)
            then (ev, NeverReturns, p)
            else
              match collect ps chunks (futures st) with
              | None =>
                  (ev ++ notify callback 0
                           ("Error: " +:+ future_error_what)%string,
                   Returned [], after_workers (submitted st) p)
              | Some encoded_chunks =>
                  let ev := ev ++ notify callback 90 "Combining encoded chunks" in
                  let final_result :=
                    CombineEncodedChunks encoded_chunks
                      (Screenshot.width screenshot)
                      (Screenshot.height screenshot) in
                  let p := record_stats pixel_count total
                             (Screenshot.data_size screenshot) final_result
                             (after_workers (submitted st) p) in
                  (ev ++ notify callback 100 "Ultra-streaming encoding completed",
                   Returned final_result, p)
              end
        end.

(** The answers of the callback do not steer the submission loop. *)
Lemma submit_loop_ignores_answers p ps f1 f2 total limit chunks :
  forall st1 st2,
    map milestone (events st1) = map milestone (events st2) ->
    futures st1 = futures st2 -> submitted st1 = submitted st2 ->
    let r1 := submit_loop p ps (Some f1) total limit chunks st1 in
    let r2 := submit_loop p ps (Some f2) total limit chunks st2 in
    map milestone (events (fst r1)) = map milestone (events (fst r2)) /\
    futures (fst r1) = futures (fst r2) /\
    submitted (fst r1) = submitted (fst r2) /\
    snd r1 = snd r2.
Proof.
  induction chunks as [|c rest IH]; intros st1 st2 Hev Hfut Hsub; cbv zeta.
  - cbn [submit_loop fst snd]. auto.
  - cbn [submit_loop].
    destruct (negb (CanAllocateMemory p (chunk_bytes c))); [cbn [fst snd]; auto|].
    cbn [events futures submitted notify].
    rewrite <- Hsub, <- Hfut.
    destruct (limit <=? submitted st1 + 1).
    + destruct (limiter_pass (ready (submitted st1 + 1)) 0 (futures st1 ++ [false])).
      * apply IH; cbn [events futures submitted]; try reflexivity.
        rewrite !map_app, Hev. reflexivity.
      * cbn [fst snd events futures submitted].
        rewrite !map_app, Hev. auto.
    + apply IH; cbn [events futures submitted]; try reflexivity.
      rewrite !map_app, Hev. reflexivity.
Qed.

(** C6 (amended): the value the progress callback returns is ignored. Two
    runs on the same pipeline, frame and parameters, with any two
    callbacks, invoke the callback at the same milestones with the same
    arguments, submit the same tasks in the same order, end the same way
    and leave the same pipeline object: a callback that answers "stop"
    cancels nothing, and no cancellation error exists. *)
Theorem callback_answer_is_ignored (p : UltraStreamingPipeline)
    (screenshot : Screenshot.ScreenshotResult) (ps : WebPEncodeParams)
    (f1 f2 : Q -> string -> bool) :
  let r1 := StreamCaptureAndEncode p screenshot ps (Some f1) in
  let r2 := StreamCaptureAndEncode p screenshot ps (Some f2) in
  map milestone (fst (fst r1)) = map milestone (fst (fst r2)) /\
  snd (fst r1) = snd (fst r2) /\
  snd r1 = snd r2.
Proof.
  cbv zeta. unfold StreamCaptureAndEncode.
  destruct (negb (Screenshot.success screenshot)); [cbn; auto|].
  destruct (wrap64 (Screenshot.width screenshot * Screenshot.height screenshot)
            <? 7680 * 4320); [cbn; auto|].
  destruct (wrap32 (chunk_width_ p * chunk_height_ p * 4) =? 0); [cbn; auto|].
  set (limit := Z.min _ _).
  set (chunks := CreateChunks p screenshot).
  set (st1 := {| events := (notify (Some f1) 10 _ ++ _) ++ _ |}).
  set (st2 := {| events := (notify (Some f2) 10 _ ++ _) ++ _ |}).
  destruct (submit_loop_ignores_answers p ps f1 f2 (zlength chunks) limit chunks
              st1 st2) as (Hev & Hfut & Hsub & Habort); [reflexivity..|].
  destruct (submit_loop p ps (Some f1) (zlength chunks) limit chunks st1)
    as [l1 a1].
  destruct (submit_loop p ps (Some f2) (zlength chunks) limit chunks st2)
    as [l2 a2].
  cbn [fst snd] in Hev, Hfut, Hsub, Habort. subst a2.
  destruct a1 as [[|what]|]; cbn [fst snd].
  - rewrite Hsub. auto.
  - rewrite !map_app, Hev, Hsub. auto.
  - destruct ((worker_thread_count_ p =? 0) && negb (zlength chunks =? 0));
      cbn [fst snd]; [rewrite !map_app, Hev; auto|].
    rewrite <- Hfut, <- Hsub.
    destruct (collect ps chunks (futures l1)); cbn [fst snd];
      rewrite !map_app, Hev; auto.
Qed.

End Streaming.

(** The contract of C6, in the claim's words: once the callback has
    answered "stop" ([false]), no task is submitted any more and the call
    ends in an error (the empty vector is the only error value the call
    has) rather than a normal result. *)
Definition cancellation_contract (evs : list Event) (outcome : Outcome) : Prop :=
  forall i q s, evs !! i = Some (Progress q s false) ->
    (forall j t, (i < j)%nat -> evs !! j <> Some (Submitted t)) /\
    outcome = Returned [].

(** The identifiers of the tasks submitted, in order. *)
Definition submitted_ids (evs : list Event) : list Z :=
  omap (fun e => match e with Submitted t => Some (task_id t) | _ => None end) evs.

(** A run on an 8K frame cut into four 4096x4096 tiles of 64 MiB by eight
    workers, all four tasks in progress at one time; the GPU encoder is
    absent, the SIMD encoder returns one byte per chunk, and the callback
    answers "stop" every time. *)
Definition stopped_run : list Event * Outcome * UltraStreamingPipeline :=
  StreamCaptureAndEncode false (fun _ _ _ _ _ => []) (fun _ _ _ _ _ => [42])
    (fun _ _ => false) 256
    (ConfigureUltraStreaming 8 4096 4096 1024 6 None) (frame 7680 4320)
    default_params (Some (fun _ _ => false)).

(** C6, as stated, fails on the code: the callback answers "stop" at the
    first milestone, and the four chunks are submitted all the same and the
    call returns the combined container. *)
Lemma stop_answer_does_not_cancel :
  fst (fst stopped_run) !! 0%nat
  = Some (Progress 10 "Capture completed, starting streaming encode" false) /\
  submitted_ids (fst (fst stopped_run)) = [0; 1; 2; 3] /\
  snd (fst stopped_run)
  = Returned [82; 73; 70; 70; 8; 0; 0; 0; 87; 69; 66; 80; 42; 42; 42; 42] /\
  ~ cancellation_contract (fst (fst stopped_run)) (snd (fst stopped_run)).
Proof.
  assert (H0 : fst (fst stopped_run) !! 0%nat
               = Some (Progress 10 "Capture completed, starting streaming encode"
                         false)) by (lazy; reflexivity).
  assert (Hout : snd (fst stopped_run)
                 = Returned [82; 73; 70; 70; 8; 0; 0; 0; 87; 69; 66; 80;
                             42; 42; 42; 42]) by (lazy; reflexivity).
  split; [exact H0|]. split; [lazy; reflexivity|]. split; [exact Hout|].
  intros Hcontract. destruct (Hcontract _ _ _ H0) as (_ & Herr).
  rewrite Hout in Herr. discriminate.
Qed.
(** *** The pixels a chunk carries *)

(** The [n] bytes of frame row [y] that start at pixel [x]. *)
Definition frame_row (s : Screenshot.ScreenshotResult) (d : list Z) (x y n : Z)
    : list Z :=
  sub_bytes
    (Z.to_nat (y * Screenshot.stride s + x * Screenshot.bytes_per_pixel s))
    (Z.to_nat n) d.

Lemma length_extract_rows n : forall row s xo yo st dst,
  length (extract_rows n row s xo yo st dst) = length dst.
Proof.
  induction n as [|n IH]; intros row s xo yo st dst; [reflexivity|].
  cbn [extract_rows]. rewrite IH. unfold memcpy. apply length_store_bytes.
Qed.

Lemma length_frame_row s d x y n :
  0 <= n -> 0 <= y * Screenshot.stride s + x * Screenshot.bytes_per_pixel s ->
  y * Screenshot.stride s + x * Screenshot.bytes_per_pixel s + n <= zlength d ->
  length (frame_row s d x y n) = Z.to_nat n.
Proof.
  intros Hn Hoff Hfit. unfold frame_row, sub_bytes, zlength in *.
  rewrite length_take, length_drop. lia.
Qed.

(** The row loop copies the rows one under the other: with the rows before
    [row] already in place ([done]), the loop fills the next [n]. *)
Lemma extract_rows_closed s d xo yo st n : forall row done,
  Screenshot.data s = Some d ->
  0 <= row -> 0 <= st -> 0 <= xo -> 0 <= yo ->
  0 <= Screenshot.bytes_per_pixel s -> 0 < Screenshot.stride s ->
  xo * Screenshot.bytes_per_pixel s + st <= Screenshot.stride s ->
  (yo + row + Z.of_nat n) * Screenshot.stride s <= UINT32_MAX ->
  (row + Z.of_nat n) * st <= UINT32_MAX ->
  (yo + row + Z.of_nat n) * Screenshot.stride s <= zlength d ->
  zlength done = row * st ->
  extract_rows n row s xo yo st (done ++ repeat 0 (n * Z.to_nat st))
  = done ++ concat (tabulate n (fun r => frame_row s d xo (yo + row + r) st)).
Proof.
  induction n as [|n IH];
    intros row done Hd Hrow Hst Hxo Hyo Hbpp Hstride Hseg Hsrc Hdst Hlen Hdone.
  - reflexivity.
  - cbn [extract_rows]. rewrite Hd. cbn [default from_option id].
    assert (Hy : 0 <= (yo + row) * Screenshot.stride s
                 /\ (yo + row + 1) * Screenshot.stride s
                    <= (yo + row + Z.of_nat (S n)) * Screenshot.stride s) by nia.
    assert (Hr : 0 <= row * st /\ (row + 1) * st <= (row + Z.of_nat (S n)) * st)
      by nia.
    assert (Hx : 0 <= xo * Screenshot.bytes_per_pixel s) by nia.
    rewrite (wrap32_small (yo + row)) by (unfold UINT32_MAX in *; nia).
    rewrite (wrap32_small ((yo + row) * Screenshot.stride s))
      by (unfold UINT32_MAX in *; lia).
    rewrite (wrap32_small (xo * Screenshot.bytes_per_pixel s))
      by (unfold UINT32_MAX in *; lia).
    rewrite (wrap32_small (row * st)) by (unfold UINT32_MAX in *; lia).
    unfold memcpy.
    change (sub_bytes
              (Z.to_nat ((yo + row) * Screenshot.stride s
                         + xo * Screenshot.bytes_per_pixel s)) (Z.to_nat st) d)
      with (frame_row s d xo (yo + row) st).
    assert (Hsrc_len : length (frame_row s d xo (yo + row) st) = Z.to_nat st)
      by (apply length_frame_row; lia).
    replace (Z.to_nat (row * st)) with (length done)
      by (unfold zlength in Hdone; lia).
    replace (repeat 0 (S n * Z.to_nat st))
      with (repeat 0 (Z.to_nat st) ++ repeat 0 (n * Z.to_nat st))
      by (rewrite <- repeat_app; f_equal; lia).
    rewrite (store_bytes_inside _ done _ (repeat 0 (Z.to_nat st)))
      by (rewrite repeat_length, Hsrc_len; reflexivity).
    rewrite app_assoc.
    rewrite IH; try assumption; try lia.
    + rewrite tabulate_S, <- app_assoc. cbn [concat]. rewrite Z.add_0_r.
      do 3 f_equal. apply tabulate_ext. intros k _. f_equal. lia.
    + unfold zlength in *. rewrite length_app, Hsrc_len. lia.
Qed.

Lemma lookup_frame_row s d x y n k :
  (k < Z.to_nat n)%nat ->
  frame_row s d x y n !! k
  = d !! (Z.to_nat (y * Screenshot.stride s + x * Screenshot.bytes_per_pixel s)
          + k)%nat.
Proof.
  intros Hk. unfold frame_row, sub_bytes.
  rewrite lookup_take_lt by assumption. apply lookup_drop.
Qed.

(** Byte [k] of row [r] in rows of one length laid end to end. *)
Lemma lookup_concat_rows (len : nat) n : forall (f : Z -> list Z) r k,
  (forall q, 0 <= q < Z.of_nat n -> length (f q) = len) ->
  (r < n)%nat -> (k < len)%nat ->
  concat (tabulate n f) !! (r * len + k)%nat = f (Z.of_nat r) !! k.
Proof.
  induction n as [|n IH]; intros f r k Hlen Hr Hk; [lia|].
  rewrite tabulate_S. cbn [concat].
  destruct r as [|r].
  - rewrite lookup_app_l by (rewrite Hlen by lia; lia). reflexivity.
  - rewrite lookup_app_r by (rewrite Hlen by lia; lia).
    rewrite Hlen by lia.
    replace (S r * len + k - len)%nat with (r * len + k)%nat by lia.
    rewrite IH;
      [replace (1 + Z.of_nat r) with (Z.of_nat (S r)) by lia; reflexivity| |lia|lia].
    intros q Hq. apply Hlen. lia.
Qed.

(** A row of a tile lies inside its frame row, and that row inside the
    frame. *)
Lemma tile_row_inside (W H S B xo yo w h r : Z) :
  0 <= xo -> 0 <= yo -> 0 <= w -> 0 < B -> xo + w <= W -> W * B <= S ->
  yo + h <= H -> 0 <= r < h ->
  0 <= (yo + r) * S + xo * B /\
  (yo + r) * S + xo * B + w * B <= (yo + r + 1) * S /\
  (yo + r + 1) * S <= H * S.
Proof.
  intros Hxo Hyo Hw HB Hfit Hrow Hh Hr.
  assert (H1 : (xo + w) * B <= W * B) by (apply Z.mul_le_mono_nonneg_r; lia).
  assert (H2 : 0 <= xo * B) by (apply Z.mul_nonneg_nonneg; lia).
  assert (H3 : 0 <= w * B) by (apply Z.mul_nonneg_nonneg; lia).
  assert (H4 : 0 <= (yo + r) * S) by (apply Z.mul_nonneg_nonneg; lia).
  assert (H5 : (yo + r + 1) * S <= H * S)
    by (apply Z.mul_le_mono_nonneg_r; lia).
  lia.
Qed.

(** Chunk extraction keeps the pixels: on a frame whose rows lie in the
    buffer and whose byte offsets fit [uint32_t], the pixel data of every
    chunk is the concatenation, row by row, of the [stride c] bytes of the
    frame rows [y_offset c ..] that start at pixel [x_offset c]; every one
    of these rows lies inside its frame row, so that byte [k] of row [r] of
    the chunk is byte [x_offset c * bytes_per_pixel + k] of frame row
    [y_offset c + r]. *)
Theorem chunks_carry_the_frame_pixels (p : UltraStreamingPipeline)
    (s : Screenshot.ScreenshotResult) (d : list Z) :
  64 <= chunk_width_ p -> 64 <= chunk_height_ p ->
  0 <= Screenshot.width s -> 0 <= Screenshot.height s ->
  Screenshot.width s + chunk_width_ p - 1 <= UINT32_MAX ->
  Screenshot.height s + chunk_height_ p - 1 <= UINT32_MAX ->
  Screenshot.data s = Some d ->
  0 < Screenshot.bytes_per_pixel s ->
  Screenshot.width s * Screenshot.bytes_per_pixel s <= Screenshot.stride s ->
  Screenshot.height s * Screenshot.stride s <= UINT32_MAX ->
  Screenshot.height s * Screenshot.stride s <= zlength d ->
  forall i c, CreateChunks p s !! i = Some c ->
    stride c = width c * Screenshot.bytes_per_pixel s /\
    pixel_data c
    = concat (tabulate (Z.to_nat (height c))
                (fun r => frame_row s d (x_offset c) (y_offset c + r) (stride c))) /\
    zlength (pixel_data c) = height c * stride c /\
    x_offset c * Screenshot.bytes_per_pixel s + stride c <= Screenshot.stride s /\
    (forall r k, 0 <= r < height c -> 0 <= k < stride c ->
       pixel_data c !! Z.to_nat (r * stride c + k)
       = d !! Z.to_nat ((y_offset c + r) * Screenshot.stride s
                        + x_offset c * Screenshot.bytes_per_pixel s + k)).
Proof.
  intros HTw HTh HW HH Hcols Hrows Hd Hbpp Hstride Hmax Hlen i c Hlook.
  destruct (CreateChunks_lookup p s HTw HTh HW HH Hcols Hrows i c Hlook)
    as (Hi & ->).
  destruct (ceil_div_bounds (Screenshot.width s) (chunk_width_ p))
    as (Hcx & _); [lia..|].
  destruct (grid_position _ _ _ Hi Hcx) as (Hx & Hy).
  destruct (chunk_at_geometry p s HTw HTh HW HH Hcols Hrows _ Hi)
    as (Hxo & Hyo & Hw & Hh & _).
  destruct (axis_tile (chunk_width_ p) (Screenshot.width s)
              (Z.of_nat i mod ceil_div (Screenshot.width s) (chunk_width_ p)))
    as (_ & _ & Hw0 & Hw1 & _); [lia..|].
  destruct (axis_tile (chunk_height_ p) (Screenshot.height s)
              (Z.of_nat i / ceil_div (Screenshot.width s) (chunk_width_ p)))
    as (_ & _ & Hh0 & Hh1 & _); [lia..|].
  set (c := chunk_at p s (Z.of_nat i)) in *.
  rewrite <- Hxo in Hw0, Hw1. rewrite <- Hw in Hw0, Hw1.
  rewrite <- Hyo in Hh0, Hh1. rewrite <- Hh in Hh0, Hh1.
  assert (Hxo0 : 0 <= x_offset c)
    by (rewrite Hxo; apply Z.mul_nonneg_nonneg; lia).
  assert (Hyo0 : 0 <= y_offset c)
    by (rewrite Hyo; apply Z.mul_nonneg_nonneg; lia).
  assert (Hpd : pixel_data c
                = extract_rows (Z.to_nat (height c)) 0 s (x_offset c) (y_offset c)
                    (stride c)
                    (repeat 0 (Z.to_nat (wrap32 (height c * stride c)))))
    by reflexivity.
  assert (Hstride_c : stride c = wrap32 (width c * Screenshot.bytes_per_pixel s))
    by reflexivity.
  clearbody c. clear Hxo Hyo Hw Hh Hx Hy Hi Hcx Hlook HTw HTh Hcols Hrows.
  assert (HwB : width c * Screenshot.bytes_per_pixel s
                <= Screenshot.width s * Screenshot.bytes_per_pixel s)
    by (apply Z.mul_le_mono_nonneg_r; lia).
  assert (HwB0 : 0 < width c * Screenshot.bytes_per_pixel s)
    by (apply Z.mul_pos_pos; lia).
  assert (HS : 0 < Screenshot.stride s) by lia.
  assert (HHS : 1 * Screenshot.stride s
                <= Screenshot.height s * Screenshot.stride s)
    by (apply Z.mul_le_mono_nonneg_r; lia).
  assert (Hst : stride c = width c * Screenshot.bytes_per_pixel s).
  { rewrite Hstride_c. apply wrap32_small. unfold UINT32_MAX in *. lia. }
  clear Hstride_c.
  assert (Hst0 : 0 <= stride c) by lia.
  assert (Hseg : x_offset c * Screenshot.bytes_per_pixel s + stride c
                 <= Screenshot.stride s).
  { rewrite Hst.
    destruct (tile_row_inside (Screenshot.width s) (Screenshot.height s)
                (Screenshot.stride s) (Screenshot.bytes_per_pixel s)
                (x_offset c) (y_offset c) (width c) (height c) 0)
      as (_ & Hrow & _); lia. }
  assert (Harea : 0 <= height c * stride c
                  <= Screenshot.height s * Screenshot.stride s).
  { split; [apply Z.mul_nonneg_nonneg; lia|].
    apply Z.mul_le_mono_nonneg; lia. }
  assert (Hyh : (y_offset c + height c) * Screenshot.stride s
                <= Screenshot.height s * Screenshot.stride s)
    by (apply Z.mul_le_mono_nonneg_r; lia).
  assert (Hsize : wrap32 (height c * stride c) = height c * stride c).
  { apply wrap32_small. unfold UINT32_MAX in *. lia. }
  assert (Hrow_in : forall r, 0 <= r < height c ->
            0 <= (y_offset c + r) * Screenshot.stride s
                 + x_offset c * Screenshot.bytes_per_pixel s /\
            (y_offset c + r) * Screenshot.stride s
            + x_offset c * Screenshot.bytes_per_pixel s + stride c
            <= zlength d).
  { intros r Hr.
    destruct (tile_row_inside (Screenshot.width s) (Screenshot.height s)
                (Screenshot.stride s) (Screenshot.bytes_per_pixel s)
                (x_offset c) (y_offset c) (width c) (height c) r)
      as (H0 & H1 & H2); lia. }
  assert (Hrows_len : forall r, 0 <= r < height c ->
            length (frame_row s d (x_offset c) (y_offset c + r) (stride c))
            = Z.to_nat (stride c)).
  { intros r Hr. destruct (Hrow_in r Hr) as (H0 & H1).
    apply length_frame_row; assumption. }
  assert (Hdata : pixel_data c
                  = concat (tabulate (Z.to_nat (height c))
                              (fun r => frame_row s d (x_offset c) (y_offset c + r)
                                          (stride c)))).
  { rewrite Hpd, Hsize.
    rewrite Z2Nat.inj_mul by lia.
    pose proof (extract_rows_closed s d (x_offset c) (y_offset c) (stride c)
                  (Z.to_nat (height c)) 0 [] Hd) as Hclosed.
    cbn [app] in Hclosed. rewrite Z2Nat.id in Hclosed by lia.
    rewrite Hclosed; try assumption; try reflexivity; try lia.
    f_equal. apply tabulate_ext. intros k _. f_equal. lia. }
  split; [exact Hst|]. split; [exact Hdata|split; [|split; [exact Hseg|]]].
  - rewrite Hpd. unfold zlength. rewrite length_extract_rows, repeat_length, Hsize.
    lia.
  - intros r k Hr Hk. rewrite Hdata.
    assert (Hrs : 0 <= r * stride c) by (apply Z.mul_nonneg_nonneg; lia).
    rewrite Z2Nat.inj_add, Z2Nat.inj_mul by lia.
    rewrite (lookup_concat_rows (Z.to_nat (stride c))); try lia.
    + rewrite Z2Nat.id by lia. rewrite lookup_frame_row by lia.
      destruct (Hrow_in r Hr) as (H0 & _). f_equal. lia.
    + intros q Hq. apply Hrows_len. lia.
Qed.

(** A 4x2 frame of one-byte pixels cut into 64x64 tiles: the one chunk
    holds the two rows. *)
Lemma chunks_carry_the_frame_pixels_witness :
  let s := {| Screenshot.data := Some [1; 2; 3; 4; 0; 5; 6; 7; 8; 0];
              Screenshot.width := 4; Screenshot.height := 2;
              Screenshot.stride := 5; Screenshot.bytes_per_pixel := 1;
              Screenshot.data_size := 10; Screenshot.success := true;
              Screenshot.error_message := ""; Screenshot.format := "";
              Screenshot.implementation := "" |} in
  exists c,
    CreateChunks (SetChunkSize 64 64 new_pipeline) s !! 0%nat = Some c /\
    stride c = width c * 1 /\
    pixel_data c
    = concat (tabulate (Z.to_nat (height c))
                (fun r => frame_row s [1; 2; 3; 4; 0; 5; 6; 7; 8; 0]
                            (x_offset c) (y_offset c + r) (stride c))) /\
    zlength (pixel_data c) = height c * stride c.
Proof.
  cbv zeta. eexists. split; [reflexivity|].
  destruct (chunks_carry_the_frame_pixels (SetChunkSize 64 64 new_pipeline)
              {| Screenshot.data := Some [1; 2; 3; 4; 0; 5; 6; 7; 8; 0];
                 Screenshot.width := 4; Screenshot.height := 2;
                 Screenshot.stride := 5; Screenshot.bytes_per_pixel := 1;
                 Screenshot.data_size := 10; Screenshot.success := true;
                 Screenshot.error_message := ""; Screenshot.format := "";
                 Screenshot.implementation := "" |}
              [1; 2; 3; 4; 0; 5; 6; 7; 8; 0])
    with (i := 0%nat) (c := chunk_at (SetChunkSize 64 64 new_pipeline)
              {| Screenshot.data := Some [1; 2; 3; 4; 0; 5; 6; 7; 8; 0];
                 Screenshot.width := 4; Screenshot.height := 2;
                 Screenshot.stride := 5; Screenshot.bytes_per_pixel := 1;
                 Screenshot.data_size := 10; Screenshot.success := true;
                 Screenshot.error_message := ""; Screenshot.format := "";
                 Screenshot.implementation := "" |} 0)
    as (Hst & Hdata & Hlen & _);
    try (unfold UINT32_MAX, zlength; cbn; lia); try reflexivity.
  split; [exact Hst|]. split; [exact Hdata|exact Hlen].
Defined.

Example CreateChunks_copies_rows :
  map pixel_data
    (CreateChunks (SetChunkSize 64 64 new_pipeline)
       {| Screenshot.data := Some [1; 2; 3; 4; 0; 5; 6; 7; 8; 0];
          Screenshot.width := 4; Screenshot.height := 2;
          Screenshot.stride := 5; Screenshot.bytes_per_pixel := 1;
          Screenshot.data_size := 10; Screenshot.success := true;
          Screenshot.error_message := ""; Screenshot.format := "";
          Screenshot.implementation := "" |})
  = [[1; 2; 3; 4; 5; 6; 7; 8]].
Proof. vm_compute. reflexivity. Qed.

(** *** What the container keeps *)

(** The container [CombineEncodedChunks] builds records neither where one
    chunk ends and the next begins nor the dimensions it is given: two calls
    return the same bytes exactly when the concatenated payloads agree, and
    the payload is the output from byte 12 on. *)
Theorem CombineEncodedChunks_keeps_only_the_bytes
    (chunks1 chunks2 : list (list Z)) (W1 H1 W2 H2 : Z) :
  (CombineEncodedChunks chunks1 W1 H1 = CombineEncodedChunks chunks2 W2 H2
   <-> concat chunks1 = concat chunks2) /\
  skipn 12 (CombineEncodedChunks chunks1 W1 H1) = concat chunks1.
Proof.
  assert (Hpayload : forall chunks W H,
            skipn 12 (CombineEncodedChunks chunks W H) = concat chunks).
  { intros chunks W H. rewrite CombineEncodedChunks_layout. reflexivity. }
  split; [|apply Hpayload]. split.
  - intros Heq. rewrite <- (Hpayload chunks1 W1 H1), <- (Hpayload chunks2 W2 H2).
    rewrite Heq. reflexivity.
  - intros Heq. rewrite !CombineEncodedChunks_layout, Heq. reflexivity.
Qed.

(** *** When the submission loop can never go on *)

(** No task is queued and no worker holds one. *)
Definition quiescent (st : PipelineState) : Prop :=
  task_queue_ st = [] /\ forall w ws, workers st !! w = Some ws -> ws = Idle.

(** With nothing in flight the counter cannot change, so a chunk that does
    not pass [CanAllocateMemory] is waited for without end. *)
Lemma blocked_when_quiescent ps st c rest :
  loop_point st = Waiting ->
  remaining st = c :: rest -> quiescent st ->
  CanAllocateMemory (pipeline st) (chunk_bytes c) = false ->
  forall st', rtc (step ps) st st' -> st' = st.
Proof.
  intros Hat Hrem (Hqueue & Hidle) Hblocked st' Hrun.
  induction Hrun as [|x y z Hstep _ IH]; [reflexivity|].
  assert (Hy : y = x).
  { inversion Hstep as [? c' rest' Hl Hr Hc|? c' rest' Hl Hr Hc|? c' rest' Hl Hr
                        |? i Hl Hf|? i Hl Hf Hc|? i Hl Hf Hc Hn|? i Hl Hf Hc
                        |? i Hl Hf|? w task queue Hw Hq
                        |? w task Hw|? w task Hw|? w task Hw]; subst;
      try congruence;
      apply Hidle in Hw; discriminate. }
  subst y. auto.
Qed.

Lemma initial_quiescent p chunks : quiescent (initial p chunks).
Proof.
  split; [reflexivity|]. cbn [initial workers]. intros w ws Hw.
  apply list_elem_of_lookup_2, list_elem_of_In, repeat_spec in Hw. exact Hw.
Qed.

Lemma chunk_bytes_range c : 0 <= chunk_bytes c < 2 ^ 32.
Proof.
  unfold chunk_bytes. pose proof (wrap32_range (wrap32 (width c * height c) * 4)).
  unfold UINT32_MAX in *. lia.
Qed.

(** A chunk larger than the whole budget is never admitted: with the
    counter at 0 and nothing in flight, [CanAllocateMemory] fails for it
    and nothing can make it pass, so the submission loop polls forever; no
    chunk is submitted and no task completes. *)
Theorem oversized_chunk_is_never_admitted (ps : WebPEncodeParams)
    (p : UltraStreamingPipeline) (c : StreamingChunk) (rest : list StreamingChunk) :
  current_memory_usage_ p = 0 -> max_usage p < chunk_bytes c ->
  forall st, rtc (step ps) (initial p (c :: rest)) st ->
    st = initial p (c :: rest) /\ chunks_submitted st = 0 /\ completed st = [].
Proof.
  intros Hzero Hbig st Hrun.
  assert (Hst : st = initial p (c :: rest)).
  { apply (blocked_when_quiescent ps _ c rest);
      [reflexivity|reflexivity|apply initial_quiescent| |exact Hrun].
    unfold CanAllocateMemory. cbn [initial pipeline]. rewrite Hzero.
    pose proof (chunk_bytes_range c).
    rewrite wrap64_small by (unfold SIZE_MAX; lia).
    apply Z.leb_gt. lia. }
  subst st. repeat split.
Qed.

(** A budget of 256 MB and tiles of 16384x16384 pixels (1 GiB each). *)
Lemma oversized_chunk_is_never_admitted_witness :
  let p := SetMaxMemoryUsage 256 (SetChunkSize 16384 16384
                                    (Initialize 2 0 new_pipeline)) in
  let c := chunk_at p (frame 16384 16384) 0 in
  max_usage p = 268435456 /\ chunk_bytes c = 1073741824 /\
  chunks_submitted (initial p [c]) = 0 /\ completed (initial p [c]) = [].
Proof.
  cbv zeta.
  set (p := SetMaxMemoryUsage 256 (SetChunkSize 16384 16384
                                     (Initialize 2 0 new_pipeline))).
  split; [reflexivity|]. split; [lazy; reflexivity|].
  destruct (oversized_chunk_is_never_admitted default_params p
              (chunk_at p (frame 16384 16384) 0) [])
    with (st := initial p [chunk_at p (frame 16384 16384) 0])
    as (_ & Hsub & Hdone);
    [reflexivity|lazy; reflexivity|apply rtc_refl|].
  split; [exact Hsub|exact Hdone].
Defined.

(** A failed task keeps its bytes: [ProcessEncodingTask] raises the counter
    before it encodes and lowers it only after [set_value], so when the
    encoder throws the counter stays raised. Here the first chunk is
    admitted and its task throws; no task is running any more, the counter
    stands at the chunk's bytes, and a second chunk that does not fit
    beside them is never admitted. *)
Theorem failed_task_blocks_admission (ps : WebPEncodeParams)
    (p : UltraStreamingPipeline) (c0 c1 : StreamingChunk)
    (rest : list StreamingChunk) :
  current_memory_usage_ p = 0 -> 1 <= worker_thread_count_ p ->
  chunk_bytes c0 <= max_usage p ->
  max_usage p < chunk_bytes c0 + chunk_bytes c1 ->
  exists st,
    rtc (step ps) (initial p (c0 :: c1 :: rest)) st /\
    quiescent st /\ remaining st = c1 :: rest /\
    chunks_submitted st = 1 /\ completed st = [0] /\
    current_memory_usage_ (pipeline st) = chunk_bytes c0 /\
    forall st', rtc (step ps) st st' -> st' = st.
Proof.
  intros Hzero Hworkers Hfits Hfull.
  pose proof (chunk_bytes_range c0) as Hb0.
  pose proof (chunk_bytes_range c1) as Hb1.
  set (t0 := {| chunk := c0; params := ps; task_id := wrap32 0 |}).
  set (ws := repeat Idle (Z.to_nat (worker_thread_count_ p))).
  assert (Hw0 : ws !! 0%nat = Some Idle).
  { subst ws. destruct (Z.to_nat (worker_thread_count_ p)) eqn:E; [lia|].
    reflexivity. }
  (* the task is pushed and the limiter, if entered, finds nothing ready *)
  set (pushed := {| pipeline := p;
                    remaining := c1 :: rest;
                    loop_point := Waiting;
                    chunks_submitted := 0 + 1;
                    chunk_futures := [] ++ [false];
                    task_queue_ := [] ++ [t0];
                    workers := ws;
                    completed := [];
                    failed := [] |}).
  assert (Hpushed : rtc (step ps) (initial p (c0 :: c1 :: rest)) pushed).
  { eapply rtc_l.
    { apply (step_admit _ _ c0 (c1 :: rest)); [reflexivity..|].
      unfold CanAllocateMemory. cbn [initial pipeline]. rewrite Hzero.
      rewrite wrap64_small by (unfold SIZE_MAX; lia). apply Z.leb_le. lia. }
    eapply rtc_l; [apply (step_push _ _ c0 (c1 :: rest)); reflexivity|].
    cbn [move_to initial pipeline remaining loop_point chunks_submitted
         chunk_futures task_queue_ workers completed failed].
    destruct (max_concurrent_chunks p <=? 0 + 1).
    - eapply rtc_l.
      { apply (step_poll_pending _ _ 0%nat); [reflexivity..|].
        cbn [completed]. intros []. }
      eapply rtc_l; [apply (step_poll_end _ _ 1%nat); reflexivity|].
      apply rtc_refl.
    - apply rtc_refl. }
  set (st := {| pipeline := UpdateMemoryUsage (chunk_bytes c0) p;
                remaining := c1 :: rest;
                loop_point := Waiting;
                chunks_submitted := 0 + 1;
                chunk_futures := [] ++ [false];
                task_queue_ := [];
                workers := <[0%nat := Idle]>
                             (<[0%nat := Encoding t0]>
                                (<[0%nat := Holding t0]> ws));
                completed := [] ++ [task_id t0];
                failed := [] ++ [task_id t0] |}).
  assert (Hquiet : quiescent st).
  { split; [reflexivity|]. subst st. cbn [workers]. intros w ws' Hw.
    rewrite !list_insert_insert_eq in Hw.
    apply list_lookup_insert_Some in Hw.
    destruct Hw as [(_ & <- & _)|(_ & Hw)]; [reflexivity|].
    apply list_elem_of_lookup_2, list_elem_of_In, repeat_spec in Hw. exact Hw. }
  assert (Husage : current_memory_usage_ (pipeline st) = chunk_bytes c0).
  { subst st. cbn [pipeline UpdateMemoryUsage current_memory_usage_].
    rewrite Hzero. apply wrap64_small. unfold SIZE_MAX. lia. }
  exists st. split; [|split; [exact Hquiet|split; [reflexivity|split;
    [reflexivity|split; [reflexivity|split; [exact Husage|]]]]]].
  - transitivity pushed; [exact Hpushed|].
    eapply rtc_l.
    { apply (step_pop _ _ 0%nat t0 []); [exact Hw0|reflexivity]. }
    eapply rtc_l.
    { apply (step_start _ _ 0%nat t0). cbn [workers].
      apply list_lookup_insert_eq. apply lookup_lt_Some in Hw0. exact Hw0. }
    eapply rtc_l.
    { apply (step_throw _ _ 0%nat t0). cbn [workers].
      apply list_lookup_insert_eq. rewrite length_insert.
      apply lookup_lt_Some in Hw0. exact Hw0. }
    apply rtc_refl.
  - apply (blocked_when_quiescent ps st c1 rest);
      [reflexivity|reflexivity|exact Hquiet|].
    unfold CanAllocateMemory. rewrite Husage.
    rewrite wrap64_small by (unfold SIZE_MAX; lia).
    apply Z.leb_gt. exact Hfull.
Qed.

Lemma failed_task_blocks_admission_witness :
  exists st,
    rtc (step default_params)
      (initial one_chunk_budget
         [chunk_at one_chunk_budget two_chunk_frame 0;
          chunk_at one_chunk_budget two_chunk_frame 1]) st /\
    chunks_submitted st = 1 /\ completed st = [0] /\
    forall st', rtc (step default_params) st st' -> st' = st.
Proof.
  destruct (failed_task_blocks_admission default_params one_chunk_budget
              (chunk_at one_chunk_budget two_chunk_frame 0)
              (chunk_at one_chunk_budget two_chunk_frame 1) [])
    as (st & Hrun & _ & _ & Hsub & Hdone & _ & Hstuck).
  - reflexivity.
  - cbn. lia.
  - lazy. discriminate.
  - lazy. reflexivity.
  - exists st. auto.
Defined.

(** *** The request: degenerate tile sizes and the encoders behind a chunk *)

Section Request.

Variable InitializeGPUEncoder : bool.
Variable EncodeGPUAccelerated :
  list Z -> Z -> Z -> Z -> WebPEncodeParams -> list Z.
Variable EncodeSIMDOptimized :
  list Z -> Z -> Z -> Z -> WebPEncodeParams -> list Z.
Variable ready : Z -> nat -> bool.
Variable peak_reading_mb : Z.


(** [EncodeChunkAdvanced] always has an answer for a chunk that is not
    empty: it returns what the GPU encoder gives when that is initialised
    and returns bytes, else what the SIMD encoder gives when that returns
    bytes, else the placeholder encoding, which is never empty. *)
Theorem EncodeChunkAdvanced_falls_back (c : StreamingChunk)
    (ps : WebPEncodeParams) :
  width c <> 0 -> height c <> 0 ->
  let gpu := EncodeGPUAccelerated (pixel_data c) (width c) (height c) (stride c) ps in
  let simd := EncodeSIMDOptimized (pixel_data c) (width c) (height c) (stride c) ps in
  let out := EncodeChunkAdvanced InitializeGPUEncoder EncodeGPUAccelerated
               EncodeSIMDOptimized c ps in
  out <> [] /\
  (InitializeGPUEncoder = true -> gpu <> [] -> out = gpu) /\
  (InitializeGPUEncoder = false \/ gpu = [] -> simd <> [] -> out = simd) /\
  (InitializeGPUEncoder = false \/ gpu = [] -> simd = [] ->
   exists tail, out = WebPEncoder.placeholder_header (width c) (height c) ++ tail).
Proof.
  intros Hw Hh. cbv zeta. unfold EncodeChunkAdvanced, WebPEncoder.EncodeRGBA.
  rewrite WebPEncoder.EncodeInternal_some by assumption. cbn [fst].
  destruct InitializeGPUEncoder;
    destruct (EncodeGPUAccelerated _ _ _ _ _) as [|g gs];
    destruct (EncodeSIMDOptimized _ _ _ _ _) as [|e es];
    cbn [is_empty negb andb];
    (split; [discriminate|]);
    (split; [intros; congruence|]);
    (split; [intros [?|?] ?; congruence|]);
    intros [?|?] ?; try congruence; try discriminate; eauto.
Qed.

End Request.


Lemma EncodeChunkAdvanced_falls_back_witness :
  let c := chunk_at (SetChunkSize 64 64 new_pipeline) (frame 100 100) 3 in
  EncodeChunkAdvanced true (fun _ _ _ _ _ => []) (fun _ _ _ _ _ => [42]) c
    default_params = [42].
Proof.
  cbv zeta.
  destruct (EncodeChunkAdvanced_falls_back true (fun _ _ _ _ _ => [])
              (fun _ _ _ _ _ => [42])
              (chunk_at (SetChunkSize 64 64 new_pipeline) (frame 100 100) 3)
              default_params) as (_ & _ & Hsimd & _).
  - lazy. discriminate.
  - lazy. discriminate.
  - apply Hsimd; [right; reflexivity|discriminate].
Defined.

End UltraStreaming.
